(** * The managed run controller of the Cortex CLI ([cli/cmd/lib_manager.go])

    A shallow embedding of [runManager]: the Go function that pulls the
    manager image, creates a container, copies files in, starts the container,
    streams its output, inspects it, copies files out and removes the
    container.  The Docker engine and the helper packages are external; they
    are an interface ([Deps]) whose operations act on an abstract world. *)

From Stdlib Require Import String Ascii List ZArith Bool Lia DecimalString.
Import ListNotations.

Set Implicit Arguments.

(** ** Go strings

    A Go string is a sequence of bytes; [string] of the standard library is a
    list of [ascii], which are bytes. *)

Module strings.

Definition CR : ascii := ascii_of_nat 13.
Definition LF : ascii := ascii_of_nat 10.

(** ["\r\n"], ["\n"] and ["\r\r\n"]. *)
Definition crlf : string := String CR (String LF EmptyString).
Definition lf : string := String LF EmptyString.
Definition crcrlf : string := String CR crlf.

(** [strings.HasPrefix(s, prefix)]. *)
Fixpoint HasPrefix (s prefix : string) {struct prefix} : bool :=
  match prefix, s with
  | EmptyString, _ => true
  | String _ _, EmptyString => false
  | String p prefix', String c s' => Ascii.eqb p c && HasPrefix s' prefix'
  end.

(** [strings.Contains(s, substr)]: [substr] occurs at some offset of [s]. *)
Fixpoint Contains (s substr : string) : bool :=
  match s with
  | EmptyString => HasPrefix s substr
  | String _ s' => HasPrefix s substr || Contains s' substr
  end.

(** [strings.ReplaceAll(s, "\r\n", "\n")], the only instance the program
    uses: the occurrences of ["\r\n"] are found from left to right, they do
    not overlap, and each one is replaced by ["\n"]. *)
Fixpoint ReplaceAll_crlf (s : string) : string :=
  match s with
  | EmptyString => EmptyString
  | String c s' =>
      match s' with
      | EmptyString => String c EmptyString
      | String d s'' =>
          if Ascii.eqb c CR && Ascii.eqb d LF
          then String LF (ReplaceAll_crlf s'')
          else String c (ReplaceAll_crlf s')
      end
  end.

(** Whether the first byte of [s] is a line feed. *)
Definition startsLF (s : string) : bool :=
  match s with
  | String c _ => Ascii.eqb c LF
  | EmptyString => false
  end.

End strings.

(** ** Go errors *)

(** A non-nil value of Go's [error] interface: [io_EOF] is the sentinel
    [io.EOF], which the program compares by identity; any other error is
    known by its message.  A possibly nil [error] is an [option error]. *)
Inductive error : Type :=
| io_EOF
| errorString (msg : string).

(** [err.Error()]. *)
Definition Error (err : error) : string :=
  match err with
  | io_EOF => "EOF"
  | errorString msg => msg
  end.

(** [err == io.EOF]. *)
Definition is_EOF (err : error) : bool :=
  match err with
  | io_EOF => true
  | errorString _ => false
  end.

(** ** The types of the Docker client and of the archive package

    Only the fields that [lib_manager.go] reads or writes are kept; the other
    fields of the Go structs keep their zero value throughout. *)

Module archive.
Record FileInput : Type := { Source : string; Dest : string }.
Record Input : Type := { Files : list FileInput }.
End archive.

Module container.
Record Config : Type := {
  Image : string;
  Entrypoint : list string;
  Cmd : list string;
  Tty : bool;
  AttachStdout : bool;
  AttachStderr : bool;
  Env : list string
}.

(** [config.Env = env] and [config.Cmd = cmd]. *)
Definition set_Env (config : Config) (env : list string) : Config :=
  {| Image := Image config; Entrypoint := Entrypoint config;
     Cmd := Cmd config; Tty := Tty config;
     AttachStdout := AttachStdout config;
     AttachStderr := AttachStderr config; Env := env |}.

Definition set_Cmd (config : Config) (cmd : list string) : Config :=
  {| Image := Image config; Entrypoint := Entrypoint config;
     Cmd := cmd; Tty := Tty config;
     AttachStdout := AttachStdout config;
     AttachStderr := AttachStderr config; Env := Env config |}.
End container.

Module dockertypes.
Record ContainerRemoveOptions : Type := {
  RemoveVolumes : bool;
  RemoveLinks : bool;
  Force : bool
}.

Record ContainerAttachOptions : Type := {
  Stream : bool;
  Stdin : bool;
  Stdout : bool;
  Stderr : bool
}.

(** [info.State] of the result of [ContainerInspect]. *)
Record ContainerState : Type := {
  Running : bool;
  ExitCode : Z
}.
End dockertypes.

Record dockerCopyFromPath : Type := {
  containerPath : string;
  localDir : string
}.

Record dockerCopyToPath : Type := {
  input : archive.Input;
  toContainerPath : string
}.

(** ** Events

    Every call that leaves [runManager] is recorded with its arguments and
    with what it returned, in the order of the calls. *)
Inductive Event : Type :=
| EvGetDockerClient (err : option error)
| EvPullImage (image : string) (r : bool + error)
| EvPrintln
| EvContainerCreate (config : container.Config) (r : string + error)
| EvContainerRemove (ID : string) (options : dockertypes.ContainerRemoveOptions)
                    (err : option error)
| EvSignalNotify
| EvGo
| EvCopyToContainer (ID : string) (copyPath : dockerCopyToPath) (err : option error)
| EvContainerStart (ID : string) (err : option error)
| EvContainerAttach (ID : string) (options : dockertypes.ContainerAttachOptions)
                    (err : option error)
| EvCopy (r : string * option error)
| EvClose
| EvSleep
| EvContainerInspect (ID : string) (r : dockertypes.ContainerState + error)
| EvCopyFromContainer (ID : string) (copyPath : dockerCopyFromPath) (err : option error).

(** ** The collaborators of [runManager]

    The constant, the error helpers and the engine operations that
    [lib_manager.go] imports.  An engine operation takes the state [W] of the
    world outside the program and returns its Go results with the next state;
    a Go result pair [(v, err)] whose value is read only when [err] is nil is
    a sum.  [PullImage] is always called with [docker.NoAuth] and
    [docker.PrintDots], [ContainerCreate] with nil host and network
    configurations and an empty name, [ContainerStart] with empty options.
    [Copy] is [io.Copy(os.Stdout, tee)]: it returns the bytes that went
    through the tee, which are the contents of [outputBuffer], and the error
    of the copy. *)
Record Deps (W : Type) : Type := {
  CortexVersion : string;
  errors_Append : error -> string -> error;
  errors_WithStack : error -> error;
  WrapDockerError : error -> error;
  GetDockerClient : W -> option error * W;
  PullImage : string -> W -> (bool + error) * W;
  ContainerCreate : container.Config -> W -> (string + error) * W;
  ContainerRemove :
    string -> dockertypes.ContainerRemoveOptions -> W -> option error * W;
  CopyToContainer : string -> dockerCopyToPath -> W -> option error * W;
  ContainerStart : string -> W -> option error * W;
  ContainerAttach :
    string -> dockertypes.ContainerAttachOptions -> W -> option error * W;
  Copy : W -> (string * option error) * W;
  Close : W -> W;
  Sleep : W -> W;
  ContainerInspect : string -> W -> (dockertypes.ContainerState + error) * W;
  CopyFromContainer : string -> dockerCopyFromPath -> W -> option error * W
}.

(** [d] with another [ContainerRemove]. *)
Definition withContainerRemove {W : Type} (d : Deps W)
    (remove : string -> dockertypes.ContainerRemoveOptions -> W -> option error * W)
  : Deps W :=
  {| CortexVersion := CortexVersion d;
     errors_Append := errors_Append d;
     errors_WithStack := errors_WithStack d;
     WrapDockerError := WrapDockerError d;
     GetDockerClient := GetDockerClient d;
     PullImage := PullImage d;
     ContainerCreate := ContainerCreate d;
     ContainerRemove := remove;
     CopyToContainer := CopyToContainer d;
     ContainerStart := ContainerStart d;
     ContainerAttach := ContainerAttach d;
     Copy := Copy d;
     Close := Close d;
     Sleep := Sleep d;
     ContainerInspect := ContainerInspect d;
     CopyFromContainer := CopyFromContainer d |}.

(** ** The state of a run and its monad

    The state holds the world, the events so far and the object that the
    pointer [containerConfig] refers to, which [runManager] shares with its
    caller.  A computation returns a value or panics. *)
Record St (W : Type) : Type := {
  world : W;
  trace : list Event;
  config : container.Config
}.

Inductive res (A : Type) : Type :=
| Ok (a : A)
| Panic (msg : string).
Arguments Panic {A} msg.

Definition M (W A : Type) : Type := St W -> res A * St W.

Section Monad.
Context {W : Type}.

Definition ret {A : Type} (a : A) : M W A := fun s => (Ok a, s).

Definition bind {A B : Type} (m : M W A) (k : A -> M W B) : M W B :=
  fun s =>
    match m s with
    | (Ok a, s') => k a s'
    | (Panic msg, s') => (Panic msg, s')
    end.

Definition panic {A : Type} (msg : string) : M W A := fun s => (Panic msg, s).

Definition getConfig : M W container.Config := fun s => (Ok (config s), s).

Definition setConfig (c : container.Config) : M W unit :=
  fun s => (Ok tt, {| world := world s; trace := trace s; config := c |}).

(** A call to the outside: the world moves on and the event is recorded. *)
Definition call {A : Type} (op : W -> A * W) (ev : A -> Event) : M W A :=
  fun s =>
    let (a, w) := op (world s) in
    (Ok a, {| world := w; trace := trace s ++ [ev a]; config := config s |}).

(** [s] after the world has moved to [w] and the events [evs] were added. *)
Definition advance (s : St W) (w : W) (evs : list Event) : St W :=
  {| world := w; trace := trace s ++ evs; config := config s |}.

(** A call with no result. *)
Definition emit (op : W -> W) (ev : Event) : M W unit :=
  call (fun w => (tt, op w)) (fun _ => ev).

(** [defer f()] followed by [body]: [f] runs when [body] has returned or
    panicked, and the results of the function are those of [body]. *)
Definition defer {A : Type} (f : M W unit) (body : M W A) : M W A :=
  fun s =>
    let (r, s1) := body s in
    let (_, s2) := f s1 in
    (r, s2).
End Monad.

Notation "x <- m ;; k" := (bind m (fun x => k))
  (at level 61, m at next level, right associativity).
Notation "' pat <- m ;; k" := (bind m (fun x => match x with pat => k end))
  (at level 61, pat pattern, m at next level, right associativity).

(** ** [runManager] *)

Section RunManager.
Import strings container dockertypes.
Context {W : Type} (d : Deps W).

Local Open Scope string_scope.

(** An event of the program itself, which the world does not answer. *)
Definition note (ev : Event) : M W unit :=
  call (fun w => (tt, w)) (fun _ => ev).

(** The text put in front of [containerConfig.Cmd[0]] (line 59). *)
Definition delayAndVersionCheck : string :=
  "sleep 0.1 && /root/check_cortex_version.sh && ".

(** The text appended to a pull error that mentions [auth] (line 69):
    the format string of [fmt.Sprintf] with [image] for its [%s]. *)
Definition privateRepositoryHint (image : string) : string :=
  lf ++ lf ++
  "if your manager image is stored in a private repository: run `docker login` (if you haven't already), download your image with `docker pull "
  ++ image ++ "`, and try this command again)".

(** The closure [removeContainer] (lines 83-88): the error of
    [ContainerRemove] is assigned to the blank identifier. *)
Definition removeContainer (ID : string) : M W unit :=
  let options :=
    {| RemoveVolumes := true; RemoveLinks := false; Force := true |} in
  _ <- call (ContainerRemove d ID options) (EvContainerRemove ID options) ;;
  ret tt.

(** The loop over [copyToPaths] (lines 104-109): [Some err] when it leaves
    the function with [err], [None] when it runs to its end. *)
Fixpoint copyToLoop (ID : string) (copyToPaths : list dockerCopyToPath)
  : M W (option error) :=
  match copyToPaths with
  | [] => ret None
  | copyPath :: rest =>
      err <- call (CopyToContainer d ID copyPath)
                  (EvCopyToContainer ID copyPath) ;;
      match err with
      | Some err => ret (Some err)
      | None => copyToLoop ID rest
      end
  end.

(** The loop over [copyFromPaths] (lines 148-153). *)
Fixpoint copyFromLoop (ID : string) (copyFromPaths : list dockerCopyFromPath)
  : M W (option error) :=
  match copyFromPaths with
  | [] => ret None
  | copyPath :: rest =>
      err <- call (CopyFromContainer d ID copyPath)
                  (EvCopyFromContainer ID copyPath) ;;
      match err with
      | Some err => ret (Some err)
      | None => copyFromLoop ID rest
      end
  end.

(** The results of [runManager]: [(string, *int, error)]. *)
Definition result : Type := string * option Z * option error.

(** Lines 56-59: the two writes through [containerConfig].  Indexing an
    empty [Cmd] panics, after [Env] has been written. *)
Definition injectVersion : M W unit :=
  c <- getConfig ;;
  _ <- setConfig (set_Env c (Env c ++ ["CORTEX_CLI_VERSION=" ++ CortexVersion d])) ;;
  c <- getConfig ;;
  match Cmd c with
  | [] => panic "runtime error: index out of range [0] with length 0"
  | cmd0 :: cmds => setConfig (set_Cmd c ((delayAndVersionCheck ++ cmd0) :: cmds))
  end.

(** The condition [err != nil && err != io.EOF] of line 130: the error
    that makes the function return, if any. *)
Definition notEOF (err : option error) : option error :=
  match err with
  | Some err => if is_EOF err then None else Some err
  | None => None
  end.

(** Lines 126-160: what follows [defer logsOutput.Close()]. *)
Definition afterAttach (ID : string) (caughtCtrlC : bool)
    (copyFromPaths : list dockerCopyFromPath) : M W result :=
  '(outputBuffer, err) <- call (Copy d) EvCopy ;;
  match notEOF err with
  | Some err => ret ("", None, Some (errors_WithStack d err))
  | None =>
  let output := ReplaceAll_crlf outputBuffer in
  _ <- (if caughtCtrlC then emit (Sleep d) EvSleep else ret tt) ;;
  r <- call (ContainerInspect d ID) (EvContainerInspect ID) ;;
  match r with
  | inr err => ret ("", None, Some (errors_WithStack d err))
  | inl State =>
  err <- (if (ExitCode State =? 0)%Z
          then copyFromLoop ID copyFromPaths
          else ret None) ;;
  match err with
  | Some err => ret ("", None, Some err)
  | None =>
  if Running State
  then ret (output, None, None)
  else ret (output, Some (ExitCode State), None)
  end
  end
  end.

(** Lines 92-160: what follows [defer removeContainer()].  The goroutine
    started at line 97 stays blocked on its channel as long as no signal is
    delivered: these are the runs described here, and in them [caughtCtrlC]
    keeps the value it is given at line 95. *)
Definition afterCreate (ID : string) (copyToPaths : list dockerCopyToPath)
    (copyFromPaths : list dockerCopyFromPath) : M W result :=
  _ <- note EvSignalNotify ;;
  let caughtCtrlC := false in
  _ <- note EvGo ;;
  err <- copyToLoop ID copyToPaths ;;
  match err with
  | Some err => ret ("", None, Some err)
  | None =>
  err <- call (ContainerStart d ID) (EvContainerStart ID) ;;
  match err with
  | Some err => ret ("", None, Some (WrapDockerError d err))
  | None =>
  let options :=
    {| Stream := true; Stdin := false; Stdout := true; Stderr := true |} in
  err <- call (ContainerAttach d ID options) (EvContainerAttach ID options) ;;
  match err with
  | Some err => ret ("", None, Some (WrapDockerError d err))
  | None => defer (emit (Close d) EvClose) (afterAttach ID caughtCtrlC copyFromPaths)
  end
  end
  end.

(** [runManager] (lines 55-161).  [containerConfig] is the object in the
    state. *)
Definition runManager (addNewLineAfterPull : bool)
    (copyToPaths : list dockerCopyToPath)
    (copyFromPaths : list dockerCopyFromPath) : M W result :=
  _ <- injectVersion ;;
  err <- call (GetDockerClient d) EvGetDockerClient ;;
  match err with
  | Some err => ret ("", None, Some err)
  | None =>
  containerConfig <- getConfig ;;
  r <- call (PullImage d (Image containerConfig))
            (EvPullImage (Image containerConfig)) ;;
  match r with
  | inr err =>
      let err :=
        if Contains (Error err) "auth"
        then errors_Append d err (privateRepositoryHint (Image containerConfig))
        else err in
      ret ("", None, Some err)
  | inl pulledImage =>
  _ <- (if pulledImage && addNewLineAfterPull then note EvPrintln else ret tt) ;;
  r <- call (ContainerCreate d containerConfig)
            (EvContainerCreate containerConfig) ;;
  match r with
  | inr err => ret ("", None, Some (WrapDockerError d err))
  | inl ID => defer (removeContainer ID) (afterCreate ID copyToPaths copyFromPaths)
  end
  end
  end.

(** The state in which a caller enters [runManager]: no event yet. *)
Definition enter (w : W) (containerConfig : Config) : St W :=
  {| world := w; trace := []; config := containerConfig |}.

(** What a caller that enters [runManager] in the world [w], with
    [containerConfig] pointing to [c], gets back; the events of the run;
    and the object behind [containerConfig] afterwards. *)
Definition returned (addNewLineAfterPull : bool)
    (copyToPaths : list dockerCopyToPath)
    (copyFromPaths : list dockerCopyFromPath) (w : W) (c : Config)
  : res result :=
  fst (runManager addNewLineAfterPull copyToPaths copyFromPaths (enter w c)).

Definition history (addNewLineAfterPull : bool)
    (copyToPaths : list dockerCopyToPath)
    (copyFromPaths : list dockerCopyFromPath) (w : W) (c : Config)
  : list Event :=
  trace (snd (runManager addNewLineAfterPull copyToPaths copyFromPaths (enter w c))).

Definition finalConfig (addNewLineAfterPull : bool)
    (copyToPaths : list dockerCopyToPath)
    (copyFromPaths : list dockerCopyFromPath) (w : W) (c : Config)
  : Config :=
  config (snd (runManager addNewLineAfterPull copyToPaths copyFromPaths (enter w c))).
End RunManager.

(** ** What a trace shows *)

Section Observers.
Import dockertypes.

(** The calls of [ContainerRemove], with their arguments. *)
Definition removals (tr : list Event) : list (string * ContainerRemoveOptions) :=
  flat_map (fun ev => match ev with
                      | EvContainerRemove ID options _ => [(ID, options)]
                      | _ => []
                      end) tr.

(** The identifiers of the containers whose creation succeeded. *)
Definition created (tr : list Event) : list string :=
  flat_map (fun ev => match ev with
                      | EvContainerCreate _ (inl ID) => [ID]
                      | _ => []
                      end) tr.

(** The configurations given to [ContainerCreate]. *)
Definition createdWith (tr : list Event) : list container.Config :=
  flat_map (fun ev => match ev with
                      | EvContainerCreate c _ => [c]
                      | _ => []
                      end) tr.

(** The directives given to [CopyToContainer] and to [CopyFromContainer]. *)
Definition copiedTo (tr : list Event) : list dockerCopyToPath :=
  flat_map (fun ev => match ev with
                      | EvCopyToContainer _ copyPath _ => [copyPath]
                      | _ => []
                      end) tr.

Definition copiedFrom (tr : list Event) : list dockerCopyFromPath :=
  flat_map (fun ev => match ev with
                      | EvCopyFromContainer _ copyPath _ => [copyPath]
                      | _ => []
                      end) tr.

(** The errors that [CopyToContainer] and [CopyFromContainer] returned. *)
Definition copyToErrors (tr : list Event) : list error :=
  flat_map (fun ev => match ev with
                      | EvCopyToContainer _ _ (Some err) => [err]
                      | _ => []
                      end) tr.

Definition copyFromErrors (tr : list Event) : list error :=
  flat_map (fun ev => match ev with
                      | EvCopyFromContainer _ _ (Some err) => [err]
                      | _ => []
                      end) tr.

(** The calls of [ContainerStart]. *)
Definition starts (tr : list Event) : list string :=
  flat_map (fun ev => match ev with
                      | EvContainerStart ID _ => [ID]
                      | _ => []
                      end) tr.

(** The bytes captured by [io.Copy]. *)
Definition captured (tr : list Event) : list string :=
  flat_map (fun ev => match ev with
                      | EvCopy (outputBuffer, _) => [outputBuffer]
                      | _ => []
                      end) tr.

(** The states that [ContainerInspect] returned. *)
Definition inspected (tr : list Event) : list ContainerState :=
  flat_map (fun ev => match ev with
                      | EvContainerInspect _ (inl State) => [State]
                      | _ => []
                      end) tr.

(** A possibly nil error as a list. *)
Definition errorList (r : option error) : list error :=
  match r with
  | Some err => [err]
  | None => []
  end.

(** The error of a run that returned. *)
Definition errorOf (out : res (string * option Z * option error)) : option error :=
  match out with
  | Ok (_, _, err) => err
  | Panic _ => None
  end.
End Observers.

(** ** The exit paths of [runManager]

    One constructor for each way in which the loops and the function are
    left, in the order of the source, with the events of the path and the
    results returned. *)

Section Paths.
Import strings container dockertypes.
Context {W : Type} (d : Deps W).

Local Open Scope string_scope.

Inductive CopyToRun (ID : string)
  : list dockerCopyToPath -> list Event -> option error -> Prop :=
| copyTo_done : CopyToRun ID [] [] None
| copyTo_fail p ps err :
    CopyToRun ID (p :: ps) [EvCopyToContainer ID p (Some err)] (Some err)
| copyTo_next p ps evs r :
    CopyToRun ID ps evs r ->
    CopyToRun ID (p :: ps) (EvCopyToContainer ID p None :: evs) r.

Inductive CopyFromRun (ID : string)
  : list dockerCopyFromPath -> list Event -> option error -> Prop :=
| copyFrom_done : CopyFromRun ID [] [] None
| copyFrom_fail p ps err :
    CopyFromRun ID (p :: ps) [EvCopyFromContainer ID p (Some err)] (Some err)
| copyFrom_next p ps evs r :
    CopyFromRun ID ps evs r ->
    CopyFromRun ID (p :: ps) (EvCopyFromContainer ID p None :: evs) r.

(** The last two [return] statements (lines 156-160). *)
Definition finalResult (outputBuffer : string) (State : ContainerState) : result :=
  (ReplaceAll_crlf outputBuffer,
   if Running State then None else Some (ExitCode State),
   None).

(** The paths of [afterAttach]. *)
Inductive Collected (ID : string) (copyFromPaths : list dockerCopyFromPath)
  : list Event -> result -> Prop :=
| stream_failure buf err :
    is_EOF err = false ->
    Collected ID copyFromPaths
      [EvCopy (buf, Some err)]
      ("", None, Some (errors_WithStack d err))
| inspect_failure buf eof err :
    notEOF eof = None ->
    Collected ID copyFromPaths
      [EvCopy (buf, eof); EvContainerInspect ID (inr err)]
      ("", None, Some (errors_WithStack d err))
| copy_out_skipped buf eof State :
    notEOF eof = None ->
    ExitCode State <> 0%Z ->
    Collected ID copyFromPaths
      [EvCopy (buf, eof); EvContainerInspect ID (inl State)]
      (finalResult buf State)
| copy_out_failure buf eof State evs err :
    notEOF eof = None ->
    ExitCode State = 0%Z ->
    CopyFromRun ID copyFromPaths evs (Some err) ->
    Collected ID copyFromPaths
      ([EvCopy (buf, eof); EvContainerInspect ID (inl State)] ++ evs)
      ("", None, Some err)
| copy_out_done buf eof State evs :
    notEOF eof = None ->
    ExitCode State = 0%Z ->
    CopyFromRun ID copyFromPaths evs None ->
    Collected ID copyFromPaths
      ([EvCopy (buf, eof); EvContainerInspect ID (inl State)] ++ evs)
      (finalResult buf State).

Definition attachOptions : ContainerAttachOptions :=
  {| Stream := true; Stdin := false; Stdout := true; Stderr := true |}.

Definition removeOptions : ContainerRemoveOptions :=
  {| RemoveVolumes := true; RemoveLinks := false; Force := true |}.

(** The paths of [afterCreate]. *)
Inductive Managed (ID : string) (copyToPaths : list dockerCopyToPath)
    (copyFromPaths : list dockerCopyFromPath)
  : list Event -> result -> Prop :=
| copy_in_failure evs err :
    CopyToRun ID copyToPaths evs (Some err) ->
    Managed ID copyToPaths copyFromPaths
      ([EvSignalNotify; EvGo] ++ evs)
      ("", None, Some err)
| start_failure evs err :
    CopyToRun ID copyToPaths evs None ->
    Managed ID copyToPaths copyFromPaths
      ([EvSignalNotify; EvGo] ++ evs ++ [EvContainerStart ID (Some err)])
      ("", None, Some (WrapDockerError d err))
| attach_failure evs err :
    CopyToRun ID copyToPaths evs None ->
    Managed ID copyToPaths copyFromPaths
      ([EvSignalNotify; EvGo] ++ evs
       ++ [EvContainerStart ID None; EvContainerAttach ID attachOptions (Some err)])
      ("", None, Some (WrapDockerError d err))
| attached evs evs' r :
    CopyToRun ID copyToPaths evs None ->
    Collected ID copyFromPaths evs' r ->
    Managed ID copyToPaths copyFromPaths
      ([EvSignalNotify; EvGo] ++ evs
       ++ [EvContainerStart ID None; EvContainerAttach ID attachOptions None]
       ++ evs' ++ [EvClose])
      r.

(** The events up to a successful [ContainerCreate]. *)
Definition pulledAndCreated (c : Config) (pulledImage addNewLineAfterPull : bool)
    (ID : string) : list Event :=
  [EvGetDockerClient None; EvPullImage (Image c) (inl pulledImage)]
  ++ (if pulledImage && addNewLineAfterPull then [EvPrintln] else [])
  ++ [EvContainerCreate c (inl ID)].

(** The error returned when [PullImage] fails (lines 68-71). *)
Definition pullError (c : Config) (err : error) : error :=
  if Contains (Error err) "auth"
  then errors_Append d err (privateRepositoryHint (Image c))
  else err.

(** The paths of [runManager] once [Cmd[0]] has been written; [c] is the
    object behind [containerConfig] after line 59. *)
Inductive Exit (c : Config) (addNewLineAfterPull : bool)
    (copyToPaths : list dockerCopyToPath)
    (copyFromPaths : list dockerCopyFromPath)
  : list Event -> result -> Prop :=
| client_failure err :
    Exit c addNewLineAfterPull copyToPaths copyFromPaths
      [EvGetDockerClient (Some err)]
      ("", None, Some err)
| pull_failure err :
    Exit c addNewLineAfterPull copyToPaths copyFromPaths
      [EvGetDockerClient None; EvPullImage (Image c) (inr err)]
      ("", None, Some (pullError c err))
| create_failure pulledImage err :
    Exit c addNewLineAfterPull copyToPaths copyFromPaths
      ([EvGetDockerClient None; EvPullImage (Image c) (inl pulledImage)]
       ++ (if pulledImage && addNewLineAfterPull then [EvPrintln] else [])
       ++ [EvContainerCreate c (inr err)])
      ("", None, Some (WrapDockerError d err))
| create_success pulledImage ID evs r rerr :
    Managed ID copyToPaths copyFromPaths evs r ->
    Exit c addNewLineAfterPull copyToPaths copyFromPaths
      (pulledAndCreated c pulledImage addNewLineAfterPull ID
       ++ evs ++ [EvContainerRemove ID removeOptions rerr])
      r.

(** The object behind [containerConfig] after lines 56-59, when [Cmd] is
    not empty. *)
Definition injected (c : Config) : option Config :=
  let c := set_Env c (Env c ++ ["CORTEX_CLI_VERSION=" ++ CortexVersion d]) in
  match Cmd c with
  | [] => None
  | cmd0 :: cmds => Some (set_Cmd c ((delayAndVersionCheck ++ cmd0) :: cmds))
  end.
End Paths.

(** ** A scripted engine

    A world that answers every call from a fixed script, for the examples. *)

Record Script : Type := {
  onGetDockerClient : option error;
  onPullImage : bool + error;
  onContainerCreate : string + error;
  onContainerRemove : option error;
  onCopyToContainer : dockerCopyToPath -> option error;
  onContainerStart : option error;
  onContainerAttach : option error;
  onCopy : string * option error;
  onContainerInspect : dockertypes.ContainerState + error;
  onCopyFromContainer : dockerCopyFromPath -> option error
}.

Section Scripted.
Local Open Scope string_scope.

Definition scripted (sc : Script) : Deps unit :=
  {| CortexVersion := "0.42.0";
     errors_Append := fun err str => errorString (Error err ++ str);
     errors_WithStack := fun err => errorString (Error err);
     WrapDockerError := fun err => errorString (Error err);
     GetDockerClient := fun w => (onGetDockerClient sc, w);
     PullImage := fun _ w => (onPullImage sc, w);
     ContainerCreate := fun _ w => (onContainerCreate sc, w);
     ContainerRemove := fun _ _ w => (onContainerRemove sc, w);
     CopyToContainer := fun _ p w => (onCopyToContainer sc p, w);
     ContainerStart := fun _ w => (onContainerStart sc, w);
     ContainerAttach := fun _ _ w => (onContainerAttach sc, w);
     Copy := fun w => (onCopy sc, w);
     Close := fun w => w;
     Sleep := fun w => w;
     ContainerInspect := fun _ w => (onContainerInspect sc, w);
     CopyFromContainer := fun _ p w => (onCopyFromContainer sc p, w) |}.

(** A configuration as [runManagerAccessCommand] builds it. *)
Definition accessConfig : container.Config :=
  {| container.Image := "cortexlabs/manager:0.42.0";
     container.Entrypoint := ["/bin/bash"; "-c"];
     container.Cmd := ["/root/install.sh"];
     container.Tty := true;
     container.AttachStdout := true;
     container.AttachStderr := true;
     container.Env := ["CORTEX_CLUSTER_NAME=cortex"; "CORTEX_REGION=us-east-1"] |}.

Definition exited (code : Z) : dockertypes.ContainerState :=
  {| dockertypes.Running := false; dockertypes.ExitCode := code |}.

Definition stillRunning : dockertypes.ContainerState :=
  {| dockertypes.Running := true; dockertypes.ExitCode := 0 |}.

(** Every call succeeds, the stream carries ["hello\r\nworld\r\n"] and the
    container exits with code 0. *)
Definition helloWorld : Script :=
  {| onGetDockerClient := None;
     onPullImage := inl true;
     onContainerCreate := inl "c0ffee";
     onContainerRemove := None;
     onCopyToContainer := fun _ => None;
     onContainerStart := None;
     onContainerAttach := None;
     onCopy := ("hello" ++ strings.crlf ++ "world" ++ strings.crlf, None);
     onContainerInspect := inl (exited 0);
     onCopyFromContainer := fun _ => None |}.

Definition withInspect (sc : Script) (r : dockertypes.ContainerState + error) : Script :=
  {| onGetDockerClient := onGetDockerClient sc;
     onPullImage := onPullImage sc;
     onContainerCreate := onContainerCreate sc;
     onContainerRemove := onContainerRemove sc;
     onCopyToContainer := onCopyToContainer sc;
     onContainerStart := onContainerStart sc;
     onContainerAttach := onContainerAttach sc;
     onCopy := onCopy sc;
     onContainerInspect := r;
     onCopyFromContainer := onCopyFromContainer sc |}.

(** The copy out of [/out/broken] fails. *)
Definition withBrokenCopyOut (sc : Script) : Script :=
  {| onGetDockerClient := onGetDockerClient sc;
     onPullImage := onPullImage sc;
     onContainerCreate := onContainerCreate sc;
     onContainerRemove := onContainerRemove sc;
     onCopyToContainer := onCopyToContainer sc;
     onContainerStart := onContainerStart sc;
     onContainerAttach := onContainerAttach sc;
     onCopy := onCopy sc;
     onContainerInspect := onContainerInspect sc;
     onCopyFromContainer := fun p =>
       if String.eqb (containerPath p) "/out/broken"
       then Some (errorString "no such file")
       else None |}.

(** The copy to [/broken] fails. *)
Definition withBrokenCopyIn (sc : Script) : Script :=
  {| onGetDockerClient := onGetDockerClient sc;
     onPullImage := onPullImage sc;
     onContainerCreate := onContainerCreate sc;
     onContainerRemove := onContainerRemove sc;
     onCopyToContainer := fun p =>
       if String.eqb (toContainerPath p) "/broken"
       then Some (errorString "no space left")
       else None;
     onContainerStart := onContainerStart sc;
     onContainerAttach := onContainerAttach sc;
     onCopy := onCopy sc;
     onContainerInspect := onContainerInspect sc;
     onCopyFromContainer := onCopyFromContainer sc |}.

Definition toPath (path : string) : dockerCopyToPath :=
  {| input := {| archive.Files :=
                   [{| archive.Source := "/home/user/cluster.yaml";
                       archive.Dest := path |}] |};
     toContainerPath := path |}.

Definition fromPath (path : string) : dockerCopyFromPath :=
  {| containerPath := path; localDir := "/home/user/out" |}.
End Scripted.

(** ** Runs with the goroutine of lines 97-102

    [runManager] above describes the runs in which no signal is delivered.
    Here the goroutine that line 97 starts is part of the run.  It shares
    with the function the world, the events, the variable [caughtCtrlC] and
    the closure [removeContainer], and it takes its steps between the steps
    of the function: at each point where the function is about to take a
    step, the next entry of the schedule is the number of steps that the
    goroutine takes first.  The first step of the goroutine is the receive
    of line 98, which it takes only once a signal has been delivered: a
    schedule of zeros is a run without signal.  A call to the engine is one
    step, and the reads and writes of [caughtCtrlC] take effect in the order
    of the steps. *)

(** Where the goroutine is. *)
Inductive Watcher : Type :=
| Unstarted    (* line 97 has not been reached *)
| Receiving    (* blocked at line 98 *)
| Flagging     (* before line 99 *)
| Removing     (* before line 100 *)
| Exiting      (* before line 101 *)
| Terminated.  (* the process has exited *)

Record Proc (W : Type) : Type := {
  main : St W;
  caughtCtrlC : bool;
  watcher : Watcher;
  schedule : list nat
}.

(** A computation finishes, with a value or a panic, or the process exits
    under it. *)
Inductive outcome (A : Type) : Type :=
| Finished (r : res A)
| ProcessExited.
Arguments ProcessExited {A}.

Definition MW (W A : Type) : Type := Proc W -> outcome A * Proc W.

Section MonadW.
Context {W : Type}.

Definition retW {A : Type} (a : A) : MW W A := fun p => (Finished (Ok a), p).

Definition bindW {A B : Type} (m : MW W A) (k : A -> MW W B) : MW W B :=
  fun p =>
    match m p with
    | (Finished (Ok a), p') => k a p'
    | (Finished (Panic msg), p') => (Finished (Panic msg), p')
    | (ProcessExited, p') => (ProcessExited, p')
    end.

(** A step of the function itself. *)
Definition onMain {A : Type} (m : M W A) : MW W A :=
  fun p =>
    let (r, s) := m (main p) in
    (Finished r,
     {| main := s; caughtCtrlC := caughtCtrlC p; watcher := watcher p;
        schedule := schedule p |}).

Definition setCaughtCtrlC (v : bool) : MW W unit :=
  fun p =>
    (Finished (Ok tt),
     {| main := main p; caughtCtrlC := v; watcher := watcher p;
        schedule := schedule p |}).

Definition getCaughtCtrlC : MW W bool :=
  fun p => (Finished (Ok (caughtCtrlC p)), p).

(** [defer f()] followed by [body], as [defer] above; when the process
    exits under [body], [f] does not run. *)
Definition deferW {A : Type} (f : MW W unit) (body : MW W A) : MW W A :=
  fun p =>
    match body p with
    | (Finished r, p1) =>
        match f p1 with
        | (Finished _, p2) => (Finished r, p2)
        | (ProcessExited, p2) => (ProcessExited, p2)
        end
    | (ProcessExited, p1) => (ProcessExited, p1)
    end.
End MonadW.

Notation "x <~ m ;; k" := (bindW m (fun x => k))
  (at level 61, m at next level, right associativity).
Notation "' pat <~ m ;; k" := (bindW m (fun x => match x with pat => k end))
  (at level 61, pat pattern, m at next level, right associativity).

Section Signalled.
Import strings container dockertypes.
Context {W : Type} (d : Deps W).

Local Open Scope string_scope.

(** Modelled from the spec: [exit.Error] terminates the whole process
    (section 4.2: the watcher terminates the overall process, not just the
    run). *)
Definition exit_Error (p : Proc W) : Proc W :=
  {| main := main p; caughtCtrlC := caughtCtrlC p; watcher := Terminated;
     schedule := schedule p |}.

(** One step of the goroutine (lines 98-101): the receive, the assignment to
    [caughtCtrlC], the call of [removeContainer], the exit. *)
Definition watcherStep (ID : string) (p : Proc W) : Proc W :=
  match watcher p with
  | Unstarted => p
  | Receiving =>
      {| main := main p; caughtCtrlC := caughtCtrlC p; watcher := Flagging;
         schedule := schedule p |}
  | Flagging =>
      {| main := main p; caughtCtrlC := true; watcher := Removing;
         schedule := schedule p |}
  | Removing =>
      {| main := snd (removeContainer d ID (main p));
         caughtCtrlC := caughtCtrlC p; watcher := Exiting;
         schedule := schedule p |}
  | Exiting => exit_Error p
  | Terminated => p
  end.

Fixpoint watcherSteps (n : nat) (ID : string) (p : Proc W) : Proc W :=
  match n with
  | O => p
  | Datatypes.S n => watcherSteps n ID (watcherStep ID p)
  end.

(** The goroutine takes the steps that the schedule gives it; the function
    goes on unless the process has exited. *)
Definition yield (ID : string) : MW W unit :=
  fun p =>
    match schedule p with
    | [] => (Finished (Ok tt), p)
    | n :: rest =>
        let p' :=
          watcherSteps n ID
            {| main := main p; caughtCtrlC := caughtCtrlC p;
               watcher := watcher p; schedule := rest |} in
        match watcher p' with
        | Terminated => (ProcessExited, p')
        | _ => (Finished (Ok tt), p')
        end
    end.

(** A step of the function once the goroutine has been started. *)
Definition step {A : Type} (ID : string) (m : M W A) : MW W A :=
  _ <~ yield ID ;; onMain m.

(** Modelled from the spec: [routines.RunWithPanicHandler(f, false)] starts
    [f] as a concurrent task (section 4.1, step 5); the goroutine is then
    blocked at its receive. *)
Definition RunWithPanicHandler : MW W unit :=
  _ <~ onMain (note EvGo) ;;
  fun p =>
    (Finished (Ok tt),
     {| main := main p; caughtCtrlC := caughtCtrlC p; watcher := Receiving;
        schedule := schedule p |}).

(** The loop over [copyToPaths] (lines 104-109). *)
Fixpoint copyToLoopW (ID : string) (copyToPaths : list dockerCopyToPath)
  : MW W (option error) :=
  match copyToPaths with
  | [] => retW None
  | copyPath :: rest =>
      err <~ step ID (call (CopyToContainer d ID copyPath)
                           (EvCopyToContainer ID copyPath)) ;;
      match err with
      | Some err => retW (Some err)
      | None => copyToLoopW ID rest
      end
  end.

(** The loop over [copyFromPaths] (lines 148-153). *)
Fixpoint copyFromLoopW (ID : string) (copyFromPaths : list dockerCopyFromPath)
  : MW W (option error) :=
  match copyFromPaths with
  | [] => retW None
  | copyPath :: rest =>
      err <~ step ID (call (CopyFromContainer d ID copyPath)
                           (EvCopyFromContainer ID copyPath)) ;;
      match err with
      | Some err => retW (Some err)
      | None => copyFromLoopW ID rest
      end
  end.

(** Lines 126-160, with the read of [caughtCtrlC] at line 138. *)
Definition afterAttachW (ID : string)
    (copyFromPaths : list dockerCopyFromPath) : MW W result :=
  '(outputBuffer, err) <~ step ID (call (Copy d) EvCopy) ;;
  match notEOF err with
  | Some err => retW ("", None, Some (errors_WithStack d err))
  | None =>
  let output := ReplaceAll_crlf outputBuffer in
  _ <~ yield ID ;;
  caught <~ getCaughtCtrlC ;;
  _ <~ (if caught then step ID (emit (Sleep d) EvSleep) else retW tt) ;;
  r <~ step ID (call (ContainerInspect d ID) (EvContainerInspect ID)) ;;
  match r with
  | inr err => retW ("", None, Some (errors_WithStack d err))
  | inl State =>
  err <~ (if (ExitCode State =? 0)%Z
          then copyFromLoopW ID copyFromPaths
          else retW None) ;;
  match err with
  | Some err => retW ("", None, Some err)
  | None =>
  if Running State
  then retW (output, None, None)
  else retW (output, Some (ExitCode State), None)
  end
  end
  end.

(** Lines 92-160, with the assignment of line 95 and the goroutine of lines
    97-102. *)
Definition afterCreateW (ID : string) (copyToPaths : list dockerCopyToPath)
    (copyFromPaths : list dockerCopyFromPath) : MW W result :=
  _ <~ onMain (note EvSignalNotify) ;;
  _ <~ setCaughtCtrlC false ;;
  _ <~ RunWithPanicHandler ;;
  err <~ copyToLoopW ID copyToPaths ;;
  match err with
  | Some err => retW ("", None, Some err)
  | None =>
  err <~ step ID (call (ContainerStart d ID) (EvContainerStart ID)) ;;
  match err with
  | Some err => retW ("", None, Some (WrapDockerError d err))
  | None =>
  let options :=
    {| Stream := true; Stdin := false; Stdout := true; Stderr := true |} in
  err <~ step ID (call (ContainerAttach d ID options)
                       (EvContainerAttach ID options)) ;;
  match err with
  | Some err => retW ("", None, Some (WrapDockerError d err))
  | None =>
      deferW (step ID (emit (Close d) EvClose)) (afterAttachW ID copyFromPaths)
  end
  end
  end.

(** [runManager] (lines 55-161) with its goroutine.  Up to line 81 there is
    no goroutine; the deferred [removeContainer] is a step like the others,
    and the goroutine may still take steps between it and the return. *)
Definition runManagerW (addNewLineAfterPull : bool)
    (copyToPaths : list dockerCopyToPath)
    (copyFromPaths : list dockerCopyFromPath) : MW W result :=
  _ <~ onMain (injectVersion d) ;;
  err <~ onMain (call (GetDockerClient d) EvGetDockerClient) ;;
  match err with
  | Some err => retW ("", None, Some err)
  | None =>
  containerConfig <~ onMain getConfig ;;
  r <~ onMain (call (PullImage d (Image containerConfig))
                    (EvPullImage (Image containerConfig))) ;;
  match r with
  | inr err =>
      let err :=
        if Contains (Error err) "auth"
        then errors_Append d err (privateRepositoryHint (Image containerConfig))
        else err in
      retW ("", None, Some err)
  | inl pulledImage =>
  _ <~ onMain (if pulledImage && addNewLineAfterPull
               then note EvPrintln else ret tt) ;;
  r <~ onMain (call (ContainerCreate d containerConfig)
                    (EvContainerCreate containerConfig)) ;;
  match r with
  | inr err => retW ("", None, Some (WrapDockerError d err))
  | inl ID =>
      deferW (_ <~ step ID (removeContainer d ID) ;; yield ID)
             (afterCreateW ID copyToPaths copyFromPaths)
  end
  end
  end.

(** The state in which a caller enters [runManager], with the schedule of
    the run. *)
Definition enterW (w : W) (containerConfig : Config) (sched : list nat)
  : Proc W :=
  {| main := enter w containerConfig; caughtCtrlC := false;
     watcher := Unstarted; schedule := sched |}.

(** What the caller gets back, if the process has not exited, and the events
    of the run. *)
Definition returnedW (addNewLineAfterPull : bool)
    (copyToPaths : list dockerCopyToPath)
    (copyFromPaths : list dockerCopyFromPath) (w : W) (c : Config)
    (sched : list nat) : outcome result :=
  fst (runManagerW addNewLineAfterPull copyToPaths copyFromPaths
         (enterW w c sched)).

Definition historyW (addNewLineAfterPull : bool)
    (copyToPaths : list dockerCopyToPath)
    (copyFromPaths : list dockerCopyFromPath) (w : W) (c : Config)
    (sched : list nat) : list Event :=
  trace (main (snd (runManagerW addNewLineAfterPull copyToPaths copyFromPaths
                      (enterW w c sched)))).

(** No signal is delivered: the goroutine never takes a step. *)
Definition noSignal (sched : list nat) : Prop :=
  Forall (fun n => n = O) sched.

(** A state in which the goroutine has taken no step and will take none. *)
Definition quiet (p : Proc W) : Prop :=
  noSignal (schedule p)
  /\ (watcher p = Unstarted \/ watcher p = Receiving)
  /\ caughtCtrlC p = false.

(** In a quiet state [mw] returns [a] and leaves the function's state as it
    is. *)
Definition silent {A : Type} (mw : MW W A) (a : A) : Prop :=
  forall p, quiet p ->
    exists p', mw p = (Finished (Ok a), p') /\ main p' = main p /\ quiet p'.

(** In a quiet state [mw] does what [m] does. *)
Definition simulates {A : Type} (m : M W A) (mw : MW W A) : Prop :=
  forall p, quiet p ->
    exists p',
      mw p = (Finished (fst (m (main p))), p')
      /\ main p' = snd (m (main p))
      /\ quiet p'.
End Signalled.

Section ScriptedSignal.
Local Open Scope string_scope.

(** [ContainerStart] fails: the container is gone. *)
Definition withBrokenStart (sc : Script) : Script :=
  {| onGetDockerClient := onGetDockerClient sc;
     onPullImage := onPullImage sc;
     onContainerCreate := onContainerCreate sc;
     onContainerRemove := onContainerRemove sc;
     onCopyToContainer := onCopyToContainer sc;
     onContainerStart := Some (errorString "No such container: c0ffee");
     onContainerAttach := onContainerAttach sc;
     onCopy := onCopy sc;
     onContainerInspect := onContainerInspect sc;
     onCopyFromContainer := onCopyFromContainer sc |}.
End ScriptedSignal.

(** ** The two callers of [runManager]

    [runManagerWithClusterConfig] and [runManagerAccessCommand] (lines
    163-248) build the configuration and hand it to [runManager]. *)

Module clusterconfig.
Module Config.
(** The fields of [clusterconfig.Config] that [lib_manager.go] reads; the
    others are read by [yaml.Marshal] only. *)
Record t : Type := {
  ClusterName : string;
  Region : string;
  ImageManager : string
}.
End Config.

Module AccessConfig.
Record t : Type := {
  ClusterName : string;
  Region : string;
  ImageManager : string
}.
End AccessConfig.
End clusterconfig.

Module aws.
(** What the methods [AccessKeyID()], [SecretAccessKey()] and
    [SessionToken()] of [*aws.Client] return: pointers to strings, which may
    be nil. *)
Record Client : Type := {
  AccessKeyID : option string;
  SecretAccessKey : option string;
  SessionToken : option string
}.
End aws.

(** What the two callers use of the host besides the engine: the environment
    of the process ([os.Getenv]), [yaml.Marshal] on the cluster
    configuration, [getCachedClusterConfigPath], [files.WriteFile] and
    [filepath.Base]. *)
Record Host (W : Type) : Type := {
  Getenv : W -> string -> string;
  yaml_Marshal : clusterconfig.Config.t -> string + error;
  getCachedClusterConfigPath : string -> string -> string;
  WriteFile : string -> string -> W -> option error * W;
  filepath_Base : string -> string
}.

Section Callers.
Import strings container dockertypes.
Context {W : Type} (d : Deps W) (h : Host W).

Local Open Scope string_scope.

(** [*p] for a pointer to a string. *)
Definition deref (p : option string) : M W string :=
  match p with
  | Some v => ret v
  | None => panic "runtime error: invalid memory address or nil pointer dereference"
  end.

(** [os.Getenv(key)]. *)
Definition getenv (key : string) : M W string :=
  fun s => (Ok (Getenv h (world s) key), s).

(** A call to the host that is not a call to the engine: the world moves
    on, no event is recorded. *)
Definition hostCall {A : Type} (op : W -> A * W) : M W A :=
  fun s =>
    let (a, w) := op (world s) in
    (Ok a, {| world := w; trace := trace s; config := config s |}).

(** Lines 206-208 and 237-239: the session token, when there is one. *)
Definition appendSessionToken (awsClient : aws.Client) : M W unit :=
  match aws.SessionToken awsClient with
  | Some sessionToken =>
      c <- getConfig ;;
      setConfig (set_Env c (Env c ++ ["AWS_SESSION_TOKEN=" ++ sessionToken]))
  | None => ret tt
  end.

(** Lines 212-217 and 243-248: the results of [runManager] handed on. *)
Definition handOn (r : result) : M W result :=
  let '(output, exitCode, err) := r in
  match err with
  | Some err => ret ("", None, Some err)
  | None => ret (output, exitCode, None)
  end.

(** [runManagerWithClusterConfig] (lines 163-218).  The new object that
    [containerConfig] points to takes the place of the object in the
    state. *)
Definition runManagerWithClusterConfig (entrypoint : string)
    (clusterConfig : clusterconfig.Config.t) (awsClient : aws.Client)
    (copyToPaths : list dockerCopyToPath)
    (copyFromPaths : list dockerCopyFromPath) (extraEnvs : list string)
  : M W result :=
  match yaml_Marshal h clusterConfig with
  | inr err => ret ("", None, Some (errors_WithStack d err))
  | inl clusterConfigBytes =>
  let cachedClusterConfigPath :=
    getCachedClusterConfigPath h
      (clusterconfig.Config.ClusterName clusterConfig)
      (clusterconfig.Config.Region clusterConfig) in
  err <- hostCall (WriteFile h clusterConfigBytes cachedClusterConfigPath) ;;
  match err with
  | Some err => ret ("", None, Some err)
  | None =>
  let containerClusterConfigPath :=
    "/in/" ++ filepath_Base h cachedClusterConfigPath in
  let copyToPaths :=
    (copyToPaths ++
     [{| input := {| archive.Files :=
                       [{| archive.Source := cachedClusterConfigPath;
                           archive.Dest := containerClusterConfigPath |}] |};
         toContainerPath := "/" |}])%list in
  accessKeyID <- deref (aws.AccessKeyID awsClient) ;;
  secretAccessKey <- deref (aws.SecretAccessKey awsClient) ;;
  telemetryDisable <- getenv "CORTEX_TELEMETRY_DISABLE" ;;
  sentryDSN <- getenv "CORTEX_TELEMETRY_SENTRY_DSN" ;;
  segmentWriteKey <- getenv "CORTEX_TELEMETRY_SEGMENT_WRITE_KEY" ;;
  imageRegistry <- getenv "CORTEX_DEV_DEFAULT_IMAGE_REGISTRY" ;;
  addDashboard <- getenv "CORTEX_DEV_ADD_CONTROL_PLANE_DASHBOARD" ;;
  let envs :=
    ["AWS_ACCESS_KEY_ID=" ++ accessKeyID;
     "AWS_SECRET_ACCESS_KEY=" ++ secretAccessKey;
     "CORTEX_TELEMETRY_DISABLE=" ++ telemetryDisable;
     "CORTEX_TELEMETRY_SENTRY_DSN=" ++ sentryDSN;
     "CORTEX_TELEMETRY_SEGMENT_WRITE_KEY=" ++ segmentWriteKey;
     "CORTEX_DEV_DEFAULT_IMAGE_REGISTRY=" ++ imageRegistry;
     "CORTEX_DEV_ADD_CONTROL_PLANE_DASHBOARD=" ++ addDashboard;
     "CORTEX_CLUSTER_CONFIG_FILE=" ++ containerClusterConfigPath] in
  let envs := (envs ++ extraEnvs)%list in
  _ <- setConfig
         {| Image := clusterconfig.Config.ImageManager clusterConfig;
            Entrypoint := ["/bin/bash"; "-c"];
            Cmd := ["eval $(python /root/cluster_config_env.py "
                    ++ containerClusterConfigPath ++ ") && " ++ entrypoint];
            Tty := true;
            AttachStdout := true;
            AttachStderr := true;
            Env := envs |} ;;
  _ <- appendSessionToken awsClient ;;
  r <- runManager d false copyToPaths copyFromPaths ;;
  handOn r
  end
  end.

(** [runManagerAccessCommand] (lines 220-249). *)
Definition runManagerAccessCommand (entrypoint : string)
    (accessConfig : clusterconfig.AccessConfig.t) (awsClient : aws.Client)
    (copyToPaths : list dockerCopyToPath)
    (copyFromPaths : list dockerCopyFromPath) : M W result :=
  accessKeyID <- deref (aws.AccessKeyID awsClient) ;;
  secretAccessKey <- deref (aws.SecretAccessKey awsClient) ;;
  telemetryDisable <- getenv "CORTEX_TELEMETRY_DISABLE" ;;
  sentryDSN <- getenv "CORTEX_TELEMETRY_SENTRY_DSN" ;;
  segmentWriteKey <- getenv "CORTEX_TELEMETRY_SEGMENT_WRITE_KEY" ;;
  _ <- setConfig
         {| Image := clusterconfig.AccessConfig.ImageManager accessConfig;
            Entrypoint := ["/bin/bash"; "-c"];
            Cmd := [entrypoint];
            Tty := true;
            AttachStdout := true;
            AttachStderr := true;
            Env :=
              ["AWS_ACCESS_KEY_ID=" ++ accessKeyID;
               "AWS_SECRET_ACCESS_KEY=" ++ secretAccessKey;
               "CORTEX_CLUSTER_NAME="
               ++ clusterconfig.AccessConfig.ClusterName accessConfig;
               "CORTEX_REGION=" ++ clusterconfig.AccessConfig.Region accessConfig;
               "CORTEX_TELEMETRY_DISABLE=" ++ telemetryDisable;
               "CORTEX_TELEMETRY_SENTRY_DSN=" ++ sentryDSN;
               "CORTEX_TELEMETRY_SEGMENT_WRITE_KEY=" ++ segmentWriteKey] |} ;;
  _ <- appendSessionToken awsClient ;;
  r <- runManager d true copyToPaths copyFromPaths ;;
  handOn r.
End Callers.

(** ** A scripted host and a client, for the examples *)

Section ScriptedHost.
Local Open Scope string_scope.

Definition scriptedHost (marshal : string + error) (write : option error)
  : Host unit :=
  {| Getenv := fun _ key =>
       if String.eqb key "CORTEX_TELEMETRY_DISABLE" then "true" else "";
     yaml_Marshal := fun _ => marshal;
     getCachedClusterConfigPath := fun clusterName region =>
       "/home/user/.cortex/cluster_" ++ clusterName ++ "_" ++ region ++ ".yaml";
     WriteFile := fun _ _ w => (write, w);
     filepath_Base := fun _ => "cluster_cortex_us-east-1.yaml" |}.

Definition clusterOfExample : clusterconfig.Config.t :=
  {| clusterconfig.Config.ClusterName := "cortex";
     clusterconfig.Config.Region := "us-east-1";
     clusterconfig.Config.ImageManager := "cortexlabs/manager:0.42.0" |}.

Definition accessOfExample : clusterconfig.AccessConfig.t :=
  {| clusterconfig.AccessConfig.ClusterName := "cortex";
     clusterconfig.AccessConfig.Region := "us-east-1";
     clusterconfig.AccessConfig.ImageManager := "cortexlabs/manager:0.42.0" |}.

Definition clientOfExample : aws.Client :=
  {| aws.AccessKeyID := Some "AKIAEXAMPLE";
     aws.SecretAccessKey := Some "secret";
     aws.SessionToken := Some "token" |}.

Definition clientWithoutKey : aws.Client :=
  {| aws.AccessKeyID := None;
     aws.SecretAccessKey := Some "secret";
     aws.SessionToken := None |}.
End ScriptedHost.

(** ** EC2 tags and volumes (package [aws], the second part of
    [lib_manager.go])

    The fields of the SDK structs that the functions read.  A field that is
    a pointer is an [option]; a slice of pointers is a list of [option]s. *)

Module ec2.
Record Tag : Type := {
  Key : option string;
  Value : option string
}.

Record Volume : Type := {
  VolumeId : option string;
  Tags : list (option Tag)
}.

Record DescribeVolumesOutput : Type := {
  Volumes : list (option Volume)
}.
End ec2.

Definition nilDereference : string :=
  "runtime error: invalid memory address or nil pointer dereference".

(** [hasEC2Tag] (lines 848-860).  [resourceTag.Key] is read only when
    [queryTag.Key] is not nil, and reading it through a nil [resourceTag]
    panics. *)
Fixpoint hasEC2Tag (queryTag : ec2.Tag) (allResourceTags : list (option ec2.Tag))
  : res bool :=
  match allResourceTags with
  | [] => Ok false
  | resourceTag :: rest =>
      match ec2.Key queryTag with
      | None => hasEC2Tag queryTag rest
      | Some queryKey =>
          match resourceTag with
          | None => Panic nilDereference
          | Some resourceTag =>
              match ec2.Key resourceTag with
              | None => hasEC2Tag queryTag rest
              | Some resourceKey =>
                  if String.eqb queryKey resourceKey
                  then
                    match ec2.Value queryTag with
                    | None => Ok true
                    | Some queryValue =>
                        match ec2.Value resourceTag with
                        | None => hasEC2Tag queryTag rest
                        | Some resourceValue =>
                            if String.eqb queryValue resourceValue
                            then Ok true
                            else hasEC2Tag queryTag rest
                        end
                    end
                  else hasEC2Tag queryTag rest
              end
          end
      end
  end.

(** [hasAllEC2Tags] (lines 838-845). *)
Fixpoint hasAllEC2Tags (queryTags : list ec2.Tag)
    (allResourceTags : list (option ec2.Tag)) : res bool :=
  match queryTags with
  | [] => Ok true
  | queryTag :: rest =>
      match hasEC2Tag queryTag allResourceTags with
      | Ok true => hasAllEC2Tags rest allResourceTags
      | Ok false => Ok false
      | Panic msg => Panic msg
      end
  end.

(** The loop over [output.Volumes] in the function given to
    [DescribeVolumesPages] (lines 808-815); [volumes] is the variable of
    [ListVolumes] that the function appends to. *)
Fixpoint appendTagged (tags : list ec2.Tag) (volumes : list ec2.Volume)
    (page : list (option ec2.Volume)) : res (list ec2.Volume) :=
  match page with
  | [] => Ok volumes
  | None :: rest => appendTagged tags volumes rest
  | Some volume :: rest =>
      match hasAllEC2Tags tags (ec2.Tags volume) with
      | Ok true => appendTagged tags (volumes ++ [volume]) rest
      | Ok false => appendTagged tags volumes rest
      | Panic msg => Panic msg
      end
  end.

(** [DescribeVolumesPages] gives its function the pages one after the
    other, until the function returns false or the pages are exhausted; the
    function of [ListVolumes] returns false on a nil page (lines 805-807)
    and true otherwise. *)
Fixpoint eachVolumesPage (tags : list ec2.Tag) (volumes : list ec2.Volume)
    (pages : list (option ec2.DescribeVolumesOutput)) : res (list ec2.Volume) :=
  match pages with
  | [] => Ok volumes
  | None :: _ => Ok volumes
  | Some output :: rest =>
      match appendTagged tags volumes (ec2.Volumes output) with
      | Ok volumes => eachVolumesPage tags volumes rest
      | Panic msg => Panic msg
      end
  end.

(** [ListVolumes] (lines 802-825), given the pages that the engine delivers
    to [DescribeVolumesPages] and the error that it returns in the end;
    [WithStack] is [errors.WithStack]. *)
Definition ListVolumes (WithStack : error -> error) (tags : list ec2.Tag)
    (pages : list (option ec2.DescribeVolumesOutput)) (err : option error)
  : res (list ec2.Volume + error) :=
  match eachVolumesPage tags [] pages with
  | Panic msg => Panic msg
  | Ok volumes =>
      match err with
      | Some err => Ok (inr (WithStack err))
      | None => Ok (inl volumes)
      end
  end.

(** Whether [resourceTag] answers [queryTag], as the condition of lines
    850-856 decides for two tags that are there. *)
Definition tagMatches (queryTag resourceTag : ec2.Tag) : Prop :=
  exists key,
    ec2.Key queryTag = Some key /\ ec2.Key resourceTag = Some key
    /\ (ec2.Value queryTag = None
        \/ exists value,
             ec2.Value queryTag = Some value
             /\ ec2.Value resourceTag = Some value).

(** The volume behind a pointer of a page, if it is there and carries the
    query tags. *)
Definition taggedVolume (tags : list ec2.Tag) (volume : option ec2.Volume)
  : list ec2.Volume :=
  match volume with
  | Some volume =>
      match hasAllEC2Tags tags (ec2.Tags volume) with
      | Ok true => [volume]
      | _ => []
      end
  | None => []
  end.

(** ** Instance types (package [aws], lines 269-489 of [lib_manager.go])

    The functions of the Go library that [ParseInstanceType] calls, each for
    the arguments it is called with. *)

(** A byte of [[0-9]]. *)
Definition isDigit (c : ascii) : bool :=
  (48 <=? nat_of_ascii c)%nat && (nat_of_ascii c <=? 57)%nat.

(** Whether some byte of [s] satisfies [P]. *)
Fixpoint anyByte (P : ascii -> bool) (s : string) : bool :=
  match s with
  | EmptyString => false
  | String c t => P c || anyByte P t
  end.

(** Every byte of [s] is a digit. *)
Definition allDigits (s : string) : bool :=
  negb (anyByte (fun c => negb (isDigit c)) s).

(** A byte that is the dot. *)
Definition isDot (c : ascii) : bool := Ascii.eqb c ".".

Definition startsWithDigit (s : string) : bool :=
  match s with
  | String c _ => isDigit c
  | EmptyString => false
  end.

(** Whether the last byte of [s] is a digit. *)
Fixpoint endsWithDigit (s : string) : bool :=
  match s with
  | EmptyString => false
  | String c EmptyString => isDigit c
  | String _ t => endsWithDigit t
  end.

(** [strings.Split(s, sep)] for a separator of one byte. *)
Fixpoint Split_byte (sep : ascii) (s : string) : list string :=
  match s with
  | EmptyString => [EmptyString]
  | String c t =>
      if Ascii.eqb c sep
      then EmptyString :: Split_byte sep t
      else match Split_byte sep t with
           | piece :: pieces => String c piece :: pieces
           | [] => [String c EmptyString]
           end
  end.

(** [_digitsRegex.FindAllString(s, -1)]: the maximal runs of digits of [s],
    from left to right. *)
Fixpoint FindAllDigits (s : string) : list string :=
  match s with
  | EmptyString => []
  | String c t =>
      if isDigit c
      then if startsWithDigit t
           then match FindAllDigits t with
                | run :: runs => String c run :: runs
                | [] => [String c EmptyString]
                end
           else String c EmptyString :: FindAllDigits t
      else FindAllDigits t
  end.

(** [_digitsRegex.Split(s, -1)]: the pieces of [s] between the runs of
    digits, an empty piece before a run that starts [s] and after a run that
    ends it. *)
Fixpoint SplitDigits (s : string) : list string :=
  match s with
  | EmptyString => [EmptyString]
  | String c t =>
      if isDigit c
      then if startsWithDigit t
           then SplitDigits t
           else EmptyString :: SplitDigits t
      else match SplitDigits t with
           | piece :: pieces => String c piece :: pieces
           | [] => [String c EmptyString]
           end
  end.

(** [strings.LastIndex(s, substr)]; [None] is [-1]. *)
Fixpoint LastIndex (s substr : string) : option nat :=
  match s with
  | EmptyString => if strings.HasPrefix s substr then Some 0 else None
  | String _ t =>
      match LastIndex t substr with
      | Some i => Some (S i)
      | None => if strings.HasPrefix s substr then Some 0 else None
      end
  end.

(** [xs[len(xs)-1]]: [None] when the index is out of range. *)
Definition lastOf {A : Type} (xs : list A) : option A :=
  match rev xs with
  | x :: _ => Some x
  | [] => None
  end.

Definition isASCII (s : string) : bool :=
  negb (anyByte (fun c => (128 <=? nat_of_ascii c)%nat) s).

(** [strset.Set]: a set of strings, as the list of its elements. *)
Definition Has (set : list string) (x : string) : bool :=
  existsb (String.eqb x) set.

(** What these functions take from other packages: the
    set [AllInstanceTypes], [s.ParseInt], its two error constructors, and
    [strings.Split(s, "")] on a string that is not ASCII, where it cuts
    [s] into UTF-8 sequences. *)
Record InstanceDeps : Type := {
  AllInstanceTypes : list string;
  ParseInt : string -> option Z;
  ErrorInvalidInstanceType : string -> error;
  ErrorUnexpected : string -> error;
  explodeUTF8 : string -> list string
}.

Record ParsedInstanceType : Type := {
  Family : string;
  Generation : Z;
  Capabilities : list string;
  Size : string
}.

Section InstanceTypes.
Context (a : InstanceDeps).

Local Open Scope string_scope.

(** [strings.Split(s, "")]: on an ASCII string, its bytes one by one. *)
Definition Split_empty (s : string) : list string :=
  if isASCII s
  then map (fun c => String c EmptyString) (list_ascii_of_string s)
  else explodeUTF8 a s.

Definition _gpuInstanceFamilies : list string := ["g"; "p"].

Definition IsValidInstanceType (instanceType : string) : bool :=
  Has (AllInstanceTypes a) instanceType.

Definition CheckValidInstanceType (instanceType : string) : option error :=
  if negb (IsValidInstanceType instanceType)
  then Some (ErrorInvalidInstanceType a instanceType)
  else None.

Definition indexOutOfRange : string :=
  "runtime error: index out of range [-1]".

(** [ParseInstanceType] (lines 315-355); a Go result [(parsed, err)] is a
    sum. *)
Definition ParseInstanceType (instanceType : string)
  : res (ParsedInstanceType + error) :=
  match CheckValidInstanceType instanceType with
  | Some err => Ok (inr err)
  | None =>
  match Split_byte "." instanceType with
  | [prefix; size] =>
      let digitSets := FindAllDigits prefix in
      match digitSets with
      | [] =>
          Ok (inr (ErrorUnexpected a
                     ("unexpected invalid instance type: " ++ instanceType)))
      | _ =>
      let prefixParts := SplitDigits prefix in
      match lastOf prefixParts with
      | None => Panic indexOutOfRange
      | Some capabilitiesStr =>
      let capabilities := Split_empty capabilitiesStr in
      match lastOf digitSets with
      | None => Panic indexOutOfRange
      | Some generationStr =>
      match ParseInt a generationStr with
      | None =>
          Ok (inr (ErrorUnexpected a
                     ("unexpected invalid instance type: " ++ instanceType)))
      | Some generation =>
      match LastIndex prefix generationStr with
      | None =>
          Ok (inr (ErrorUnexpected a
                     ("unexpected invalid instance type: " ++ instanceType)))
      | Some generationIndex =>
          Ok (inl {| Family := substring 0 generationIndex prefix;
                     Generation := generation;
                     Capabilities := capabilities;
                     Size := size |})
      end
      end
      end
      end
      end
  | _ =>
      Ok (inr (ErrorUnexpected a
                 ("unexpected invalid instance type: " ++ instanceType)))
  end
  end.

(** The functions of lines 357-489.  A Go result [(answer, err)] is a sum:
    the answer is read only when [err] is nil. *)
Definition IsARMInstance (instanceType : string) : res (bool + error) :=
  match ParseInstanceType instanceType with
  | Panic msg => Panic msg
  | Ok (inr err) => Ok (inr err)
  | Ok (inl parsedType) =>
      if String.eqb (Family parsedType) "a"
      then Ok (inl true)
      else if Has (Capabilities parsedType) "g"
           then Ok (inl true)
           else Ok (inl false)
  end.

Definition IsAMDGPUInstance (instanceType : string) : res (bool + error) :=
  match ParseInstanceType instanceType with
  | Panic msg => Panic msg
  | Ok (inr err) => Ok (inr err)
  | Ok (inl parsedType) =>
      if negb (Has _gpuInstanceFamilies (Family parsedType))
      then Ok (inl false)
      else if Has (Capabilities parsedType) "a"
           then Ok (inl true)
           else Ok (inl false)
  end.

Definition IsNvidiaGPUInstance (instanceType : string) : res (bool + error) :=
  match ParseInstanceType instanceType with
  | Panic msg => Panic msg
  | Ok (inr err) => Ok (inr err)
  | Ok (inl parsedType) =>
      if negb (Has _gpuInstanceFamilies (Family parsedType))
      then Ok (inl false)
      else if negb (Has (Capabilities parsedType) "a")
           then Ok (inl true)
           else Ok (inl false)
  end.

Definition IsGPUInstance (instanceType : string) : res (bool + error) :=
  match IsAMDGPUInstance instanceType with
  | Panic msg => Panic msg
  | Ok (inr err) => Ok (inr err)
  | Ok (inl isAMDGPU) =>
      match IsNvidiaGPUInstance instanceType with
      | Panic msg => Panic msg
      | Ok (inr err) => Ok (inr err)
      | Ok (inl isNvidiaGPU) => Ok (inl (isAMDGPU || isNvidiaGPU))
      end
  end.

Definition IsInferentiaInstance (instanceType : string) : res (bool + error) :=
  match ParseInstanceType instanceType with
  | Panic msg => Panic msg
  | Ok (inr err) => Ok (inr err)
  | Ok (inl parsedType) =>
      Ok (inl (String.eqb (Family parsedType) "inf"))
  end.

Definition IsTrainiumInstance (instanceType : string) : res (bool + error) :=
  match ParseInstanceType instanceType with
  | Panic msg => Panic msg
  | Ok (inr err) => Ok (inr err)
  | Ok (inl parsedType) =>
      Ok (inl (String.eqb (Family parsedType) "trn"))
  end.

Definition IsMacInstance (instanceType : string) : res (bool + error) :=
  match ParseInstanceType instanceType with
  | Panic msg => Panic msg
  | Ok (inr err) => Ok (inr err)
  | Ok (inl parsedType) =>
      if String.eqb (Family parsedType) "mac"
      then Ok (inl true)
      else Ok (inl false)
  end.

Definition IsFPGAInstance (instanceType : string) : res (bool + error) :=
  match ParseInstanceType instanceType with
  | Panic msg => Panic msg
  | Ok (inr err) => Ok (inr err)
  | Ok (inl parsedType) =>
      if String.eqb (Family parsedType) "f"
      then Ok (inl true)
      else Ok (inl false)
  end.

Definition IsAlevoInstance (instanceType : string) : res (bool + error) :=
  match ParseInstanceType instanceType with
  | Panic msg => Panic msg
  | Ok (inr err) => Ok (inr err)
  | Ok (inl parsedType) =>
      if String.eqb (Family parsedType) "vt"
      then Ok (inl true)
      else Ok (inl false)
  end.

Definition IsGaudiInstance (instanceType : string) : res (bool + error) :=
  match ParseInstanceType instanceType with
  | Panic msg => Panic msg
  | Ok (inr err) => Ok (inr err)
  | Ok (inl parsedType) =>
      if String.eqb (Family parsedType) "dl"
      then Ok (inl true)
      else Ok (inl false)
  end.
End InstanceTypes.

(** The instance types of the examples. *)
Definition instancesOfExample : InstanceDeps :=
  {| AllInstanceTypes :=
       ["p4d.24xlarge"; "g4ad.xlarge"; "inf1.xlarge"; "u-6tb1.metal";
        "m6g.large"; "mac1.metal"; "nodigits.large"; "a.b.c"]%string;
     ParseInt := fun s =>
       if String.eqb s "4" then Some 4%Z
       else if String.eqb s "1" then Some 1%Z
       else if String.eqb s "6" then Some 6%Z
       else None;
     ErrorInvalidInstanceType := fun s => errorString ("invalid instance type: " ++ s);
     ErrorUnexpected := errorString;
     explodeUTF8 := fun _ => [] |}.

(** ** The tables of batch and task APIs ([lib_batch_apis.go],
    [lib_task_apis.go])

    The fields that [batchAPIsTable] and [taskAPIsTable] read.  A
    [time.Time] is an instant, counted in nanoseconds from the zero
    [time.Time{}]. *)

Module status.
Record JobStatus : Type := {
  ID : string;
  StartTime : Z;
  Status : nat
}.
End status.

Module spec.
Record Metadata : Type := {
  Name : string;
  LastUpdated : Z
}.
End spec.

Module schema.
Record APIResponse : Type := {
  Metadata : option spec.Metadata;
  BatchJobStatuses : list status.JobStatus;
  TaskJobStatuses : list status.JobStatus
}.
End schema.

Module table.
(** A cell of a row, of type [interface{}] in Go: a string or an int. *)
Inductive Cell : Type :=
| CellString (s : string)
| CellInt (n : Z).

Record Header : Type := { Title : string }.

Record Table : Type := {
  Headers : list Header;
  Rows : list (list Cell)
}.
End table.

(** [t.After(u)], [time.Time{}] and [time.Unix(sec, 0)]. *)
Definition After (t u : Z) : bool := (u <? t)%Z.
Definition zeroTime : Z := 0%Z.
Definition Unix (sec : Z) : Z := ((sec + 62135596800) * 1000000000)%Z.

(** What the two functions take from elsewhere: [libtime.SinceStr], which
    reads the clock, [JobCode.IsInProgress], and the two titles that are
    declared in another file of the package. *)
Record TableDeps (W : Type) : Type := {
  SinceStr : Z -> W -> string * W;
  IsInProgress : nat -> bool;
  _titleEnvironment : string;
  _titleLastUpdated : string
}.

Section Tables.
Import table.
Context {W : Type} (t : TableDeps W).

Local Open Scope string_scope.

Definition _titleBatchAPI : string := "batch api".
Definition _titleJobCount : string := "running jobs".
Definition _titleLatestJobID : string := "latest job id".
Definition _titleTaskAPI : string := "task api".
Definition _titleTaskJobCount : string := "running jobs".
Definition _titleLatestTaskJobID : string := "latest job id".

(** The loop over the job statuses of one API (lines 56-65 of
    [lib_batch_apis.go], lines 54-63 of [lib_task_apis.go]), with the three
    variables that it updates. *)
Fixpoint jobsLoop (jobs : list status.JobStatus) (latestStartTime : Z)
    (latestJobID : string) (runningJobs : Z) : M W (Z * string * Z) :=
  match jobs with
  | [] => ret (latestStartTime, latestJobID, runningJobs)
  | job :: rest =>
      '(latestStartTime, latestJobID) <-
        (if After (status.StartTime job) latestStartTime
         then
           since <- hostCall (SinceStr t (status.StartTime job)) ;;
           ret (status.StartTime job,
                status.ID job ++ " (submitted " ++ since ++ " ago)")
         else ret (latestStartTime, latestJobID)) ;;
      let runningJobs :=
        if IsInProgress t (status.Status job)
        then (runningJobs + 1)%Z
        else runningJobs in
      jobsLoop rest latestStartTime latestJobID runningJobs
  end.

(** The panic of [envNames[i]] when [i] is out of range. *)
Definition indexPanic (i n : nat) : string :=
  "runtime error: index out of range ["
  ++ NilEmpty.string_of_uint (Nat.to_uint i) ++ "] with length "
  ++ NilEmpty.string_of_uint (Nat.to_uint n).

(** The loop over the APIs (lines 46-74 of [lib_batch_apis.go]); [i] is
    the index of the first of [batchAPIs] in the slice given to the
    function. *)
Fixpoint batchRows (i : nat) (batchAPIs : list schema.APIResponse)
    (envNames : list string) (rows : list (list Cell))
  : M W (list (list Cell)) :=
  match batchAPIs with
  | [] => ret rows
  | batchAPI :: rest =>
      match schema.Metadata batchAPI with
      | None => batchRows (S i) rest envNames rows
      | Some metadata =>
          let lastAPIUpdated := Unix (spec.LastUpdated metadata) in
          '(_, latestJobID, runningJobs) <-
            jobsLoop (schema.BatchJobStatuses batchAPI) zeroTime "-" 0%Z ;;
          match nth_error envNames i with
          | None => panic (indexPanic i (length envNames))
          | Some envName =>
              since <- hostCall (SinceStr t lastAPIUpdated) ;;
              batchRows (S i) rest envNames
                (rows ++ [[CellString envName;
                           CellString (spec.Name metadata);
                           CellInt runningJobs;
                           CellString latestJobID;
                           CellString since]])
          end
      end
  end.

(** [batchAPIsTable] (lines 43-85 of [lib_batch_apis.go]). *)
Definition batchAPIsTable (batchAPIs : list schema.APIResponse)
    (envNames : list string) : M W Table :=
  rows <- batchRows 0 batchAPIs envNames [] ;;
  ret {| Headers := [{| Title := _titleEnvironment t |};
                     {| Title := _titleBatchAPI |};
                     {| Title := _titleJobCount |};
                     {| Title := _titleLatestJobID |};
                     {| Title := _titleLastUpdated t |}];
         Rows := rows |}.

(** The loop over the APIs (lines 44-72 of [lib_task_apis.go]). *)
Fixpoint taskRows (i : nat) (taskAPIs : list schema.APIResponse)
    (envNames : list string) (rows : list (list Cell))
  : M W (list (list Cell)) :=
  match taskAPIs with
  | [] => ret rows
  | taskAPI :: rest =>
      match schema.Metadata taskAPI with
      | None => taskRows (S i) rest envNames rows
      | Some metadata =>
          let lastAPIUpdated := Unix (spec.LastUpdated metadata) in
          '(_, latestJobID, runningJobs) <-
            jobsLoop (schema.TaskJobStatuses taskAPI) zeroTime "-" 0%Z ;;
          match nth_error envNames i with
          | None => panic (indexPanic i (length envNames))
          | Some envName =>
              since <- hostCall (SinceStr t lastAPIUpdated) ;;
              taskRows (S i) rest envNames
                (rows ++ [[CellString envName;
                           CellString (spec.Name metadata);
                           CellInt runningJobs;
                           CellString latestJobID;
                           CellString since]])
          end
      end
  end.

(** [taskAPIsTable] (lines 41-83 of [lib_task_apis.go]). *)
Definition taskAPIsTable (taskAPIs : list schema.APIResponse)
    (envNames : list string) : M W Table :=
  rows <- taskRows 0 taskAPIs envNames [] ;;
  ret {| Headers := [{| Title := _titleEnvironment t |};
                     {| Title := _titleTaskAPI |};
                     {| Title := _titleTaskJobCount |};
                     {| Title := _titleLatestTaskJobID |};
                     {| Title := _titleLastUpdated t |}];
         Rows := rows |}.

(** The first two cells of the row of an API: the name of its environment
    and its own name; no row for an API without metadata. *)
Definition namesOfRow (entry : schema.APIResponse * string) : list (list Cell) :=
  match schema.Metadata (fst entry) with
  | Some metadata => [[CellString (snd entry); CellString (spec.Name metadata)]]
  | None => []
  end.
End Tables.

(** A clock for the examples: it answers with the number of the call. *)
Definition tablesOfExample : TableDeps nat :=
  {| SinceStr := fun _ n =>
       (NilEmpty.string_of_uint (Nat.to_uint n) ++ "s", S n)%string;
     IsInProgress := fun code => Nat.eqb code 1;
     _titleEnvironment := "env";
     _titleLastUpdated := "last update" |}.

(** A task API as the batch API with the same jobs. *)
Definition asBatchAPI (taskAPI : schema.APIResponse) : schema.APIResponse :=
  {| schema.Metadata := schema.Metadata taskAPI;
     schema.BatchJobStatuses := schema.TaskJobStatuses taskAPI;
     schema.TaskJobStatuses := schema.TaskJobStatuses taskAPI |}.

(** The state in which a caller enters a function that makes no call to the
    engine. *)
Definition atWorld {W : Type} (w : W) : St W :=
  {| world := w; trace := [];
     config := {| container.Image := EmptyString; container.Entrypoint := [];
                  container.Cmd := []; container.Tty := false;
                  container.AttachStdout := false;
                  container.AttachStderr := false; container.Env := [] |} |}.

(** The jobs and the APIs of the examples. *)
Definition jobsOfExample : list status.JobStatus :=
  [{| status.ID := "a"%string; status.StartTime := 5; status.Status := 1 |};
   {| status.ID := "b"%string; status.StartTime := 9; status.Status := 0 |};
   {| status.ID := "c"%string; status.StartTime := 9; status.Status := 1 |}].

Definition apisOfExample : list schema.APIResponse :=
  [{| schema.Metadata := None;
      schema.BatchJobStatuses := [];
      schema.TaskJobStatuses := [] |};
   {| schema.Metadata :=
        Some {| spec.Name := "api1"%string; spec.LastUpdated := 3 |};
      schema.BatchJobStatuses := jobsOfExample;
      schema.TaskJobStatuses := jobsOfExample |}].

(** Lists of events, reassociated to the right. *)
Ltac flatten := repeat (progress cbn [app] || rewrite <- app_assoc).

(** * Properties

    ** Newline normalisation *)

Section ReplaceAllFacts.
Import strings.

Lemma CR_neq_LF : Ascii.eqb CR LF = false.
Proof. reflexivity. Qed.

Lemma LF_neq_CR : Ascii.eqb LF CR = false.
Proof. reflexivity. Qed.

(** Unfolding equations of the replacement. *)
Lemma ReplaceAll_crlf_pair (t : string) :
  ReplaceAll_crlf (String CR (String LF t)) = String LF (ReplaceAll_crlf t).
Proof. reflexivity. Qed.

Lemma ReplaceAll_crlf_other (c d : ascii) (t : string) :
  Ascii.eqb c CR && Ascii.eqb d LF = false ->
  ReplaceAll_crlf (String c (String d t)) = String c (ReplaceAll_crlf (String d t)).
Proof. intros H. cbn [ReplaceAll_crlf]. rewrite H. reflexivity. Qed.

(** Induction two characters at a time, as the replacement consumes them. *)
Lemma string_pair_ind (P : string -> Prop) :
  P EmptyString ->
  (forall c, P (String c EmptyString)) ->
  (forall c d t, P t -> P (String d t) -> P (String c (String d t))) ->
  forall s, P s.
Proof.
  intros H0 H1 H2 s.
  assert (both : P s /\ forall c, P (String c s)).
  { induction s as [|d t [IHt IHdt]].
    - split; [exact H0 | exact H1].
    - split; [apply IHdt | intros c; apply H2; [exact IHt | apply IHdt]]. }
  exact (proj1 both).
Qed.

Lemma HasPrefix_crlf (c : ascii) (t : string) :
  HasPrefix (String c t) crlf = Ascii.eqb c CR && startsLF t.
Proof.
  cbn [HasPrefix crlf]. rewrite (Ascii.eqb_sym CR c).
  destruct t as [|d t]; cbn [HasPrefix startsLF].
  - reflexivity.
  - rewrite (Ascii.eqb_sym LF d), andb_true_r. reflexivity.
Qed.

Lemma HasPrefix_crcrlf (c : ascii) (t : string) :
  HasPrefix (String c t) crcrlf = Ascii.eqb c CR && HasPrefix t crlf.
Proof.
  unfold crcrlf. cbn [HasPrefix]. rewrite (Ascii.eqb_sym CR c).
  destruct t; reflexivity.
Qed.

Lemma startsLF_ReplaceAll (d : ascii) (t : string) :
  startsLF (ReplaceAll_crlf (String d t))
  = Ascii.eqb d LF || (Ascii.eqb d CR && startsLF t).
Proof.
  destruct t as [|e t].
  - cbn. rewrite andb_false_r, orb_false_r. reflexivity.
  - cbn [ReplaceAll_crlf startsLF].
    destruct (Ascii.eqb d CR) eqn:Hd; destruct (Ascii.eqb e LF) eqn:He;
      cbn [andb orb startsLF].
    + apply Ascii.eqb_eq in Hd. subst d. rewrite CR_neq_LF. reflexivity.
    + rewrite orb_false_r. reflexivity.
    + rewrite orb_false_r. reflexivity.
    + rewrite orb_false_r. reflexivity.
Qed.

(** The result contains ["\r\n"] exactly when the input contains
    ["\r\r\n"]: a carriage return survives only if no line feed follows it,
    and a line feed then follows it in the result only if it comes from a
    replaced pair. *)
Lemma Contains_crlf_ReplaceAll (s : string) :
  Contains (ReplaceAll_crlf s) crlf = Contains s crcrlf.
Proof.
  induction s as [|c|c d t IHt IHdt] using string_pair_ind.
  - reflexivity.
  - cbn. rewrite !andb_false_r. reflexivity.
  - destruct (Ascii.eqb c CR && Ascii.eqb d LF) eqn:E.
    + apply andb_true_iff in E. destruct E as [Hc Hd].
      apply Ascii.eqb_eq in Hc, Hd. subst c d.
      rewrite ReplaceAll_crlf_pair.
      cbn [Contains]. rewrite IHt.
      rewrite HasPrefix_crlf, !HasPrefix_crcrlf, HasPrefix_crlf.
      rewrite LF_neq_CR. cbn. reflexivity.
    + rewrite (ReplaceAll_crlf_other _ _ _ E).
      change (Contains (String c (ReplaceAll_crlf (String d t))) crlf)
        with (HasPrefix (String c (ReplaceAll_crlf (String d t))) crlf
              || Contains (ReplaceAll_crlf (String d t)) crlf).
      change (Contains (String c (String d t)) crcrlf)
        with (HasPrefix (String c (String d t)) crcrlf
              || Contains (String d t) crcrlf).
      rewrite IHdt. f_equal.
      rewrite HasPrefix_crlf, HasPrefix_crcrlf, HasPrefix_crlf.
      rewrite startsLF_ReplaceAll.
      destruct (Ascii.eqb c CR); [|reflexivity].
      cbn [andb] in E |- *. rewrite E. reflexivity.
Qed.

(** The replacement leaves a string unchanged exactly when the string
    contains no ["\r\n"]. *)
Lemma ReplaceAll_crlf_fixpoint (s : string) :
  ReplaceAll_crlf s = s <-> Contains s crlf = false.
Proof.
  induction s as [|c|c d t IHt IHdt] using string_pair_ind.
  - split; reflexivity.
  - split; intros _; [|reflexivity].
    cbn. rewrite !andb_false_r. reflexivity.
  - change (Contains (String c (String d t)) crlf)
      with (HasPrefix (String c (String d t)) crlf || Contains (String d t) crlf).
    rewrite HasPrefix_crlf. cbn [startsLF].
    destruct (Ascii.eqb c CR && Ascii.eqb d LF) eqn:E.
    + split; [|discriminate].
      apply andb_true_iff in E. destruct E as [Hc Hd].
      apply Ascii.eqb_eq in Hc, Hd. subst c d.
      rewrite ReplaceAll_crlf_pair. intros H. injection H as H _.
      discriminate H.
    + rewrite (ReplaceAll_crlf_other _ _ _ E). cbn [orb].
      rewrite <- IHdt. split.
      * intros H. injection H as H. exact H.
      * intros H. rewrite H. reflexivity.
Qed.

End ReplaceAllFacts.

(** ** Every run follows one of the exit paths *)

Section RunsArePaths.
Import strings container dockertypes.
Context {W : Type} (d : Deps W).

Local Open Scope string_scope.

Lemma advance_advance (s : St W) (w w' : W) (evs evs' : list Event) :
  advance (advance s w evs) w' evs' = advance s w' (evs ++ evs').
Proof. unfold advance. cbn. rewrite app_assoc. reflexivity. Qed.

Lemma call_advance {A : Type} (op : W -> A * W) (ev : A -> Event) (s : St W) :
  call op ev s = (Ok (fst (op (world s))), advance s (snd (op (world s))) [ev (fst (op (world s)))]).
Proof. unfold call, advance. destruct (op (world s)). reflexivity. Qed.

Lemma copyToLoop_run (ID : string) (copyToPaths : list dockerCopyToPath) :
  forall s : St W, exists r evs w,
    copyToLoop d ID copyToPaths s = (Ok r, advance s w evs)
    /\ CopyToRun ID copyToPaths evs r.
Proof.
  induction copyToPaths as [|p ps IH]; intros s.
  - exists None, [], (world s). split; [|constructor].
    unfold advance. rewrite app_nil_r. destruct s; reflexivity.
  - cbn [copyToLoop]. unfold bind. rewrite call_advance.
    destruct (CopyToContainer d ID p (world s)) as [[err|] w1]; cbn [fst snd].
    + exists (Some err), [EvCopyToContainer ID p (Some err)], w1.
      split; [reflexivity | constructor].
    + destruct (IH (advance s w1 [EvCopyToContainer ID p None]))
        as (r & evs & w & E & R).
      exists r, (EvCopyToContainer ID p None :: evs), w.
      rewrite E, advance_advance. split; [reflexivity | constructor; exact R].
Qed.

Lemma copyFromLoop_run (ID : string) (copyFromPaths : list dockerCopyFromPath) :
  forall s : St W, exists r evs w,
    copyFromLoop d ID copyFromPaths s = (Ok r, advance s w evs)
    /\ CopyFromRun ID copyFromPaths evs r.
Proof.
  induction copyFromPaths as [|p ps IH]; intros s.
  - exists None, [], (world s). split; [|constructor].
    unfold advance. rewrite app_nil_r. destruct s; reflexivity.
  - cbn [copyFromLoop]. unfold bind. rewrite call_advance.
    destruct (CopyFromContainer d ID p (world s)) as [[err|] w1]; cbn [fst snd].
    + exists (Some err), [EvCopyFromContainer ID p (Some err)], w1.
      split; [reflexivity | constructor].
    + destruct (IH (advance s w1 [EvCopyFromContainer ID p None]))
        as (r & evs & w & E & R).
      exists r, (EvCopyFromContainer ID p None :: evs), w.
      rewrite E, advance_advance. split; [reflexivity | constructor; exact R].
Qed.

Lemma afterAttach_run (ID : string) (copyFromPaths : list dockerCopyFromPath)
    (s : St W) :
  exists r evs w,
    afterAttach d ID false copyFromPaths s = (Ok r, advance s w evs)
    /\ Collected d ID copyFromPaths evs r.
Proof.
  unfold afterAttach, bind. rewrite call_advance.
  destruct (Copy d (world s)) as [[buf eof] w1]; cbn [fst snd].
  destruct (notEOF eof) as [err|] eqn:Heof.
  - exists ("", None, Some (errors_WithStack d err)), [EvCopy (buf, eof)], w1.
    split; [reflexivity|].
    destruct eof as [e|]; [|discriminate]. cbn in Heof.
    destruct (is_EOF e) eqn:He; [discriminate|].
    injection Heof as <-. constructor. exact He.
  - cbn [ret]. rewrite call_advance, advance_advance. cbn [advance world fst snd].
    destruct (ContainerInspect d ID w1) as [[State|err] w2]; cbn [fst snd].
    + destruct (ExitCode State =? 0)%Z eqn:Hcode.
      * apply Z.eqb_eq in Hcode.
        destruct (copyFromLoop_run ID copyFromPaths
                    (advance s w2 ([EvCopy (buf, eof)] ++ [EvContainerInspect ID (inl State)])%list))
          as (r & evs & w & E & R).
        rewrite E, advance_advance.
        destruct r as [err|].
        -- eexists _, _, w. split; [reflexivity|].
           apply copy_out_failure; assumption.
        -- exists (finalResult buf State),
             ([EvCopy (buf, eof); EvContainerInspect ID (inl State)] ++ evs)%list, w.
           split; [unfold finalResult; destruct (Running State); reflexivity|].
           apply copy_out_done; assumption.
      * apply Z.eqb_neq in Hcode. cbn [ret].
        exists (finalResult buf State), [EvCopy (buf, eof); EvContainerInspect ID (inl State)], w2.
        split; [unfold finalResult; destruct (Running State); reflexivity|].
        apply copy_out_skipped; assumption.
    + eexists _, _, w2. split; [reflexivity|].
      apply inspect_failure. exact Heof.
Qed.

Lemma defer_run {A : Type} (f : M W unit) (body : M W A) (s s1 s2 : St W)
    (r : res A) (u : res unit) :
  body s = (r, s1) -> f s1 = (u, s2) -> defer f body s = (r, s2).
Proof. intros Hb Hf. unfold defer. rewrite Hb, Hf. reflexivity. Qed.

Lemma note_advance (ev : Event) (s : St W) :
  note ev s = (Ok tt, advance s (world s) [ev]).
Proof. reflexivity. Qed.

Lemma afterCreate_run (ID : string) (copyToPaths : list dockerCopyToPath)
    (copyFromPaths : list dockerCopyFromPath) (s : St W) :
  exists r evs w,
    afterCreate d ID copyToPaths copyFromPaths s = (Ok r, advance s w evs)
    /\ Managed d ID copyToPaths copyFromPaths evs r.
Proof.
  unfold afterCreate, bind. rewrite !note_advance, advance_advance.
  cbn [advance world].
  destruct (copyToLoop_run ID copyToPaths
              (advance s (world s) ([EvSignalNotify] ++ [EvGo])%list))
    as (r & evs & w1 & E & R).
  rewrite E, advance_advance. destruct r as [err|].
  - eexists _, _, w1. split; [reflexivity|].
    apply copy_in_failure. exact R.
  - rewrite call_advance, advance_advance. cbn [advance world fst snd].
    destruct (ContainerStart d ID w1) as [[err|] w2]; cbn [fst snd].
    + eexists _, _, w2. split; [reflexivity|].
      replace ((([EvSignalNotify] ++ [EvGo]) ++ evs) ++ [EvContainerStart ID (Some err)])%list
        with ([EvSignalNotify; EvGo] ++ evs ++ [EvContainerStart ID (Some err)])%list
        by (flatten; reflexivity).
      apply start_failure. exact R.
    + rewrite call_advance, advance_advance. cbn [advance world fst snd].
      destruct (ContainerAttach d ID _ w2) as [[err|] w3]; cbn [fst snd].
      * eexists _, _, w3. split; [reflexivity|].
        match goal with
        | |- Managed _ _ _ _ ?l _ =>
            replace l
              with ([EvSignalNotify; EvGo] ++ evs
                    ++ [EvContainerStart ID None;
                        EvContainerAttach ID attachOptions (Some err)])%list
              by (flatten; reflexivity)
        end.
        apply attach_failure. exact R.
      * match goal with
        | |- context [defer _ _ ?s0] =>
            destruct (afterAttach_run ID copyFromPaths s0) as (r & evs' & w4 & E' & R')
        end.
        exists r,
          ([EvSignalNotify; EvGo] ++ evs
           ++ [EvContainerStart ID None; EvContainerAttach ID attachOptions None]
           ++ evs' ++ [EvClose])%list, (Close d w4).
        split; [|apply attached; assumption].
        eapply defer_run with (u := Ok tt); [exact E'|].
        unfold emit. rewrite call_advance. cbn [fst snd advance world trace config].
        unfold advance. cbn [trace config world]. flatten. reflexivity.
Qed.

Lemma injectVersion_run (w : W) (c c' : Config) :
  injected d c = Some c' ->
  injectVersion d (enter w c) = (Ok tt, enter w c').
Proof.
  unfold injected, injectVersion, bind, getConfig, setConfig, enter. cbn.
  destruct (Cmd c) as [|cmd0 cmds]; [discriminate|].
  intros H. injection H as <-. reflexivity.
Qed.

Lemma injectVersion_panic (w : W) (c : Config) :
  Cmd c = [] ->
  injectVersion d (enter w c)
  = (Panic "runtime error: index out of range [0] with length 0",
     enter w (set_Env c (Env c ++ ["CORTEX_CLI_VERSION=" ++ CortexVersion d]))).
Proof.
  intros H. unfold injectVersion, bind, getConfig, setConfig, enter, panic. cbn.
  rewrite H. reflexivity.
Qed.

Lemma enter_advance (w w' : W) (c : Config) (evs : list Event) :
  advance (enter w c) w' evs = {| world := w'; trace := evs; config := c |}.
Proof. reflexivity. Qed.

(** A run whose [Cmd] is not empty returns along one of the exit paths,
    and leaves the configuration as lines 56-59 wrote it. *)
Lemma runManager_run (addNewLineAfterPull : bool)
    (copyToPaths : list dockerCopyToPath)
    (copyFromPaths : list dockerCopyFromPath) (w : W) (c c' : Config) :
  injected d c = Some c' ->
  exists r evs w',
    runManager d addNewLineAfterPull copyToPaths copyFromPaths (enter w c)
    = (Ok r, {| world := w'; trace := evs; config := c' |})
    /\ Exit d c' addNewLineAfterPull copyToPaths copyFromPaths evs r.
Proof.
  intros Hc. unfold runManager. unfold bind at 1.
  erewrite injectVersion_run by exact Hc.
  unfold bind at 1. rewrite call_advance.
  unfold advance, enter; cbn [world trace config app].
  destruct (GetDockerClient d w) as [[err|] w1]; cbn [fst snd].
  { eexists _, _, w1. split; [reflexivity | constructor]. }
  unfold bind at 1, getConfig; cbn [config].
  unfold bind at 1. rewrite call_advance.
  unfold advance; cbn [world trace config app].
  destruct (PullImage d (Image c') w1) as [[pulledImage|err] w2]; cbn [fst snd].
  2:{ eexists _, _, w2. split; [reflexivity | apply pull_failure]. }
  unfold bind at 1.
  match goal with
  | |- context [(if _ then note EvPrintln else ret tt) ?s0] =>
      assert (Hprint :
        (if pulledImage && addNewLineAfterPull then note EvPrintln else ret tt) s0
        = (Ok tt,
           {| world := w2;
              trace := [EvGetDockerClient None; EvPullImage (Image c') (inl pulledImage)]
                       ++ (if pulledImage && addNewLineAfterPull then [EvPrintln] else []);
              config := c' |}))
        by (destruct (pulledImage && addNewLineAfterPull); reflexivity)
  end.
  rewrite Hprint. clear Hprint.
  unfold bind at 1. rewrite call_advance.
  unfold advance; cbn [world trace config].
  destruct (ContainerCreate d c' w2) as [[ID|err] w3]; cbn [fst snd].
  2:{ eexists _, _, w3. split; [|apply create_failure with (pulledImage := pulledImage)].
      cbn [ret]. flatten. reflexivity. }
  match goal with
  | |- context [defer _ _ ?s0] =>
      destruct (afterCreate_run ID copyToPaths copyFromPaths s0)
        as (r & evs & w4 & E & R)
  end.
  destruct (ContainerRemove d ID removeOptions w4) as [rerr w5] eqn:Hrm.
  exists r,
    (pulledAndCreated c' pulledImage addNewLineAfterPull ID
     ++ evs ++ [EvContainerRemove ID removeOptions rerr])%list, w5.
  split; [|apply create_success; exact R].
  eapply defer_run with (u := Ok tt); [exact E|].
  unfold removeContainer, bind. rewrite call_advance.
  fold removeOptions. unfold advance; cbn [world trace config]. rewrite Hrm.
  cbn [fst snd ret]. unfold pulledAndCreated.
  flatten. reflexivity.
Qed.

(** A run whose [Cmd] is empty panics before any call. *)
Lemma runManager_panic (addNewLineAfterPull : bool)
    (copyToPaths : list dockerCopyToPath)
    (copyFromPaths : list dockerCopyFromPath) (w : W) (c : Config) :
  Cmd c = [] ->
  runManager d addNewLineAfterPull copyToPaths copyFromPaths (enter w c)
  = (Panic "runtime error: index out of range [0] with length 0",
     enter w (set_Env c (Env c ++ ["CORTEX_CLI_VERSION=" ++ CortexVersion d]))).
Proof.
  intros H. unfold runManager. unfold bind at 1.
  rewrite injectVersion_panic by exact H. reflexivity.
Qed.
End RunsArePaths.

(** ** What the paths leave in the trace *)

Section TraceFacts.
Import strings container dockertypes.
Context {W : Type} (d : Deps W).

Lemma CopyToRun_silent {B : Type} (f : Event -> list B) (ID : string)
    (ps : list dockerCopyToPath) (evs : list Event) (r : option error) :
  (forall ID' p e, f (EvCopyToContainer ID' p e) = []) ->
  CopyToRun ID ps evs r -> flat_map f evs = [].
Proof.
  intros Hf R. induction R; cbn [flat_map]; rewrite ?Hf, ?IHR; reflexivity.
Qed.

Lemma CopyFromRun_silent {B : Type} (f : Event -> list B) (ID : string)
    (ps : list dockerCopyFromPath) (evs : list Event) (r : option error) :
  (forall ID' p e, f (EvCopyFromContainer ID' p e) = []) ->
  CopyFromRun ID ps evs r -> flat_map f evs = [].
Proof.
  intros Hf R. induction R; cbn [flat_map]; rewrite ?Hf, ?IHR; reflexivity.
Qed.

(** The directives tried by a loop are an initial segment of the list, in
    its order; the whole list when the loop ends without an error. *)
Lemma CopyToRun_copiedTo (ID : string) (ps : list dockerCopyToPath)
    (evs : list Event) (r : option error) :
  CopyToRun ID ps evs r ->
  exists rest, ps = copiedTo evs ++ rest /\ (r = None -> rest = []).
Proof.
  induction 1 as [|p ps err|p ps evs r R (rest & IH1 & IH2)].
  - exists []. split; reflexivity.
  - exists ps. split; [reflexivity | discriminate].
  - exists rest. split; [rewrite IH1 at 1; reflexivity | exact IH2].
Qed.

Lemma CopyFromRun_copiedFrom (ID : string) (ps : list dockerCopyFromPath)
    (evs : list Event) (r : option error) :
  CopyFromRun ID ps evs r ->
  exists rest, ps = copiedFrom evs ++ rest /\ (r = None -> rest = []).
Proof.
  induction 1 as [|p ps err|p ps evs r R (rest & IH1 & IH2)].
  - exists []. split; reflexivity.
  - exists ps. split; [reflexivity | discriminate].
  - exists rest. split; [rewrite IH1 at 1; reflexivity | exact IH2].
Qed.

Lemma CopyToRun_errors (ID : string) (ps : list dockerCopyToPath)
    (evs : list Event) (r : option error) :
  CopyToRun ID ps evs r -> copyToErrors evs = errorList r.
Proof. induction 1; cbn; auto. Qed.

Lemma CopyFromRun_errors (ID : string) (ps : list dockerCopyFromPath)
    (evs : list Event) (r : option error) :
  CopyFromRun ID ps evs r -> copyFromErrors evs = errorList r.
Proof. induction 1; cbn; auto. Qed.

(** The body that follows [defer removeContainer()] neither creates nor
    removes a container. *)
Lemma Managed_no_create_remove (ID : string) (ins : list dockerCopyToPath)
    (outs : list dockerCopyFromPath) (evs : list Event) (r : result) :
  Managed d ID ins outs evs r ->
  created evs = [] /\ removals evs = [] /\ createdWith evs = [].
Proof.
  intros HM. unfold created, removals, createdWith.
  destruct HM as [evs err R|evs err R|evs err R|evs evs' r R C];
    rewrite ?flat_map_app; cbn [flat_map app];
    rewrite ?(CopyToRun_silent _ (fun _ _ _ => eq_refl) R);
    try (repeat split; reflexivity).
  destruct C as [buf err He|buf eof err He|buf eof State He Hc
                 |buf eof State evs'' err He Hc R'|buf eof State evs'' He Hc R'];
    rewrite ?flat_map_app; cbn [flat_map app];
    rewrite ?(CopyFromRun_silent _ (fun _ _ _ => eq_refl) R');
    repeat split; reflexivity.
Qed.
End TraceFacts.

Section Shape.
Import strings container dockertypes.
Context {W : Type} (d : Deps W).

(** A run panics at line 59 before any call, or returns along an exit path. *)
Lemma run_shape (b : bool) (ins : list dockerCopyToPath)
    (outs : list dockerCopyFromPath) (w : W) (c : Config) :
  (Cmd c = []
   /\ (exists msg, returned d b ins outs w c = Panic msg)
   /\ history d b ins outs w c = [])
  \/ (exists c' r,
        Cmd c <> []
        /\ injected d c = Some c'
        /\ returned d b ins outs w c = Ok r
        /\ finalConfig d b ins outs w c = c'
        /\ Exit d c' b ins outs (history d b ins outs w c) r).
Proof.
  unfold returned, history, finalConfig.
  destruct (Cmd c) as [|cmd0 cmds] eqn:Hcmd.
  - left. rewrite runManager_panic by exact Hcmd.
    repeat split. eexists. reflexivity.
  - right.
    assert (Hinj : exists c', injected d c = Some c').
    { unfold injected. cbn [set_Env Cmd]. rewrite Hcmd. eexists. reflexivity. }
    destruct Hinj as (c' & Hinj).
    destruct (runManager_run d b ins outs w c Hinj) as (r & evs & w' & E & HE).
    exists c', r. rewrite E. cbn [fst snd trace config].
    repeat split; try assumption. discriminate.
Qed.

Lemma bind_fst_ext {A B : Type} (m : M W A) (k k' : A -> M W B) (s : St W) :
  (forall a s', fst (k a s') = fst (k' a s')) ->
  fst (bind m k s) = fst (bind m k' s).
Proof.
  intros H. unfold bind. destruct (m s) as [[a|msg] s']; [apply H | reflexivity].
Qed.

Lemma defer_fst {A : Type} (f : M W unit) (body : M W A) (s : St W) :
  fst (defer f body s) = fst (body s).
Proof. unfold defer. destruct (body s) as [r s1]. destruct (f s1). reflexivity. Qed.

(** The results of a run do not depend on what [ContainerRemove] does. *)
Lemma returned_withContainerRemove (b : bool) (ins : list dockerCopyToPath)
    (outs : list dockerCopyFromPath) (w : W) (c : Config)
    (remove : string -> ContainerRemoveOptions -> W -> option error * W) :
  returned (withContainerRemove d remove) b ins outs w c
  = returned d b ins outs w c.
Proof.
  unfold returned, runManager.
  apply (bind_fst_ext (injectVersion d)). intros _ s0.
  apply (bind_fst_ext (call (GetDockerClient d) EvGetDockerClient)).
  intros [err|] s1; [reflexivity|].
  apply (bind_fst_ext getConfig). intros c0 s2.
  apply (bind_fst_ext (call (PullImage d (Image c0)) (EvPullImage (Image c0)))).
  intros [pulled|err] s3; [|reflexivity].
  apply (bind_fst_ext (if pulled && b then note EvPrintln else ret tt)).
  intros _ s4.
  apply (bind_fst_ext (call (ContainerCreate d c0) (EvContainerCreate c0))).
  intros [ID|err] s5; [|reflexivity].
  rewrite !defer_fst. reflexivity.
Qed.
End Shape.

(** ** Cleanup *)

(** The deferred removal, in the runs of [runManager] in which no signal is
    delivered.  The calls of [ContainerRemove] are these: none when no
    container was created (the client, the pull or the creation failed, or
    line 59 panicked), and exactly one when a container was created, for that
    container, with [Force] and [RemoveVolumes], as the last event of the
    run, whichever [return] statement the run leaves by.  What
    [ContainerRemove] does, its error included, has no effect on the results
    returned. *)
Lemma runManager_removes_once {W : Type} (d : Deps W) (b : bool)
    (ins : list dockerCopyToPath) (outs : list dockerCopyFromPath) (w : W)
    (c : container.Config) :
  match created (history d b ins outs w c) with
  | [] => removals (history d b ins outs w c) = []
  | [ID] =>
      removals (history d b ins outs w c) = [(ID, removeOptions)]
      /\ exists tr rerr,
           history d b ins outs w c = tr ++ [EvContainerRemove ID removeOptions rerr]
  | _ => False
  end
  /\ forall remove,
       returned (withContainerRemove d remove) b ins outs w c
       = returned d b ins outs w c.
Proof.
  split; [|intros remove; apply returned_withContainerRemove].
  destruct (run_shape d b ins outs w c)
    as [(_ & _ & ->)|(c' & r & _ & _ & _ & _ & HE)]; [reflexivity|].
  destruct HE as [err|err|pulled err|pulled ID evs r rerr HM].
  - reflexivity.
  - reflexivity.
  - destruct (pulled && b); reflexivity.
  - destruct (Managed_no_create_remove HM) as (Hc & Hr & _).
    unfold pulledAndCreated.
    assert (Hcreated : created
      (([EvGetDockerClient None; EvPullImage (container.Image c') (inl pulled)]
        ++ (if pulled && b then [EvPrintln] else [])
        ++ [EvContainerCreate c' (inl ID)])
       ++ evs ++ [EvContainerRemove ID removeOptions rerr]) = [ID]).
    { unfold created in *. rewrite !flat_map_app, Hc.
      destruct (pulled && b); reflexivity. }
    rewrite Hcreated. split.
    + unfold removals in *. rewrite !flat_map_app, Hr.
      destruct (pulled && b); reflexivity.
    + exists (([EvGetDockerClient None; EvPullImage (container.Image c') (inl pulled)]
               ++ (if pulled && b then [EvPrintln] else [])
               ++ [EvContainerCreate c' (inl ID)]) ++ evs), rerr.
      apply app_assoc.
Qed.

(** ** Cleanup and the goroutine *)

Section Quiet.
Import strings container dockertypes.
Context {W : Type} (d : Deps W).

Lemma simulates_ret {A : Type} (a : A) : simulates (W:=W) (ret a) (retW a).
Proof.
  intros p Hq. exists p. split; [reflexivity|]. split; [reflexivity|exact Hq].
Qed.

Lemma simulates_onMain {A : Type} (m : M W A) : simulates m (onMain m).
Proof.
  intros p Hq. unfold onMain. destruct (m (main p)) as [r s].
  eexists. split; [reflexivity|]. split; [reflexivity|]. exact Hq.
Qed.

Lemma simulates_bind {A B : Type} (m : M W A) (mw : MW W A)
    (k : A -> M W B) (kw : A -> MW W B) :
  simulates m mw -> (forall a, simulates (k a) (kw a)) ->
  simulates (bind m k) (bindW mw kw).
Proof.
  intros Hm Hk p Hq. destruct (Hm p Hq) as (p1 & E1 & M1 & Q1).
  unfold bindW, bind. rewrite E1.
  destruct (m (main p)) as [[a|msg] s1]; cbn [fst snd] in *.
  - destruct (Hk a p1 Q1) as (p2 & E2 & M2 & Q2).
    exists p2. rewrite E2, M2, M1.
    split; [reflexivity|]. split; [reflexivity|exact Q2].
  - exists p1. split; [reflexivity|]. split; [exact M1|exact Q1].
Qed.

Lemma simulates_silent {A B : Type} (mw : MW W A) (a : A) (m : M W B)
    (kw : A -> MW W B) :
  silent mw a -> simulates m (kw a) -> simulates m (bindW mw kw).
Proof.
  intros Hs Hk p Hq. destruct (Hs p Hq) as (p1 & E1 & M1 & Q1).
  unfold bindW. rewrite E1.
  destruct (Hk p1 Q1) as (p2 & E2 & M2 & Q2).
  exists p2. rewrite E2, M2, M1.
  split; [reflexivity|]. split; [reflexivity|exact Q2].
Qed.

Lemma simulates_defer {A : Type} (f : M W unit) (fw : MW W unit)
    (body : M W A) (bodyw : MW W A) :
  simulates f fw -> simulates body bodyw ->
  simulates (defer f body) (deferW fw bodyw).
Proof.
  intros Hf Hb p Hq. destruct (Hb p Hq) as (p1 & E1 & M1 & Q1).
  destruct (Hf p1 Q1) as (p2 & E2 & M2 & Q2).
  unfold deferW, defer. rewrite E1, E2.
  destruct (body (main p)) as [r s1]. cbn [fst snd] in *. rewrite M1 in *.
  destruct (f s1) as [r' s2]. cbn [fst snd] in *.
  exists p2. split; [reflexivity|]. split; [exact M2|exact Q2].
Qed.

(** Without a signal the goroutine takes no step when the function yields. *)
Lemma silent_yield (ID : string) : silent (yield d ID) tt.
Proof.
  intros p (Hs & Hw & Hf). unfold yield.
  destruct (schedule p) as [|n rest] eqn:E.
  - exists p. split; [reflexivity|]. split; [reflexivity|].
    split; [rewrite E; exact Hs|]. split; assumption.
  - inversion Hs as [|n' rest' Hn Hrest]; subst. cbn [watcherSteps watcher].
    destruct Hw as [Hw|Hw]; rewrite Hw; cbn [watcher]; eexists;
      (split; [reflexivity|]); (split; [reflexivity|]);
      (split; [exact Hrest|]); (split; [|exact Hf]);
      [left|right]; reflexivity.
Qed.

Lemma silent_setCaughtCtrlC : silent (W:=W) (setCaughtCtrlC false) tt.
Proof.
  intros p (Hs & Hw & Hf). eexists. split; [reflexivity|].
  split; [reflexivity|]. split; [exact Hs|]. split; [exact Hw|reflexivity].
Qed.

(** Without a signal line 138 reads the value that line 95 assigned. *)
Lemma silent_getCaughtCtrlC : silent (W:=W) getCaughtCtrlC false.
Proof.
  intros p Hq. exists p. unfold getCaughtCtrlC.
  pose proof Hq as (_ & _ & ->).
  split; [reflexivity|]. split; [reflexivity|exact Hq].
Qed.

Lemma simulates_step {A : Type} (ID : string) (m : M W A) :
  simulates m (step d ID m).
Proof.
  unfold step. apply simulates_silent with (a := tt).
  - apply silent_yield.
  - apply simulates_onMain.
Qed.

Lemma simulates_RunWithPanicHandler :
  simulates (note EvGo) (RunWithPanicHandler (W:=W)).
Proof.
  intros p Hq. unfold RunWithPanicHandler, bindW, onMain.
  destruct (note EvGo (main p)) as [[[]|msg] s] eqn:E.
  - eexists. split; [reflexivity|]. split; [reflexivity|].
    destruct Hq as (Hs & Hw & Hf).
    split; [exact Hs|]. split; [right; reflexivity|exact Hf].
  - discriminate.
Qed.

Lemma simulates_copyToLoop (ID : string) (copyToPaths : list dockerCopyToPath) :
  simulates (copyToLoop d ID copyToPaths) (copyToLoopW d ID copyToPaths).
Proof.
  induction copyToPaths as [|copyPath rest IH]; cbn [copyToLoop copyToLoopW].
  - apply simulates_ret.
  - apply simulates_bind; [apply simulates_step|].
    intros [err|]; [apply simulates_ret | exact IH].
Qed.

Lemma simulates_copyFromLoop (ID : string)
    (copyFromPaths : list dockerCopyFromPath) :
  simulates (copyFromLoop d ID copyFromPaths) (copyFromLoopW d ID copyFromPaths).
Proof.
  induction copyFromPaths as [|copyPath rest IH];
    cbn [copyFromLoop copyFromLoopW].
  - apply simulates_ret.
  - apply simulates_bind; [apply simulates_step|].
    intros [err|]; [apply simulates_ret | exact IH].
Qed.

Lemma simulates_afterAttach (ID : string)
    (copyFromPaths : list dockerCopyFromPath) :
  simulates (afterAttach d ID false copyFromPaths)
            (afterAttachW d ID copyFromPaths).
Proof.
  unfold afterAttach, afterAttachW.
  apply simulates_bind; [apply simulates_step|].
  intros [outputBuffer err]. destruct (notEOF err); [apply simulates_ret|].
  cbv zeta.
  apply simulates_silent with (a := tt); [apply silent_yield|].
  apply simulates_silent with (a := false); [apply silent_getCaughtCtrlC|].
  apply simulates_bind; [apply simulates_ret|]. intros _.
  apply simulates_bind; [apply simulates_step|].
  intros [State|err']; [|apply simulates_ret].
  apply simulates_bind.
  { destruct (ExitCode State =? 0)%Z;
      [apply simulates_copyFromLoop | apply simulates_ret]. }
  intros [err'|]; [apply simulates_ret|].
  destruct (Running State); apply simulates_ret.
Qed.

Lemma simulates_afterCreate (ID : string) (copyToPaths : list dockerCopyToPath)
    (copyFromPaths : list dockerCopyFromPath) :
  simulates (afterCreate d ID copyToPaths copyFromPaths)
            (afterCreateW d ID copyToPaths copyFromPaths).
Proof.
  unfold afterCreate, afterCreateW. cbv zeta.
  apply simulates_bind; [apply simulates_onMain|]. intros _.
  apply simulates_silent with (a := tt); [apply silent_setCaughtCtrlC|].
  apply simulates_bind; [apply simulates_RunWithPanicHandler|]. intros _.
  apply simulates_bind; [apply simulates_copyToLoop|].
  intros [err|]; [apply simulates_ret|].
  apply simulates_bind; [apply simulates_step|].
  intros [err|]; [apply simulates_ret|].
  apply simulates_bind; [apply simulates_step|].
  intros [err|]; [apply simulates_ret|].
  apply simulates_defer; [apply simulates_step | apply simulates_afterAttach].
Qed.

Lemma simulates_runManager (b : bool) (ins : list dockerCopyToPath)
    (outs : list dockerCopyFromPath) :
  simulates (runManager d b ins outs) (runManagerW d b ins outs).
Proof.
  unfold runManager, runManagerW.
  apply simulates_bind; [apply simulates_onMain|]. intros _.
  apply simulates_bind; [apply simulates_onMain|].
  intros [err|]; [apply simulates_ret|].
  apply simulates_bind; [apply simulates_onMain|]. intros c0.
  apply simulates_bind; [apply simulates_onMain|].
  intros [pulled|err]; [|apply simulates_ret].
  apply simulates_bind; [apply simulates_onMain|]. intros _.
  apply simulates_bind; [apply simulates_onMain|].
  intros [ID|err]; [|apply simulates_ret].
  apply simulates_defer; [|apply simulates_afterCreate].
  intros p Hq.
  destruct (simulates_step ID (removeContainer d ID) Hq) as (p1 & E1 & M1 & Q1).
  destruct (silent_yield ID Q1) as (p2 & E2 & M2 & Q2).
  unfold bindW. rewrite E1.
  assert (Hok : fst (removeContainer d ID (main p)) = Ok tt).
  { unfold removeContainer, bind, call, ret.
    destruct (ContainerRemove d ID _ (world (main p))). reflexivity. }
  rewrite Hok. exists p2. rewrite E2, M2, M1.
  split; [reflexivity|]. split; [reflexivity|exact Q2].
Qed.

(** A run of [runManager] with its goroutine in which no signal is
    delivered is the run of [runManager]: the same results are returned and
    the same events happen. *)
Lemma runManagerW_without_signal (b : bool) (ins : list dockerCopyToPath)
    (outs : list dockerCopyFromPath) (w : W) (c : Config) (sched : list nat) :
  noSignal sched ->
  returnedW d b ins outs w c sched = Finished (returned d b ins outs w c)
  /\ historyW d b ins outs w c sched = history d b ins outs w c.
Proof.
  intros Hs.
  assert (Hq : quiet (enterW w c sched)).
  { split; [exact Hs|]. split; [left|]; reflexivity. }
  destruct (simulates_runManager b ins outs Hq) as (p' & E & Hm & _).
  unfold returnedW, historyW, returned, history. rewrite E. cbn [fst snd].
  rewrite Hm. split; reflexivity.
Qed.
End Quiet.




(** ** Inspection and copy out *)

Section AfterAttach.
Import strings container dockertypes.
Context {W : Type} (d : Deps W).

(** What the trace of a run shows of the stream, of the inspection and of
    the copies out is what the part after [ContainerAttach] left there, and
    nothing when the run ended before. *)
Lemma Exit_collected (c : Config) (b : bool) (ins : list dockerCopyToPath)
    (outs : list dockerCopyFromPath) (tr : list Event) (r : result) :
  Exit d c b ins outs tr r ->
  (inspected tr = [] /\ copiedFrom tr = [] /\ copyFromErrors tr = []
   /\ captured tr = [])
  \/ (exists ID evs,
        Collected d ID outs evs r
        /\ inspected tr = inspected evs
        /\ copiedFrom tr = copiedFrom evs
        /\ copyFromErrors tr = copyFromErrors evs
        /\ captured tr = captured evs).
Proof.
  intros HE.
  destruct HE as [err|err|pulled err|pulled ID evs r rerr HM].
  - left. repeat split.
  - left. repeat split.
  - left. destruct (pulled && b); repeat split.
  - unfold pulledAndCreated.
    destruct HM as [evs err R|evs err R|evs err R|evs evs' r R C].
    1-3: left; unfold inspected, copiedFrom, copyFromErrors, captured;
      rewrite ?flat_map_app; cbn [flat_map app];
      rewrite ?(CopyToRun_silent _ (fun _ _ _ => eq_refl) R);
      destruct (pulled && b); repeat split.
    right. exists ID, evs'. split; [exact C|].
    unfold inspected, copiedFrom, copyFromErrors, captured.
    rewrite ?flat_map_app; cbn [flat_map app].
    rewrite ?(CopyToRun_silent _ (fun _ _ _ => eq_refl) R).
    rewrite ?app_nil_r.
    destruct (pulled && b); repeat split.
Qed.

Lemma Collected_gate (ID : string) (outs : list dockerCopyFromPath)
    (evs : list Event) (r : result) :
  Collected d ID outs evs r ->
  match inspected evs with
  | [] => copiedFrom evs = []
  | [State] =>
      if (ExitCode State =? 0)%Z
      then exists rest,
             outs = copiedFrom evs ++ rest /\ (snd r = None -> rest = [])
      else copiedFrom evs = []
  | _ => False
  end.
Proof.
  intros C.
  destruct C as [buf err He|buf eof err He|buf eof State He Hc
                 |buf eof State evs err He Hc R|buf eof State evs He Hc R].
  - reflexivity.
  - reflexivity.
  - cbn. apply Z.eqb_neq in Hc. rewrite Hc. reflexivity.
  - unfold inspected, copiedFrom. rewrite !flat_map_app.
    rewrite (CopyFromRun_silent _ (fun _ _ _ => eq_refl) R).
    cbn [flat_map app]. rewrite Hc. cbn [Z.eqb].
    destruct (CopyFromRun_copiedFrom R) as (rest & H1 & _).
    exists rest. split; [exact H1 | discriminate].
  - unfold inspected, copiedFrom. rewrite !flat_map_app.
    rewrite (CopyFromRun_silent _ (fun _ _ _ => eq_refl) R).
    cbn [flat_map app]. rewrite Hc. cbn [Z.eqb].
    destruct (CopyFromRun_copiedFrom R) as (rest & H1 & H2).
    exists rest. split; [exact H1 | intros _; apply H2; reflexivity].
Qed.

(** The results of the part after [ContainerAttach], from what it left in
    the trace. *)
Lemma Collected_result (ID : string) (outs : list dockerCopyFromPath)
    (evs : list Event) (r : result) (State : ContainerState) :
  Collected d ID outs evs r ->
  inspected evs = [State] ->
  exists buf,
    captured evs = [buf]
    /\ ((copyFromErrors evs = [] /\ r = finalResult buf State)
        \/ (exists err, copyFromErrors evs = [err]
                        /\ ExitCode State = 0%Z
                        /\ r = (EmptyString, None, Some err))).
Proof.
  intros C.
  destruct C as [buf err He|buf eof err He|buf eof State' He Hc
                 |buf eof State' evs err He Hc R|buf eof State' evs He Hc R].
  - discriminate.
  - discriminate.
  - intros H. injection H as ->. exists buf. split; [reflexivity|].
    left. split; reflexivity.
  - unfold inspected, captured, copyFromErrors. rewrite !flat_map_app.
    rewrite !(CopyFromRun_silent _ (fun _ _ _ => eq_refl) R).
    fold (copyFromErrors evs). rewrite (CopyFromRun_errors R).
    cbn. intros H. injection H as ->. exists buf. split; [reflexivity|].
    right. exists err. repeat split. exact Hc.
  - unfold inspected, captured, copyFromErrors. rewrite !flat_map_app.
    rewrite !(CopyFromRun_silent _ (fun _ _ _ => eq_refl) R).
    fold (copyFromErrors evs). rewrite (CopyFromRun_errors R).
    cbn. intros H. injection H as ->. exists buf. split; [reflexivity|].
    left. split; reflexivity.
Qed.

(** Every [return] with a non-nil error returns the empty string and a nil
    exit code. *)
Lemma Exit_error (c : Config) (b : bool) (ins : list dockerCopyToPath)
    (outs : list dockerCopyFromPath) (tr : list Event)
    (output : string) (exitCode : option Z) (err : error) :
  Exit d c b ins outs tr (output, exitCode, Some err) ->
  output = EmptyString /\ exitCode = None.
Proof.
  intros HE. inversion HE as [e|e|pulled e|pulled ID evs r rerr HM]; subst;
    try (split; reflexivity).
  inversion HM as [evs0 e R|evs0 e R|evs0 e R|evs0 evs' r0 R C]; subst;
    try (split; reflexivity).
  inversion C; subst; try (split; reflexivity);
    unfold finalResult in *; discriminate.
Qed.
End AfterAttach.

(** C2, as stated, fails: the container is inspected as still running, with
    the exit code 0 that the engine reports for it, and the directive is
    copied out all the same. *)
Lemma copy_out_runs_for_running_container :
  let tr := history (scripted (withInspect helloWorld (inl stillRunning)))
              true [] [fromPath "/out/a"] tt accessConfig in
  inspected tr = [stillRunning]
  /\ dockertypes.Running stillRunning = true
  /\ copiedFrom tr = [fromPath "/out/a"].
Proof. vm_compute. repeat split. Qed.

(** C2, amended.  In every run the directives copied out depend on the
    inspected exit code alone, whether or not the container is reported as
    running: when the inspection succeeded with exit code 0 they are an
    initial segment of [copyFromPaths], in the order of the list, and the
    whole list when the run returns no error; when the inspected exit code is
    not 0, or when there was no successful inspection, nothing is copied
    out. *)
Theorem copy_out_gated_on_exit_code {W : Type} (d : Deps W) (b : bool)
    (ins : list dockerCopyToPath) (outs : list dockerCopyFromPath) (w : W)
    (c : container.Config) :
  match inspected (history d b ins outs w c) with
  | [] => copiedFrom (history d b ins outs w c) = []
  | [State] =>
      if (dockertypes.ExitCode State =? 0)%Z
      then exists rest,
             outs = copiedFrom (history d b ins outs w c) ++ rest
             /\ (errorOf (returned d b ins outs w c) = None -> rest = [])
      else copiedFrom (history d b ins outs w c) = []
  | _ => False
  end.
Proof.
  destruct (run_shape d b ins outs w c)
    as [(_ & _ & ->)|(c' & r & _ & _ & -> & _ & HE)]; [reflexivity|].
  destruct (Exit_collected HE)
    as [(-> & -> & _)|(ID & evs & C & -> & -> & _)]; [reflexivity|].
  pose proof (Collected_gate C) as H.
  destruct r as [[output exitCode] err]. exact H.
Qed.

(** C3, as stated, fails: every step up to the inspection succeeds, the
    inspected exit code is 0 and a copy out fails; the run returns the error
    with a nil exit code, not with the exit code 0. *)
Lemma copy_out_failure_loses_exit_code :
  let sc := withBrokenCopyOut helloWorld in
  let outs := [fromPath "/out/a"; fromPath "/out/broken"; fromPath "/out/c"] in
  inspected (history (scripted sc) true [] outs tt accessConfig) = [exited 0]
  /\ copyFromErrors (history (scripted sc) true [] outs tt accessConfig)
     = [errorString "no such file"]
  /\ forall output err,
       returned (scripted sc) true [] outs tt accessConfig
       <> Ok (output, Some 0%Z, Some err).
Proof.
  cbv zeta. split; [vm_compute; reflexivity|].
  split; [vm_compute; reflexivity|].
  intros output err. vm_compute. discriminate.
Qed.

(** C3, amended.  When the inspection succeeded and a copy out failed with
    [err] (which happens only for the exit code 0), [runManager] returns
    [err] itself, with the empty string and a nil exit code: the caller gets
    no exit code and tells the failure of the retrieval from a failure of
    the workload by the error alone. *)
Theorem copy_out_failure_returns_error_alone {W : Type} (d : Deps W) (b : bool)
    (ins : list dockerCopyToPath) (outs : list dockerCopyFromPath) (w : W)
    (c : container.Config) (State : dockertypes.ContainerState) (err : error) :
  inspected (history d b ins outs w c) = [State] ->
  copyFromErrors (history d b ins outs w c) = [err] ->
  dockertypes.ExitCode State = 0%Z
  /\ returned d b ins outs w c = Ok (EmptyString, None, Some err).
Proof.
  destruct (run_shape d b ins outs w c)
    as [(_ & _ & ->)|(c' & r & _ & _ & -> & _ & HE)]; [discriminate|].
  destruct (Exit_collected HE)
    as [(-> & _)|(ID & evs & C & -> & _ & -> & _)]; [discriminate|].
  intros Hi He.
  destruct (Collected_result C Hi) as (buf & _ & [(H & _)|(e & H & Hc & ->)]).
  - rewrite H in He. discriminate.
  - rewrite H in He. injection He as ->. split; [exact Hc | reflexivity].
Qed.

Lemma copy_out_failure_returns_error_alone_witness :
  let sc := withBrokenCopyOut helloWorld in
  let outs := [fromPath "/out/a"; fromPath "/out/broken"; fromPath "/out/c"] in
  dockertypes.ExitCode (exited 0) = 0%Z
  /\ returned (scripted sc) true [] outs tt accessConfig
     = Ok (EmptyString, None, Some (errorString "no such file")).
Proof.
  cbv zeta.
  apply (@copy_out_failure_returns_error_alone unit
           (scripted (withBrokenCopyOut helloWorld)) true []
           [fromPath "/out/a"; fromPath "/out/broken"; fromPath "/out/c"]
           tt accessConfig (exited 0) (errorString "no such file")).
  - vm_compute. reflexivity.
  - vm_compute. reflexivity.
Defined.

(** C4.  When the inspection succeeded, reports the container as running,
    and no copy out failed, [runManager] returns the captured output with
    its newlines normalised, a nil exit code and a nil error. *)
Theorem still_running_returns_nil_exit_code {W : Type} (d : Deps W) (b : bool)
    (ins : list dockerCopyToPath) (outs : list dockerCopyFromPath) (w : W)
    (c : container.Config) (State : dockertypes.ContainerState) :
  inspected (history d b ins outs w c) = [State] ->
  dockertypes.Running State = true ->
  copyFromErrors (history d b ins outs w c) = [] ->
  exists outputBuffer,
    captured (history d b ins outs w c) = [outputBuffer]
    /\ returned d b ins outs w c
       = Ok (strings.ReplaceAll_crlf outputBuffer, None, None).
Proof.
  destruct (run_shape d b ins outs w c)
    as [(_ & _ & ->)|(c' & r & _ & _ & -> & _ & HE)]; [discriminate|].
  destruct (Exit_collected HE)
    as [(-> & _)|(ID & evs & C & -> & _ & -> & ->)]; [discriminate|].
  intros Hi Hrun He.
  destruct (Collected_result C Hi) as (buf & Hb & [(_ & ->)|(e & H & _)]).
  - exists buf. split; [exact Hb|].
    unfold finalResult. rewrite Hrun. reflexivity.
  - rewrite H in He. discriminate.
Qed.

Lemma still_running_returns_nil_exit_code_witness :
  let d := scripted (withInspect helloWorld (inl stillRunning)) in
  exists outputBuffer,
    captured (history d true [] [fromPath "/out/a"] tt accessConfig) = [outputBuffer]
    /\ returned d true [] [fromPath "/out/a"] tt accessConfig
       = Ok (strings.ReplaceAll_crlf outputBuffer, None, None).
Proof.
  cbv zeta.
  apply (@still_running_returns_nil_exit_code unit
           (scripted (withInspect helloWorld (inl stillRunning))) true []
           [fromPath "/out/a"] tt accessConfig stillRunning).
  - vm_compute. reflexivity.
  - reflexivity.
  - vm_compute. reflexivity.
Defined.

(** ** Errors *)

(** C10.  Whenever [runManager] returns a non-nil error, it returns the
    empty string and a nil exit code with it, whatever was captured from the
    stream before. *)
Theorem error_returns_empty_output_and_nil_exit_code {W : Type} (d : Deps W)
    (b : bool) (ins : list dockerCopyToPath) (outs : list dockerCopyFromPath)
    (w : W) (c : container.Config)
    (output : string) (exitCode : option Z) (err : error) :
  returned d b ins outs w c = Ok (output, exitCode, Some err) ->
  output = EmptyString /\ exitCode = None.
Proof.
  destruct (run_shape d b ins outs w c)
    as [(_ & (msg & ->) & _)|(c' & r & _ & _ & -> & _ & HE)]; [discriminate|].
  intros H. injection H as ->. exact (Exit_error HE).
Qed.

Lemma error_returns_empty_output_and_nil_exit_code_witness :
  let d := scripted (withBrokenCopyOut helloWorld) in
  captured (history d true [] [fromPath "/out/broken"] tt accessConfig)
  = [("hello" ++ strings.crlf ++ "world" ++ strings.crlf)%string]
  /\ returned d true [] [fromPath "/out/broken"] tt accessConfig
     = Ok (EmptyString, None, Some (errorString "no such file"))
  /\ EmptyString = EmptyString /\ @None Z = None.
Proof.
  cbv zeta. split; [vm_compute; reflexivity|].
  split; [vm_compute; reflexivity|].
  apply (@error_returns_empty_output_and_nil_exit_code unit
           (scripted (withBrokenCopyOut helloWorld)) true []
           [fromPath "/out/broken"] tt accessConfig
           EmptyString None (errorString "no such file")).
  vm_compute. reflexivity.
Defined.

(** ** Copy in and start *)

Section CopyIn.
Import strings container dockertypes.
Context {W : Type} (d : Deps W).

(** A loop that fails ends with the failing call. *)
Lemma CopyToRun_failed (ID : string) (ps : list dockerCopyToPath)
    (evs : list Event) (err : error) :
  CopyToRun ID ps evs (Some err) ->
  exists evs0 p rest,
    evs = evs0 ++ [EvCopyToContainer ID p (Some err)]
    /\ ps = copiedTo evs0 ++ p :: rest
    /\ copyToErrors evs0 = [].
Proof.
  intros R. remember (Some err) as r eqn:Hr.
  induction R as [|p ps e|p ps evs r R IH].
  - discriminate.
  - injection Hr as ->. exists [], p, ps. repeat split.
  - destruct (IH Hr) as (evs0 & q & rest & -> & -> & H).
    exists (EvCopyToContainer ID p None :: evs0), q, rest. repeat split.
    exact H.
Qed.

Lemma Collected_silent {B : Type} (f : Event -> list B) (ID : string)
    (outs : list dockerCopyFromPath) (evs : list Event) (r : result) :
  (forall x, f (EvCopy x) = []) ->
  (forall ID' x, f (EvContainerInspect ID' x) = []) ->
  (forall ID' p e, f (EvCopyFromContainer ID' p e) = []) ->
  Collected d ID outs evs r -> flat_map f evs = [].
Proof.
  intros H1 H2 H3 C.
  destruct C as [buf err He|buf eof err He|buf eof State He Hc
                 |buf eof State evs err He Hc R|buf eof State evs He Hc R];
    rewrite ?flat_map_app; cbn [flat_map app];
    rewrite ?H1, ?H2, ?(CopyFromRun_silent f H3 R); reflexivity.
Qed.

(** The part after [defer removeContainer()] ends with a failed copy in,
    or calls [ContainerStart] once, after all the copies in. *)
Lemma Managed_copy_in (ID : string) (ins : list dockerCopyToPath)
    (outs : list dockerCopyFromPath) (evs : list Event) (r : result) :
  Managed d ID ins outs evs r ->
  (exists evs0 p err rest,
     evs = evs0 ++ [EvCopyToContainer ID p (Some err)]
     /\ ins = copiedTo evs0 ++ p :: rest
     /\ copyToErrors evs0 = [] /\ starts evs0 = []
     /\ r = (EmptyString, None, Some err))
  \/ (exists evs0 e evs1,
        evs = evs0 ++ EvContainerStart ID e :: evs1
        /\ copiedTo evs0 = ins /\ copyToErrors evs0 = [] /\ starts evs0 = []
        /\ copiedTo evs1 = [] /\ copyToErrors evs1 = [] /\ starts evs1 = []).
Proof.
  intros HM.
  destruct HM as [evs err R|evs err R|evs err R|evs evs' r R C].
  - left. destruct (CopyToRun_failed R) as (evs0 & p & rest & -> & -> & H).
    exists ([EvSignalNotify; EvGo] ++ evs0), p, err, rest.
    repeat split; try assumption.
    unfold starts. cbn [flat_map app].
    assert (S : CopyToRun ID (copiedTo evs0 ++ p :: rest)
                  (evs0 ++ [EvCopyToContainer ID p (Some err)]) (Some err))
      by exact R.
    pose proof (CopyToRun_silent
                  (fun ev => match ev with
                             | EvContainerStart ID0 _ => [ID0]
                             | _ => []
                             end) (fun _ _ _ => eq_refl) S) as H0.
    rewrite flat_map_app in H0. apply app_eq_nil in H0. apply H0.
  - right. destruct (CopyToRun_copiedTo R) as (rest & H1 & H2).
    rewrite (H2 eq_refl), app_nil_r in H1.
    exists ([EvSignalNotify; EvGo] ++ evs), (Some err), [].
    split; [flatten; reflexivity|].
    split; [symmetry; exact H1|].
    split; [exact (CopyToRun_errors R)|].
    split; [exact (CopyToRun_silent _ (fun _ _ _ => eq_refl) R)|].
    repeat split.
  - right. destruct (CopyToRun_copiedTo R) as (rest & H1 & H2).
    rewrite (H2 eq_refl), app_nil_r in H1.
    exists ([EvSignalNotify; EvGo] ++ evs), None,
      [EvContainerAttach ID attachOptions (Some err)].
    split; [flatten; reflexivity|].
    split; [symmetry; exact H1|].
    split; [exact (CopyToRun_errors R)|].
    split; [exact (CopyToRun_silent _ (fun _ _ _ => eq_refl) R)|].
    repeat split.
  - right. destruct (CopyToRun_copiedTo R) as (rest & H1 & H2).
    rewrite (H2 eq_refl), app_nil_r in H1.
    exists ([EvSignalNotify; EvGo] ++ evs), None,
      (EvContainerAttach ID attachOptions None :: evs' ++ [EvClose]).
    split; [flatten; reflexivity|].
    split; [symmetry; exact H1|].
    split; [exact (CopyToRun_errors R)|].
    split; [exact (CopyToRun_silent _ (fun _ _ _ => eq_refl) R)|].
    unfold copiedTo, copyToErrors, starts. cbn [flat_map app].
    rewrite !flat_map_app.
    rewrite !(Collected_silent _ (fun _ => eq_refl) (fun _ _ => eq_refl)
                (fun _ _ _ => eq_refl) C).
    repeat split.
Qed.
End CopyIn.

(** Nothing is copied and nothing is started up to [ContainerCreate]. *)
Lemma pulledAndCreated_silent (c : container.Config) (pulled b : bool) (ID : string) :
  copiedTo (pulledAndCreated c pulled b ID) = []
  /\ copyToErrors (pulledAndCreated c pulled b ID) = []
  /\ starts (pulledAndCreated c pulled b ID) = [].
Proof. unfold pulledAndCreated. destruct (pulled && b); repeat split. Qed.

Lemma copiedTo_app (a b : list Event) :
  copiedTo (a ++ b) = copiedTo a ++ copiedTo b.
Proof. apply flat_map_app. Qed.

Lemma copyToErrors_app (a b : list Event) :
  copyToErrors (a ++ b) = copyToErrors a ++ copyToErrors b.
Proof. apply flat_map_app. Qed.

Lemma starts_app (a b : list Event) :
  starts (a ++ b) = starts a ++ starts b.
Proof. apply flat_map_app. Qed.


(** ** Newline normalisation of the output *)

(** C7, as stated, fails: ["\r\r\n"] becomes ["\r\n"], which becomes
    ["\n"]. *)
Lemma ReplaceAll_crlf_not_idempotent :
  strings.ReplaceAll_crlf (strings.ReplaceAll_crlf strings.crcrlf)
  <> strings.ReplaceAll_crlf strings.crcrlf.
Proof. vm_compute. discriminate. Qed.

(** C7, amended.  The normalisation is a total function of the captured
    bytes, and normalising a second time changes nothing exactly when the
    bytes contain no ["\r\r\n"]. *)
Theorem ReplaceAll_crlf_idempotent_iff (s : string) :
  strings.ReplaceAll_crlf (strings.ReplaceAll_crlf s) = strings.ReplaceAll_crlf s
  <-> strings.Contains s strings.crcrlf = false.
Proof.
  rewrite ReplaceAll_crlf_fixpoint, Contains_crlf_ReplaceAll. reflexivity.
Qed.

(** ** The configuration *)

(** C8, as stated, fails: after a run the object behind [containerConfig]
    has another [Env] and another [Cmd] than the caller put there. *)
Lemma containerConfig_is_written :
  let after := finalConfig (scripted helloWorld) true [] [] tt accessConfig in
  container.Env after
  = container.Env accessConfig ++ ["CORTEX_CLI_VERSION=0.42.0"%string]
  /\ container.Env after <> container.Env accessConfig
  /\ container.Cmd after <> container.Cmd accessConfig.
Proof.
  cbv zeta. split; [vm_compute; reflexivity|].
  split; vm_compute; discriminate.
Qed.

Lemma Exit_createdWith {W : Type} (d : Deps W) (c : container.Config) (b : bool)
    (ins : list dockerCopyToPath) (outs : list dockerCopyFromPath)
    (tr : list Event) (r : result) :
  Exit d c b ins outs tr r -> createdWith tr = [] \/ createdWith tr = [c].
Proof.
  intros HE.
  destruct HE as [err|err|pulled err|pulled ID evs r rerr HM].
  - left. reflexivity.
  - left. reflexivity.
  - right. destruct (pulled && b); reflexivity.
  - right. destruct (Managed_no_create_remove HM) as (_ & _ & H).
    unfold pulledAndCreated, createdWith in *. rewrite !flat_map_app, H.
    destruct (pulled && b); reflexivity.
Qed.

(** C8, amended.  [runManager] writes the object behind [containerConfig]
    at lines 56 and 59 only.  Line 56 always appends the version entry to
    [Env].  When [Cmd] is not empty, line 59 puts the delay and version
    check in front of [Cmd[0]]: the object is left with these two fields
    written, its other fields and the rest of [Cmd] as the caller built
    them, and [ContainerCreate], if called, is given the object in that
    final state, so that nothing is written after the two lines.  When
    [Cmd] is empty, line 59 panics: the object is left with [Env] written
    and nothing else, and the run ends there without any call. *)
Theorem containerConfig_written_once {W : Type} (d : Deps W) (b : bool)
    (ins : list dockerCopyToPath) (outs : list dockerCopyFromPath) (w : W)
    (c : container.Config) :
  match container.Cmd c with
  | cmd0 :: cmds =>
      finalConfig d b ins outs w c
      = {| container.Image := container.Image c;
           container.Entrypoint := container.Entrypoint c;
           container.Cmd := (delayAndVersionCheck ++ cmd0)%string :: cmds;
           container.Tty := container.Tty c;
           container.AttachStdout := container.AttachStdout c;
           container.AttachStderr := container.AttachStderr c;
           container.Env :=
             container.Env c
             ++ [("CORTEX_CLI_VERSION=" ++ CortexVersion d)%string] |}
      /\ (createdWith (history d b ins outs w c) = []
          \/ createdWith (history d b ins outs w c)
             = [finalConfig d b ins outs w c])
  | [] =>
      finalConfig d b ins outs w c
      = {| container.Image := container.Image c;
           container.Entrypoint := container.Entrypoint c;
           container.Cmd := [];
           container.Tty := container.Tty c;
           container.AttachStdout := container.AttachStdout c;
           container.AttachStderr := container.AttachStderr c;
           container.Env :=
             container.Env c
             ++ [("CORTEX_CLI_VERSION=" ++ CortexVersion d)%string] |}
      /\ history d b ins outs w c = []
      /\ exists msg, returned d b ins outs w c = Panic msg
  end.
Proof.
  destruct (container.Cmd c) as [|cmd0 cmds] eqn:Hcmd.
  - unfold finalConfig, history, returned.
    rewrite runManager_panic by exact Hcmd. cbn [fst snd enter config trace].
    split; [|split; [reflexivity | eexists; reflexivity]].
    unfold container.set_Env. rewrite Hcmd. reflexivity.
  - destruct (run_shape d b ins outs w c)
      as [(H & _)|(c' & r & _ & Hinj & _ & -> & HE)].
    { rewrite H in Hcmd. discriminate. }
    split; [|exact (Exit_createdWith HE)].
    unfold injected in Hinj. cbn [container.set_Env container.Cmd] in Hinj.
    rewrite Hcmd in Hinj. injection Hinj as <-. reflexivity.
Qed.

(** C9, as stated, fails: with an empty [Cmd] the index expression of line
    59 panics, and the run ends there, before any call to the engine. *)
Lemma empty_Cmd_panics :
  let c := container.set_Cmd accessConfig [] in
  fst (injectVersion (scripted helloWorld) (enter tt c))
  = Panic "runtime error: index out of range [0] with length 0"
  /\ returned (scripted helloWorld) true [] [] tt c
     = Panic "runtime error: index out of range [0] with length 0"
  /\ history (scripted helloWorld) true [] [] tt c = [].
Proof. cbv zeta. repeat split. Qed.

(** C9, amended.  For every configuration whose [Cmd] is not empty, lines
    56-59 complete without a failure and without a call to the outside, and
    [runManager] as a whole returns rather than panics. *)
Theorem injectVersion_succeeds_on_nonempty_Cmd {W : Type} (d : Deps W) (b : bool)
    (ins : list dockerCopyToPath) (outs : list dockerCopyFromPath) (w : W)
    (c : container.Config) :
  container.Cmd c <> [] ->
  (exists c', injectVersion d (enter w c) = (Ok tt, enter w c'))
  /\ exists r, returned d b ins outs w c = Ok r.
Proof.
  intros Hcmd.
  destruct (run_shape d b ins outs w c)
    as [(H & _)|(c' & r & _ & Hinj & -> & _)]; [contradiction|].
  split; [|exists r; reflexivity].
  exists c'. apply injectVersion_run. exact Hinj.
Qed.

Lemma injectVersion_succeeds_on_nonempty_Cmd_witness :
  (exists c', injectVersion (scripted helloWorld) (enter tt accessConfig)
              = (Ok tt, enter tt c'))
  /\ exists r, returned (scripted helloWorld) true [] [] tt accessConfig = Ok r.
Proof.
  apply (@injectVersion_succeeds_on_nonempty_Cmd unit (scripted helloWorld)
           true [] [] tt accessConfig).
  discriminate.
Defined.

(** ** The scenarios of the specification *)

(** The stream carries ["hello\r\nworld\r\n"], the exit code is 0 and no
    copy out is configured. *)
Example scenario_hello_world :
  returned (scripted helloWorld) false [] [] tt accessConfig
  = Ok (("hello" ++ strings.lf ++ "world" ++ strings.lf)%string, Some 0%Z, None).
Proof. reflexivity. Qed.

(** The exit code is 1: the output and the code are returned, the copies
    out are skipped. *)
Example scenario_exit_code_1 :
  let d := scripted (withInspect helloWorld (inl (exited 1))) in
  returned d false [] [fromPath "/out/a"] tt accessConfig
  = Ok (("hello" ++ strings.lf ++ "world" ++ strings.lf)%string, Some 1%Z, None)
  /\ copiedFrom (history d false [] [fromPath "/out/a"] tt accessConfig) = [].
Proof. split; reflexivity. Qed.

(** The pull fails with a message that mentions [auth]: the error gets the
    hint about [docker login] and [docker pull], and no container is
    created. *)
Example scenario_pull_auth_failure :
  let sc :=
    {| onGetDockerClient := None;
       onPullImage := inr (errorString "pull access denied: auth failed");
       onContainerCreate := inl "c0ffee"%string;
       onContainerRemove := None;
       onCopyToContainer := fun _ => None;
       onContainerStart := None;
       onContainerAttach := None;
       onCopy := (EmptyString, None);
       onContainerInspect := inl (exited 0);
       onCopyFromContainer := fun _ => None |} in
  match returned (scripted sc) false [] [] tt accessConfig with
  | Ok (_, _, Some err) =>
      strings.Contains (Error err) "docker login" = true
      /\ strings.Contains (Error err) "docker pull cortexlabs/manager:0.42.0" = true
  | _ => False
  end
  /\ createdWith (history (scripted sc) false [] [] tt accessConfig) = [].
Proof. vm_compute. repeat split. Qed.

(** * The callers of [runManager] *)

Section CallersFacts.
Import strings container dockertypes.
Context {W : Type} (d : Deps W) (h : Host W).

(** Handing on the results of [runManager] changes nothing: an error comes
    with the empty string and a nil exit code already. *)
Lemma runManager_handOn (b : bool) (ins : list dockerCopyToPath)
    (outs : list dockerCopyFromPath) (w : W) (c : Config) :
  bind (runManager d b ins outs) (handOn (W := W)) (enter w c)
  = runManager d b ins outs (enter w c).
Proof.
  unfold bind.
  destruct (Cmd c) as [|cmd0 cmds] eqn:Hcmd.
  - rewrite runManager_panic by exact Hcmd. reflexivity.
  - assert (Hinj : exists c', injected d c = Some c').
    { unfold injected. cbn [set_Env Cmd]. rewrite Hcmd. eexists. reflexivity. }
    destruct Hinj as (c' & Hinj).
    destruct (runManager_run d b ins outs w c Hinj) as (r & evs & w' & E & HE).
    rewrite E. destruct r as [[output exitCode] [err|]]; [|reflexivity].
    destruct (Exit_error HE) as (-> & ->). reflexivity.
Qed.

(** A run on a configuration whose [Cmd] is not empty returns. *)
Lemma runManager_returns (b : bool) (ins : list dockerCopyToPath)
    (outs : list dockerCopyFromPath) (w : W) (c : Config) :
  Cmd c <> [] -> exists r, fst (runManager d b ins outs (enter w c)) = Ok r.
Proof.
  intros Hcmd.
  destruct (run_shape d b ins outs w c)
    as [(H & _)|(c' & r & _ & _ & Hr & _)]; [contradiction|].
  exists r. exact Hr.
Qed.

(** The state after the session token has been appended. *)
Lemma appendSessionToken_run (awsClient : aws.Client) (w : W) (c : Config) :
  appendSessionToken awsClient (enter w c)
  = (Ok tt,
     enter w (set_Env c
                (Env c ++ match aws.SessionToken awsClient with
                          | Some sessionToken =>
                              [("AWS_SESSION_TOKEN=" ++ sessionToken)%string]
                          | None => []
                          end))).
Proof.
  unfold appendSessionToken.
  destruct (aws.SessionToken awsClient) as [t|]; [reflexivity|].
  rewrite app_nil_r. destruct c; reflexivity.
Qed.

(** The configuration and the directive that [runManagerWithClusterConfig]
    builds, once the file is written and the keys are read. *)
Lemma runManagerWithClusterConfig_run (entrypoint : string)
    (clusterConfig : clusterconfig.Config.t) (awsClient : aws.Client)
    (ins : list dockerCopyToPath) (outs : list dockerCopyFromPath)
    (extraEnvs : list string) (w w' : W) (c0 : Config)
    (clusterConfigBytes accessKeyID secretAccessKey : string) :
  yaml_Marshal h clusterConfig = inl clusterConfigBytes ->
  WriteFile h clusterConfigBytes
    (getCachedClusterConfigPath h
       (clusterconfig.Config.ClusterName clusterConfig)
       (clusterconfig.Config.Region clusterConfig)) w = (None, w') ->
  aws.AccessKeyID awsClient = Some accessKeyID ->
  aws.SecretAccessKey awsClient = Some secretAccessKey ->
  let cachedClusterConfigPath :=
    getCachedClusterConfigPath h
      (clusterconfig.Config.ClusterName clusterConfig)
      (clusterconfig.Config.Region clusterConfig) in
  let containerClusterConfigPath :=
    ("/in/" ++ filepath_Base h cachedClusterConfigPath)%string in
  runManagerWithClusterConfig d h entrypoint clusterConfig awsClient ins outs
    extraEnvs (enter w c0)
  = runManager d false
      (ins ++
       [{| input := {| archive.Files :=
                         [{| archive.Source := cachedClusterConfigPath;
                             archive.Dest := containerClusterConfigPath |}] |};
           toContainerPath := "/" |}])
      outs
      (enter w'
         {| Image := clusterconfig.Config.ImageManager clusterConfig;
            Entrypoint := ["/bin/bash"; "-c"]%string;
            Cmd := [("eval $(python /root/cluster_config_env.py "
                     ++ containerClusterConfigPath ++ ") && " ++ entrypoint)%string];
            Tty := true;
            AttachStdout := true;
            AttachStderr := true;
            Env :=
              (["AWS_ACCESS_KEY_ID=" ++ accessKeyID;
                "AWS_SECRET_ACCESS_KEY=" ++ secretAccessKey;
                "CORTEX_TELEMETRY_DISABLE="
                ++ Getenv h w' "CORTEX_TELEMETRY_DISABLE";
                "CORTEX_TELEMETRY_SENTRY_DSN="
                ++ Getenv h w' "CORTEX_TELEMETRY_SENTRY_DSN";
                "CORTEX_TELEMETRY_SEGMENT_WRITE_KEY="
                ++ Getenv h w' "CORTEX_TELEMETRY_SEGMENT_WRITE_KEY";
                "CORTEX_DEV_DEFAULT_IMAGE_REGISTRY="
                ++ Getenv h w' "CORTEX_DEV_DEFAULT_IMAGE_REGISTRY";
                "CORTEX_DEV_ADD_CONTROL_PLANE_DASHBOARD="
                ++ Getenv h w' "CORTEX_DEV_ADD_CONTROL_PLANE_DASHBOARD";
                "CORTEX_CLUSTER_CONFIG_FILE=" ++ containerClusterConfigPath]%string
               ++ extraEnvs)
              ++ match aws.SessionToken awsClient with
                 | Some sessionToken =>
                     [("AWS_SESSION_TOKEN=" ++ sessionToken)%string]
                 | None => []
                 end |}).
Proof.
  intros Hm Hw Hak Hsk. cbv zeta.
  unfold runManagerWithClusterConfig. rewrite Hm.
  unfold bind at 1, hostCall. cbn [enter world trace config]. rewrite Hw.
  rewrite Hak, Hsk.
  unfold bind at 1. cbn [deref ret].
  unfold bind at 1. cbn [deref ret].
  do 5 (unfold bind at 1, getenv at 1).
  cbn [world].
  unfold bind at 1, setConfig at 1. cbn [world trace config].
  unfold bind at 1.
  match goal with
  | |- context [appendSessionToken awsClient ?s] =>
      change s with (enter w' (config s))
  end.
  rewrite appendSessionToken_run. cbn [config].
  rewrite runManager_handOn. reflexivity.
Qed.

(** Without the file or without a key, [runManagerWithClusterConfig] ends
    before any call to the engine. *)
Lemma runManagerWithClusterConfig_early (entrypoint : string)
    (clusterConfig : clusterconfig.Config.t) (awsClient : aws.Client)
    (ins : list dockerCopyToPath) (outs : list dockerCopyFromPath)
    (extraEnvs : list string) (w : W) (c0 : Config) :
  trace (snd (runManagerWithClusterConfig d h entrypoint clusterConfig
                awsClient ins outs extraEnvs (enter w c0))) = []
  \/ exists clusterConfigBytes w' accessKeyID secretAccessKey,
       yaml_Marshal h clusterConfig = inl clusterConfigBytes
       /\ WriteFile h clusterConfigBytes
            (getCachedClusterConfigPath h
               (clusterconfig.Config.ClusterName clusterConfig)
               (clusterconfig.Config.Region clusterConfig)) w = (None, w')
       /\ aws.AccessKeyID awsClient = Some accessKeyID
       /\ aws.SecretAccessKey awsClient = Some secretAccessKey.
Proof.
  destruct (yaml_Marshal h clusterConfig) as [bytes|err] eqn:Hm.
  2:{ left. unfold runManagerWithClusterConfig. rewrite Hm. reflexivity. }
  destruct (WriteFile h bytes
              (getCachedClusterConfigPath h
                 (clusterconfig.Config.ClusterName clusterConfig)
                 (clusterconfig.Config.Region clusterConfig)) w)
    as [[err|] w'] eqn:Hw.
  { left. unfold runManagerWithClusterConfig. rewrite Hm.
    unfold bind at 1, hostCall. cbn [enter world trace config]. rewrite Hw.
    reflexivity. }
  destruct (aws.AccessKeyID awsClient) as [ak|] eqn:Hak.
  2:{ left. unfold runManagerWithClusterConfig. rewrite Hm.
      unfold bind at 1, hostCall. cbn [enter world trace config]. rewrite Hw.
      rewrite Hak. reflexivity. }
  destruct (aws.SecretAccessKey awsClient) as [sk|] eqn:Hsk.
  2:{ left. unfold runManagerWithClusterConfig. rewrite Hm.
      unfold bind at 1, hostCall. cbn [enter world trace config]. rewrite Hw.
      rewrite Hak, Hsk. reflexivity. }
  right. exists bytes, w', ak, sk. repeat split; assumption.
Qed.
End CallersFacts.

(** X1.  With both keys present, [runManagerAccessCommand] is [runManager]
    on the configuration it builds: the same results, events and final
    state, the results being handed on unchanged; the configuration has the
    entrypoint as its only command element, so the run returns and does not
    panic at [Cmd[0]]. *)
Theorem runManagerAccessCommand_runs_runManager {W : Type} (d : Deps W)
    (h : Host W) (entrypoint : string)
    (accessConfig : clusterconfig.AccessConfig.t) (awsClient : aws.Client)
    (ins : list dockerCopyToPath) (outs : list dockerCopyFromPath) (w : W)
    (c0 : container.Config) (accessKeyID secretAccessKey : string) :
  aws.AccessKeyID awsClient = Some accessKeyID ->
  aws.SecretAccessKey awsClient = Some secretAccessKey ->
  runManagerAccessCommand d h entrypoint accessConfig awsClient ins outs
    (enter w c0)
  = runManager d true ins outs
      (enter w
         {| container.Image := clusterconfig.AccessConfig.ImageManager accessConfig;
            container.Entrypoint := ["/bin/bash"; "-c"]%string;
            container.Cmd := [entrypoint];
            container.Tty := true;
            container.AttachStdout := true;
            container.AttachStderr := true;
            container.Env :=
              ["AWS_ACCESS_KEY_ID=" ++ accessKeyID;
               "AWS_SECRET_ACCESS_KEY=" ++ secretAccessKey;
               "CORTEX_CLUSTER_NAME="
               ++ clusterconfig.AccessConfig.ClusterName accessConfig;
               "CORTEX_REGION=" ++ clusterconfig.AccessConfig.Region accessConfig;
               "CORTEX_TELEMETRY_DISABLE="
               ++ Getenv h w "CORTEX_TELEMETRY_DISABLE";
               "CORTEX_TELEMETRY_SENTRY_DSN="
               ++ Getenv h w "CORTEX_TELEMETRY_SENTRY_DSN";
               "CORTEX_TELEMETRY_SEGMENT_WRITE_KEY="
               ++ Getenv h w "CORTEX_TELEMETRY_SEGMENT_WRITE_KEY"]%string
              ++ match aws.SessionToken awsClient with
                 | Some sessionToken =>
                     [("AWS_SESSION_TOKEN=" ++ sessionToken)%string]
                 | None => []
                 end |})
  /\ exists r,
       fst (runManagerAccessCommand d h entrypoint accessConfig awsClient
              ins outs (enter w c0)) = Ok r.
Proof.
  intros Hak Hsk.
  match goal with |- ?A = ?B /\ _ => assert (E : A = B) end.
  2:{ split; [exact E|]. rewrite E. apply runManager_returns. discriminate. }
  unfold runManagerAccessCommand. rewrite Hak, Hsk.
  unfold bind at 1. cbn [deref ret].
  unfold bind at 1. cbn [deref ret].
  unfold bind at 1, getenv at 1.
  unfold bind at 1, getenv at 1.
  unfold bind at 1, getenv at 1.
  unfold bind at 1, setConfig at 1. cbn [enter world trace config].
  unfold bind at 1.
  match goal with
  | |- context [appendSessionToken awsClient ?s] =>
      change s with (enter w (config s))
  end.
  rewrite appendSessionToken_run. cbn [config].
  rewrite runManager_handOn. reflexivity.
Qed.

(** X2.  When the cluster configuration is marshalled and written to its
    cache file and both keys are present, [runManagerWithClusterConfig] is
    [runManager] on the configuration it builds, with the directive that
    copies the cache file to [/in/<base name>] added after the caller's
    directives; the results are handed on unchanged, and the run returns and
    does not panic at [Cmd[0]]. *)
Theorem runManagerWithClusterConfig_runs_runManager {W : Type} (d : Deps W)
    (h : Host W) (entrypoint : string)
    (clusterConfig : clusterconfig.Config.t) (awsClient : aws.Client)
    (ins : list dockerCopyToPath) (outs : list dockerCopyFromPath)
    (extraEnvs : list string) (w w' : W) (c0 : container.Config)
    (clusterConfigBytes accessKeyID secretAccessKey : string) :
  yaml_Marshal h clusterConfig = inl clusterConfigBytes ->
  WriteFile h clusterConfigBytes
    (getCachedClusterConfigPath h
       (clusterconfig.Config.ClusterName clusterConfig)
       (clusterconfig.Config.Region clusterConfig)) w = (None, w') ->
  aws.AccessKeyID awsClient = Some accessKeyID ->
  aws.SecretAccessKey awsClient = Some secretAccessKey ->
  let cachedClusterConfigPath :=
    getCachedClusterConfigPath h
      (clusterconfig.Config.ClusterName clusterConfig)
      (clusterconfig.Config.Region clusterConfig) in
  let containerClusterConfigPath :=
    ("/in/" ++ filepath_Base h cachedClusterConfigPath)%string in
  runManagerWithClusterConfig d h entrypoint clusterConfig awsClient ins outs
    extraEnvs (enter w c0)
  = runManager d false
      (ins ++
       [{| input := {| archive.Files :=
                         [{| archive.Source := cachedClusterConfigPath;
                             archive.Dest := containerClusterConfigPath |}] |};
           toContainerPath := "/" |}])
      outs
      (enter w'
         {| container.Image := clusterconfig.Config.ImageManager clusterConfig;
            container.Entrypoint := ["/bin/bash"; "-c"]%string;
            container.Cmd :=
              [("eval $(python /root/cluster_config_env.py "
                ++ containerClusterConfigPath ++ ") && " ++ entrypoint)%string];
            container.Tty := true;
            container.AttachStdout := true;
            container.AttachStderr := true;
            container.Env :=
              (["AWS_ACCESS_KEY_ID=" ++ accessKeyID;
                "AWS_SECRET_ACCESS_KEY=" ++ secretAccessKey;
                "CORTEX_TELEMETRY_DISABLE="
                ++ Getenv h w' "CORTEX_TELEMETRY_DISABLE";
                "CORTEX_TELEMETRY_SENTRY_DSN="
                ++ Getenv h w' "CORTEX_TELEMETRY_SENTRY_DSN";
                "CORTEX_TELEMETRY_SEGMENT_WRITE_KEY="
                ++ Getenv h w' "CORTEX_TELEMETRY_SEGMENT_WRITE_KEY";
                "CORTEX_DEV_DEFAULT_IMAGE_REGISTRY="
                ++ Getenv h w' "CORTEX_DEV_DEFAULT_IMAGE_REGISTRY";
                "CORTEX_DEV_ADD_CONTROL_PLANE_DASHBOARD="
                ++ Getenv h w' "CORTEX_DEV_ADD_CONTROL_PLANE_DASHBOARD";
                "CORTEX_CLUSTER_CONFIG_FILE=" ++ containerClusterConfigPath]%string
               ++ extraEnvs)
              ++ match aws.SessionToken awsClient with
                 | Some sessionToken =>
                     [("AWS_SESSION_TOKEN=" ++ sessionToken)%string]
                 | None => []
                 end |})
  /\ exists r,
       fst (runManagerWithClusterConfig d h entrypoint clusterConfig awsClient
              ins outs extraEnvs (enter w c0)) = Ok r.
Proof.
  intros Hm Hw Hak Hsk. cbv zeta.
  pose proof (runManagerWithClusterConfig_run d h entrypoint clusterConfig
                awsClient ins outs extraEnvs w c0 Hm Hw Hak Hsk) as E.
  cbv zeta in E. split; [exact E|].
  rewrite E. apply runManager_returns. discriminate.
Qed.

(** X3.  [runManagerWithClusterConfig] calls the engine only after the
    cluster configuration has been marshalled and written to its cache
    file, and only with both keys present: in every other case the run ends
    with no event at all. *)
Theorem runManagerWithClusterConfig_engine_after_file {W : Type} (d : Deps W)
    (h : Host W) (entrypoint : string)
    (clusterConfig : clusterconfig.Config.t) (awsClient : aws.Client)
    (ins : list dockerCopyToPath) (outs : list dockerCopyFromPath)
    (extraEnvs : list string) (w : W) (c0 : container.Config) :
  trace (snd (runManagerWithClusterConfig d h entrypoint clusterConfig
                awsClient ins outs extraEnvs (enter w c0))) <> [] ->
  exists clusterConfigBytes w' accessKeyID secretAccessKey,
    yaml_Marshal h clusterConfig = inl clusterConfigBytes
    /\ WriteFile h clusterConfigBytes
         (getCachedClusterConfigPath h
            (clusterconfig.Config.ClusterName clusterConfig)
            (clusterconfig.Config.Region clusterConfig)) w = (None, w')
    /\ aws.AccessKeyID awsClient = Some accessKeyID
    /\ aws.SecretAccessKey awsClient = Some secretAccessKey.
Proof.
  intros Htr.
  destruct (runManagerWithClusterConfig_early d h entrypoint clusterConfig
              awsClient ins outs extraEnvs w c0) as [H|H];
    [contradiction | exact H].
Qed.

Lemma runManagerWithClusterConfig_engine_after_file_witness :
  exists clusterConfigBytes w' accessKeyID secretAccessKey,
    yaml_Marshal (scriptedHost (inl "cluster_name: cortex"%string) None)
      clusterOfExample = inl clusterConfigBytes
    /\ WriteFile (scriptedHost (inl "cluster_name: cortex"%string) None)
         clusterConfigBytes
         (getCachedClusterConfigPath
            (scriptedHost (inl "cluster_name: cortex"%string) None)
            (clusterconfig.Config.ClusterName clusterOfExample)
            (clusterconfig.Config.Region clusterOfExample)) tt = (None, w')
    /\ aws.AccessKeyID clientOfExample = Some accessKeyID
    /\ aws.SecretAccessKey clientOfExample = Some secretAccessKey.
Proof.
  apply (@runManagerWithClusterConfig_engine_after_file unit
           (scripted helloWorld)
           (scriptedHost (inl "cluster_name: cortex"%string) None)
           "/root/install.sh"%string clusterOfExample clientOfExample
           [] [] [] tt accessConfig).
  vm_compute. discriminate.
Defined.

(** X4.  When the client has no access key or no secret key,
    [runManagerAccessCommand] panics on the nil pointer while it builds the
    configuration: no call is made and the state is left as it was. *)
Theorem runManagerAccessCommand_panics_without_key {W : Type} (d : Deps W)
    (h : Host W) (entrypoint : string)
    (accessConfig : clusterconfig.AccessConfig.t) (awsClient : aws.Client)
    (ins : list dockerCopyToPath) (outs : list dockerCopyFromPath) (w : W)
    (c0 : container.Config) :
  aws.AccessKeyID awsClient = None \/ aws.SecretAccessKey awsClient = None ->
  runManagerAccessCommand d h entrypoint accessConfig awsClient ins outs
    (enter w c0)
  = (Panic "runtime error: invalid memory address or nil pointer dereference",
     enter w c0).
Proof.
  intros H. unfold runManagerAccessCommand.
  destruct (aws.AccessKeyID awsClient) as [ak|]; [|reflexivity].
  destruct H as [H|H]; [discriminate|]. rewrite H. reflexivity.
Qed.

Lemma runManagerAccessCommand_panics_without_key_witness :
  runManagerAccessCommand (scripted helloWorld)
    (scriptedHost (inl EmptyString) None) "/root/install.sh"%string
    accessOfExample clientWithoutKey [] [] (enter tt accessConfig)
  = (Panic "runtime error: invalid memory address or nil pointer dereference",
     enter tt accessConfig).
Proof.
  apply (@runManagerAccessCommand_panics_without_key unit (scripted helloWorld)
           (scriptedHost (inl EmptyString) None) "/root/install.sh"%string
           accessOfExample clientWithoutKey [] [] tt accessConfig).
  left. reflexivity.
Defined.

Lemma runManagerAccessCommand_runs_runManager_witness :
  exists r,
    fst (runManagerAccessCommand (scripted helloWorld)
           (scriptedHost (inl EmptyString) None) "/root/install.sh"%string
           accessOfExample clientOfExample [] [] (enter tt accessConfig))
    = Ok r.
Proof.
  apply (proj2 (@runManagerAccessCommand_runs_runManager unit
                  (scripted helloWorld) (scriptedHost (inl EmptyString) None)
                  "/root/install.sh"%string accessOfExample clientOfExample
                  [] [] tt accessConfig "AKIAEXAMPLE"%string "secret"%string
                  eq_refl eq_refl)).
Defined.

Lemma runManagerWithClusterConfig_runs_runManager_witness :
  exists r,
    fst (runManagerWithClusterConfig (scripted helloWorld)
           (scriptedHost (inl "cluster_name: cortex"%string) None)
           "/root/install.sh"%string clusterOfExample clientOfExample
           [] [] ["CORTEX_DEBUG=1"%string] (enter tt accessConfig))
    = Ok r.
Proof.
  apply (proj2 (@runManagerWithClusterConfig_runs_runManager unit
                  (scripted helloWorld)
                  (scriptedHost (inl "cluster_name: cortex"%string) None)
                  "/root/install.sh"%string clusterOfExample clientOfExample
                  [] [] ["CORTEX_DEBUG=1"%string] tt tt accessConfig
                  "cluster_name: cortex"%string
                  "AKIAEXAMPLE"%string "secret"%string
                  eq_refl eq_refl eq_refl eq_refl)).
Defined.

(** When [ContainerStart] is called, all of [copyToPaths] has been copied in
    before, and nothing is copied in afterwards. *)
Lemma history_start_after_copy_in {W : Type} (d : Deps W) (b : bool)
    (ins : list dockerCopyToPath) (outs : list dockerCopyFromPath) (w : W)
    (c : container.Config) :
  match starts (history d b ins outs w c) with
  | [] => True
  | [ID] =>
      exists tr0 e tr1,
        history d b ins outs w c = tr0 ++ EvContainerStart ID e :: tr1
        /\ copiedTo tr0 = ins /\ copiedTo tr1 = []
  | _ => False
  end.
Proof.
  destruct (run_shape d b ins outs w c)
    as [(_ & _ & ->)|(c' & r & _ & _ & _ & _ & HE)]; [exact I|].
  destruct HE as [err|err|pulled err|pulled ID evs r rerr HM].
  1-2: exact I.
  { destruct (pulled && b); exact I. }
  destruct (pulledAndCreated_silent c' pulled b ID) as (P1 & P2 & P3).
  destruct (Managed_copy_in HM)
    as [(evs0 & p & err & rest & -> & _ & _ & H2 & _)
       |(evs0 & e & evs1 & -> & Hins & _ & H2 & H3 & _ & H5)].
  - rewrite !starts_app, P3, H2. exact I.
  - rewrite !starts_app, P3, H2. cbn [app].
    change (starts (EvContainerStart ID e :: evs1)) with (ID :: starts evs1).
    rewrite H5. cbn [app starts flat_map].
    exists (pulledAndCreated c' pulled b ID ++ evs0), e,
      (evs1 ++ [EvContainerRemove ID removeOptions rerr]).
    split; [rewrite <- !app_assoc; reflexivity|].
    split.
    + rewrite copiedTo_app, P1. exact Hins.
    + rewrite copiedTo_app, H3. reflexivity.
Qed.

(** X5.  In every run of [runManagerWithClusterConfig] in which the
    container is started, the caller's directives and then the cache file
    of the cluster configuration, to the root of the container, have been
    copied in before [ContainerStart], in this order, and nothing is copied
    in after it. *)
Theorem runManagerWithClusterConfig_stages_config_before_start {W : Type}
    (d : Deps W) (h : Host W) (entrypoint : string)
    (clusterConfig : clusterconfig.Config.t) (awsClient : aws.Client)
    (ins : list dockerCopyToPath) (outs : list dockerCopyFromPath)
    (extraEnvs : list string) (w : W) (c0 : container.Config) :
  let tr :=
    trace (snd (runManagerWithClusterConfig d h entrypoint clusterConfig
                  awsClient ins outs extraEnvs (enter w c0))) in
  let cachedClusterConfigPath :=
    getCachedClusterConfigPath h
      (clusterconfig.Config.ClusterName clusterConfig)
      (clusterconfig.Config.Region clusterConfig) in
  match starts tr with
  | [] => True
  | [ID] =>
      exists tr0 e tr1,
        tr = tr0 ++ EvContainerStart ID e :: tr1
        /\ copiedTo tr0
           = ins ++
             [{| input :=
                   {| archive.Files :=
                        [{| archive.Source := cachedClusterConfigPath;
                            archive.Dest :=
                              ("/in/" ++ filepath_Base h cachedClusterConfigPath)%string
                          |}] |};
                 toContainerPath := "/" |}]
        /\ copiedTo tr1 = []
  | _ => False
  end.
Proof.
  cbv zeta.
  destruct (runManagerWithClusterConfig_early d h entrypoint clusterConfig
              awsClient ins outs extraEnvs w c0)
    as [->|(bytes & w' & ak & sk & Hm & Hw & Hak & Hsk)]; [exact I|].
  pose proof (runManagerWithClusterConfig_run d h entrypoint clusterConfig
                awsClient ins outs extraEnvs w c0 Hm Hw Hak Hsk) as E.
  cbv zeta in E. rewrite E.
  match goal with
  | |- context [runManager d false ?ins' outs (enter w' ?c)] =>
      exact (history_start_after_copy_in d false ins' outs w' c)
  end.
Qed.

(** * EC2 tags and volumes *)

Section Tags.

(** X6.  A query tag whose key is nil matches nothing, and the resource tags
    are not even read: the result is false also when some of them are nil
    pointers. *)
Theorem hasEC2Tag_nil_key (queryTag : ec2.Tag)
    (allResourceTags : list (option ec2.Tag)) :
  ec2.Key queryTag = None ->
  hasEC2Tag queryTag allResourceTags = Ok false.
Proof.
  intros Hk. induction allResourceTags as [|resourceTag rest IH].
  - reflexivity.
  - cbn [hasEC2Tag]. rewrite Hk. exact IH.
Qed.

Lemma hasEC2Tag_nil_key_witness :
  hasEC2Tag {| ec2.Key := None; ec2.Value := Some "prod"%string |}
    [None; Some {| ec2.Key := Some "env"%string; ec2.Value := Some "prod"%string |}]
  = Ok false.
Proof.
  apply (hasEC2Tag_nil_key
           {| ec2.Key := None; ec2.Value := Some "prod"%string |}
           [None; Some {| ec2.Key := Some "env"%string;
                          ec2.Value := Some "prod"%string |}]).
  reflexivity.
Defined.

(** One step of the loop, for a resource tag that is there. *)
Lemma hasEC2Tag_cons (queryTag resourceTag : ec2.Tag)
    (rest : list (option ec2.Tag)) :
  (tagMatches queryTag resourceTag
   /\ hasEC2Tag queryTag (Some resourceTag :: rest) = Ok true)
  \/ (~ tagMatches queryTag resourceTag
      /\ hasEC2Tag queryTag (Some resourceTag :: rest)
         = hasEC2Tag queryTag rest).
Proof.
  unfold tagMatches. cbn [hasEC2Tag].
  destruct (ec2.Key queryTag) as [qk|] eqn:Hqk.
  2:{ right. split; [|reflexivity]. intros (k & H & _). discriminate. }
  destruct (ec2.Key resourceTag) as [rk|] eqn:Hrk.
  2:{ right. split; [|reflexivity]. intros (k & _ & H & _). discriminate. }
  destruct (String.eqb qk rk) eqn:Hk.
  2:{ right. split; [|reflexivity]. intros (k & H1 & H2 & _).
      injection H1 as ->. injection H2 as ->.
      rewrite String.eqb_refl in Hk. discriminate. }
  apply String.eqb_eq in Hk. subst rk.
  destruct (ec2.Value queryTag) as [qv|] eqn:Hqv.
  2:{ left. split; [|reflexivity]. exists qk. repeat split. left. reflexivity. }
  destruct (ec2.Value resourceTag) as [rv|] eqn:Hrv.
  2:{ right. split; [|reflexivity].
      intros (k & _ & _ & [H|(v & _ & H)]); discriminate. }
  destruct (String.eqb qv rv) eqn:Hv.
  - apply String.eqb_eq in Hv. subst rv. left. split; [|reflexivity].
    exists qk. repeat split. right. exists qv. split; reflexivity.
  - right. split; [|reflexivity].
    intros (k & _ & _ & [H|(v & H1 & H2)]); [discriminate|].
    injection H1 as ->. injection H2 as ->.
    rewrite String.eqb_refl in Hv. discriminate.
Qed.

Lemma hasEC2Tag_spec (queryTag : ec2.Tag) (tags : list ec2.Tag) :
  exists b,
    hasEC2Tag queryTag (map Some tags) = Ok b
    /\ (b = true <-> exists tag, In tag tags /\ tagMatches queryTag tag).
Proof.
  induction tags as [|tag tags (b & IH1 & IH2)].
  - exists false. split; [reflexivity|].
    split; [discriminate | intros (tag & [] & _)].
  - cbn [map].
    destruct (hasEC2Tag_cons queryTag tag (map Some tags)) as [(Hm & ->)|(Hn & ->)].
    + exists true. split; [reflexivity|]. split; [|reflexivity].
      intros _. exists tag. split; [left; reflexivity | exact Hm].
    + exists b. split; [exact IH1|]. rewrite IH2. split.
      * intros (t & Hin & Hm). exists t. split; [right; exact Hin | exact Hm].
      * intros (t & [<-|Hin] & Hm); [contradiction|].
        exists t. split; assumption.
Qed.

(** X7.  When no resource tag is a nil pointer, [hasEC2Tag] does not panic
    and answers true exactly when some resource tag has the key of the query
    tag and, if the query tag has a value, that value too; for a query tag
    whose value is nil, exactly when its key is among the keys of the
    resource tags. *)
Theorem hasEC2Tag_true_iff_some_tag_matches (queryTag : ec2.Tag)
    (tags : list ec2.Tag) :
  exists b,
    hasEC2Tag queryTag (map Some tags) = Ok b
    /\ (b = true <-> exists tag, In tag tags /\ tagMatches queryTag tag)
    /\ (forall key,
          ec2.Key queryTag = Some key -> ec2.Value queryTag = None ->
          (b = true <-> In (Some key) (map ec2.Key tags))).
Proof.
  destruct (hasEC2Tag_spec queryTag tags) as (b & Hb & Hiff).
  exists b. split; [exact Hb|]. split; [exact Hiff|].
  intros key Hk Hv. rewrite Hiff. split.
  - intros (tag & Hin & k & Hqk & Hrk & _).
    rewrite Hk in Hqk. injection Hqk as <-.
    rewrite <- Hrk. apply in_map. exact Hin.
  - intros Hin. apply in_map_iff in Hin. destruct Hin as (tag & Hrk & Hin).
    exists tag. split; [exact Hin|].
    exists key. repeat split; [exact Hk | exact Hrk | left; exact Hv].
Qed.

(** X8.  When no resource tag is a nil pointer, [hasAllEC2Tags] does not
    panic and answers true exactly when every query tag is matched by some
    resource tag; in particular it answers true for no query tag at all. *)
Theorem hasAllEC2Tags_true_iff_all_match (queryTags tags : list ec2.Tag) :
  exists b,
    hasAllEC2Tags queryTags (map Some tags) = Ok b
    /\ (b = true <->
        forall queryTag, In queryTag queryTags ->
          exists tag, In tag tags /\ tagMatches queryTag tag).
Proof.
  induction queryTags as [|q qs (b & IH1 & IH2)].
  - exists true. split; [reflexivity|]. split; [intros _ q []|reflexivity].
  - cbn [hasAllEC2Tags].
    destruct (hasEC2Tag_spec q tags) as (bq & -> & Hq).
    destruct bq.
    + exists b. split; [exact IH1|]. rewrite IH2. split.
      * intros H q' [<-|Hin]; [apply Hq; reflexivity | apply H; exact Hin].
      * intros H q' Hin. apply H. right. exact Hin.
    + exists false. split; [reflexivity|]. split; [discriminate|].
      intros H. apply Hq. apply H. left. reflexivity.
Qed.

(** A match that [hasEC2Tag] finds is a resource tag that is there. *)
Lemma hasEC2Tag_true_inv (queryTag : ec2.Tag)
    (allResourceTags : list (option ec2.Tag)) :
  hasEC2Tag queryTag allResourceTags = Ok true ->
  exists tag, In (Some tag) allResourceTags /\ tagMatches queryTag tag.
Proof.
  induction allResourceTags as [|[resourceTag|] rest IH]; intros H.
  - discriminate.
  - destruct (hasEC2Tag_cons queryTag resourceTag rest) as [(Hm & _)|(_ & E)].
    + exists resourceTag. split; [left; reflexivity | exact Hm].
    + rewrite E in H. destruct (IH H) as (tag & Hin & Hm).
      exists tag. split; [right; exact Hin | exact Hm].
  - cbn [hasEC2Tag] in H.
    destruct (ec2.Key queryTag); [discriminate|].
    destruct (IH H) as (tag & Hin & Hm).
    exists tag. split; [right; exact Hin | exact Hm].
Qed.

(** X9.  A resource that carries more tags still matches, as long as none
    of its tags is a nil pointer: when [hasAllEC2Tags] answers true for some
    resource tags, it answers true for every list of resource tags, all of
    them there, that contains those of the first list that are there.  (With
    a nil pointer in the second list the function may panic.) *)
Theorem hasAllEC2Tags_monotone (queryTags : list ec2.Tag)
    (allResourceTags : list (option ec2.Tag)) (tags' : list ec2.Tag) :
  hasAllEC2Tags queryTags allResourceTags = Ok true ->
  (forall tag, In (Some tag) allResourceTags -> In tag tags') ->
  hasAllEC2Tags queryTags (map Some tags') = Ok true.
Proof.
  intros H Hincl. induction queryTags as [|q qs IH].
  - reflexivity.
  - cbn [hasAllEC2Tags] in H |- *.
    destruct (hasEC2Tag q allResourceTags) as [[|]|msg] eqn:Hq;
      try discriminate.
    destruct (hasEC2Tag_true_inv _ _ Hq) as (tag & Hin & Hm).
    destruct (hasEC2Tag_spec q tags') as (b' & Hb' & Hiff').
    rewrite Hb'.
    assert (b' = true) as ->
      by (apply Hiff'; exists tag; split; [apply Hincl; exact Hin | exact Hm]).
    apply IH. exact H.
Qed.

Lemma hasAllEC2Tags_monotone_witness :
  hasAllEC2Tags
    [{| ec2.Key := Some "env"%string; ec2.Value := None |}]
    (map Some
       [{| ec2.Key := Some "team"%string; ec2.Value := Some "ml"%string |};
        {| ec2.Key := Some "env"%string; ec2.Value := Some "prod"%string |}])
  = Ok true.
Proof.
  apply (@hasAllEC2Tags_monotone
           [{| ec2.Key := Some "env"%string; ec2.Value := None |}]
           [Some {| ec2.Key := Some "env"%string; ec2.Value := Some "prod"%string |};
            None]
           [{| ec2.Key := Some "team"%string; ec2.Value := Some "ml"%string |};
            {| ec2.Key := Some "env"%string; ec2.Value := Some "prod"%string |}]).
  - reflexivity.
  - intros t [H|[H|[]]]; [|discriminate].
    injection H as <-. right. left. reflexivity.
Defined.
End Tags.

Section Volumes.

Lemma appendTagged_spec (tags : list ec2.Tag) (page : list (option ec2.Volume)) :
  forall volumes volumes',
    appendTagged tags volumes page = Ok volumes' ->
    volumes' = volumes ++ flat_map (taggedVolume tags) page.
Proof.
  induction page as [|[volume|] page IH]; intros volumes volumes' H.
  - cbn in H. injection H as <-. cbn. rewrite app_nil_r. reflexivity.
  - cbn [appendTagged] in H. cbn [flat_map taggedVolume].
    destruct (hasAllEC2Tags tags (ec2.Tags volume)) as [[|]|msg].
    + rewrite (IH _ _ H), <- app_assoc. reflexivity.
    + exact (IH _ _ H).
    + discriminate.
  - cbn [appendTagged] in H. exact (IH _ _ H).
Qed.

Lemma eachVolumesPage_spec (tags : list ec2.Tag)
    (outputs : list ec2.DescribeVolumesOutput)
    (rest : list (option ec2.DescribeVolumesOutput)) :
  rest = [] \/ (exists rest', rest = None :: rest') ->
  forall volumes volumes',
    eachVolumesPage tags volumes (map Some outputs ++ rest) = Ok volumes' ->
    volumes'
    = volumes
      ++ flat_map (fun output => flat_map (taggedVolume tags) (ec2.Volumes output))
           outputs.
Proof.
  intros Hrest.
  induction outputs as [|output outputs IH]; intros volumes volumes' H.
  - cbn [map app flat_map] in *. rewrite app_nil_r.
    destruct Hrest as [->|(rest' & ->)]; cbn in H; injection H as <-;
      reflexivity.
  - cbn [map app eachVolumesPage] in H.
    destruct (appendTagged tags volumes (ec2.Volumes output)) as [vs|msg] eqn:E;
      [|discriminate].
    apply appendTagged_spec in E. subst vs.
    rewrite (IH _ _ H). cbn [flat_map]. rewrite <- app_assoc. reflexivity.
Qed.

(** X10.  When [ListVolumes] returns volumes, the engine returned no error
    and the volumes are exactly those of the pages delivered before the
    first nil page that are not nil pointers and carry all the query tags,
    in the order of the pages. *)
Theorem ListVolumes_returns_tagged_volumes (WithStack : error -> error)
    (tags : list ec2.Tag) (outputs : list ec2.DescribeVolumesOutput)
    (rest : list (option ec2.DescribeVolumesOutput)) (err : option error)
    (volumes : list ec2.Volume) :
  rest = [] \/ (exists rest', rest = None :: rest') ->
  ListVolumes WithStack tags (map Some outputs ++ rest) err = Ok (inl volumes) ->
  err = None
  /\ volumes
     = flat_map (fun output => flat_map (taggedVolume tags) (ec2.Volumes output))
         outputs.
Proof.
  intros Hrest H. unfold ListVolumes in H.
  destruct (eachVolumesPage tags [] (map Some outputs ++ rest)) as [vs|msg] eqn:E;
    [|discriminate].
  destruct err as [e|]; [discriminate|]. injection H as <-.
  split; [reflexivity|].
  exact (eachVolumesPage_spec tags outputs Hrest [] E).
Qed.

Lemma ListVolumes_returns_tagged_volumes_witness :
  let env := {| ec2.Key := Some "env"%string; ec2.Value := Some "prod"%string |} in
  let tagged := {| ec2.VolumeId := Some "vol-1"%string; ec2.Tags := [Some env] |} in
  let bare := {| ec2.VolumeId := Some "vol-2"%string; ec2.Tags := [] |} in
  @None error = None
  /\ [tagged]
     = flat_map
         (fun output =>
            flat_map
              (taggedVolume [{| ec2.Key := Some "env"%string; ec2.Value := None |}])
              (ec2.Volumes output))
         [{| ec2.Volumes := [Some bare; None; Some tagged] |}].
Proof.
  cbv zeta.
  apply (@ListVolumes_returns_tagged_volumes (fun e => e)
           [{| ec2.Key := Some "env"%string; ec2.Value := None |}]
           [{| ec2.Volumes :=
                 [Some {| ec2.VolumeId := Some "vol-2"%string; ec2.Tags := [] |};
                  None;
                  Some {| ec2.VolumeId := Some "vol-1"%string;
                          ec2.Tags :=
                            [Some {| ec2.Key := Some "env"%string;
                                     ec2.Value := Some "prod"%string |}] |}] |}]
           [None; Some {| ec2.Volumes := [] |}] None).
  - right. eexists. reflexivity.
  - reflexivity.
Defined.
End Volumes.

(** * Instance types *)

Section StringFacts.
Local Open Scope string_scope.

Lemma Split_byte_nonempty (sep : ascii) (s : string) : Split_byte sep s <> [].
Proof.
  destruct s as [|c t]; cbn [Split_byte]; [discriminate|].
  destruct (Ascii.eqb c sep); [discriminate|].
  destruct (Split_byte sep t); discriminate.
Qed.

Lemma Split_byte_none (sep : ascii) (s : string) :
  anyByte (fun c => Ascii.eqb c sep) s = false -> Split_byte sep s = [s].
Proof.
  induction s as [|c t IH]; intros H; [reflexivity|].
  cbn [anyByte] in H. apply orb_false_iff in H. destruct H as (Hc & Ht).
  cbn [Split_byte]. rewrite Hc, (IH Ht). reflexivity.
Qed.

Lemma Split_byte_app (sep : ascii) (s1 s2 : string) :
  anyByte (fun c => Ascii.eqb c sep) s1 = false ->
  Split_byte sep (s1 ++ String sep s2) = s1 :: Split_byte sep s2.
Proof.
  induction s1 as [|c t IH]; intros H.
  - cbn. rewrite Ascii.eqb_refl. reflexivity.
  - cbn [anyByte] in H. apply orb_false_iff in H. destruct H as (Hc & Ht).
    cbn [append Split_byte]. rewrite Hc, (IH Ht). reflexivity.
Qed.

Lemma Split_byte_one (sep : ascii) (s p : string) :
  Split_byte sep s = [p] ->
  anyByte (fun c => Ascii.eqb c sep) s = false /\ p = s.
Proof.
  revert p. induction s as [|c t IH]; intros p H.
  - injection H as <-. split; reflexivity.
  - cbn [Split_byte] in H. cbn [anyByte].
    destruct (Ascii.eqb c sep).
    + injection H as _ H. elim (Split_byte_nonempty _ _ H).
    + destruct (Split_byte sep t) as [|q [|q' qs]] eqn:E.
      * elim (Split_byte_nonempty _ _ E).
      * injection H as <-. destruct (IH q eq_refl) as (-> & ->).
        split; reflexivity.
      * discriminate.
Qed.

(** Two pieces: the string is the pieces around one separator. *)
Lemma Split_byte_two (sep : ascii) (s p1 p2 : string) :
  Split_byte sep s = [p1; p2] ->
  s = p1 ++ String sep p2
  /\ anyByte (fun c => Ascii.eqb c sep) p1 = false
  /\ anyByte (fun c => Ascii.eqb c sep) p2 = false.
Proof.
  revert p1. induction s as [|c t IH]; intros p1 H; [discriminate|].
  cbn [Split_byte] in H. destruct (Ascii.eqb c sep) eqn:Hc.
  - apply Ascii.eqb_eq in Hc. subst c. injection H as <- H.
    destruct (Split_byte_one _ _ H) as (Hn & ->).
    repeat split. exact Hn.
  - destruct (Split_byte sep t) as [|q [|q' qs]] eqn:E; try discriminate.
    injection H as <- <- Hqs. subst qs.
    destruct (IH q eq_refl) as (-> & H1 & H2).
    repeat split; [|exact H2]. cbn [anyByte]. rewrite Hc, H1. reflexivity.
Qed.

Lemma lastOf_app_one {A : Type} (xs : list A) (x : A) :
  lastOf (xs ++ [x]) = Some x.
Proof. unfold lastOf. rewrite rev_app_distr. reflexivity. Qed.

Lemma lastOf_nonempty {A : Type} (xs : list A) : xs <> [] -> lastOf xs <> None.
Proof.
  intros H. unfold lastOf. destruct (rev xs) eqn:E; [|discriminate].
  apply (f_equal (@rev A)) in E. rewrite rev_involutive in E. contradiction.
Qed.

Lemma SplitDigits_nonempty (s : string) : SplitDigits s <> [].
Proof.
  induction s as [|c t IH]; cbn [SplitDigits]; [discriminate|].
  destruct (isDigit c).
  - destruct (startsWithDigit t); [exact IH | discriminate].
  - destruct (SplitDigits t); discriminate.
Qed.

Lemma FindAllDigits_none (s : string) :
  anyByte isDigit s = false -> FindAllDigits s = [].
Proof.
  induction s as [|c t IH]; intros H; [reflexivity|].
  cbn [anyByte] in H. apply orb_false_iff in H. destruct H as (Hc & Ht).
  cbn [FindAllDigits]. rewrite Hc. exact (IH Ht).
Qed.

Lemma FindAllDigits_some (s : string) :
  FindAllDigits s <> [] -> anyByte isDigit s = true.
Proof.
  intros H. destruct (anyByte isDigit s) eqn:E; [reflexivity|].
  elim H. exact (FindAllDigits_none _ E).
Qed.

Lemma SplitDigits_none (s : string) :
  anyByte isDigit s = false -> SplitDigits s = [s].
Proof.
  induction s as [|c t IH]; intros H; [reflexivity|].
  cbn [anyByte] in H. apply orb_false_iff in H. destruct H as (Hc & Ht).
  cbn [SplitDigits]. rewrite Hc, (IH Ht). reflexivity.
Qed.

Lemma startsWithDigit_none (s : string) :
  anyByte isDigit s = false -> startsWithDigit s = false.
Proof.
  destruct s as [|c t]; [reflexivity|]. cbn. intros H.
  apply orb_false_iff in H. apply H.
Qed.

Lemma startsWithDigit_app (s1 s2 : string) :
  s1 <> "" -> startsWithDigit (s1 ++ s2) = startsWithDigit s1.
Proof. destruct s1; [contradiction | reflexivity]. Qed.

Lemma allDigits_cons (c : ascii) (s : string) :
  allDigits (String c s) = isDigit c && allDigits s.
Proof. unfold allDigits. cbn [anyByte]. rewrite negb_orb, negb_involutive. reflexivity. Qed.

(** A run of digits followed by bytes that are not digits. *)
Lemma FindAllDigits_run (gen caps : string) :
  gen <> "" -> allDigits gen = true -> anyByte isDigit caps = false ->
  FindAllDigits (gen ++ caps) = [gen].
Proof.
  intros Hne Hd Hc. induction gen as [|c g IH]; [contradiction|].
  rewrite allDigits_cons in Hd. apply andb_true_iff in Hd. destruct Hd as (Hc0 & Hg).
  cbn [append FindAllDigits]. rewrite Hc0.
  destruct g as [|c' g'].
  - cbn [append]. rewrite (startsWithDigit_none _ Hc), (FindAllDigits_none _ Hc).
    reflexivity.
  - rewrite startsWithDigit_app by discriminate.
    pose proof Hg as Hg'. rewrite allDigits_cons in Hg'.
    apply andb_true_iff in Hg'. cbn [startsWithDigit]. rewrite (proj1 Hg').
    rewrite IH by (discriminate || exact Hg). reflexivity.
Qed.

Lemma SplitDigits_run (gen caps : string) :
  gen <> "" -> allDigits gen = true -> anyByte isDigit caps = false ->
  SplitDigits (gen ++ caps) = [""; caps].
Proof.
  intros Hne Hd Hc. induction gen as [|c g IH]; [contradiction|].
  rewrite allDigits_cons in Hd. apply andb_true_iff in Hd. destruct Hd as (Hc0 & Hg).
  cbn [append SplitDigits]. rewrite Hc0.
  destruct g as [|c' g'].
  - cbn [append]. rewrite (startsWithDigit_none _ Hc), (SplitDigits_none _ Hc).
    reflexivity.
  - rewrite startsWithDigit_app by discriminate.
    pose proof Hg as Hg'. rewrite allDigits_cons in Hg'.
    apply andb_true_iff in Hg'. cbn [startsWithDigit]. rewrite (proj1 Hg').
    apply IH; [discriminate | exact Hg].
Qed.

Lemma endsWithDigit_cons (c : ascii) (s : string) :
  s <> "" -> endsWithDigit (String c s) = endsWithDigit s.
Proof. destruct s; [contradiction | reflexivity]. Qed.

Lemma FindAllDigits_starts (s : string) :
  startsWithDigit s = true -> FindAllDigits s <> [].
Proof.
  destruct s as [|c t]; [discriminate|]. cbn. intros ->.
  destruct (startsWithDigit t); [|discriminate].
  destruct (FindAllDigits t); discriminate.
Qed.

Lemma FindAllDigits_cons (c : ascii) (t : string) :
  FindAllDigits (String c t)
  = if isDigit c
    then if startsWithDigit t
         then match FindAllDigits t with
              | run :: runs => String c run :: runs
              | [] => [String c ""]
              end
         else String c "" :: FindAllDigits t
    else FindAllDigits t.
Proof. reflexivity. Qed.

Lemma SplitDigits_cons (c : ascii) (t : string) :
  SplitDigits (String c t)
  = if isDigit c
    then if startsWithDigit t
         then SplitDigits t
         else "" :: SplitDigits t
    else match SplitDigits t with
         | piece :: pieces => String c piece :: pieces
         | [] => [String c ""]
         end.
Proof. reflexivity. Qed.

(** The runs of digits of [pre ++ gen ++ caps], when [gen] is a run of its
    own. *)
Lemma FindAllDigits_app (pre gen caps : string) :
  endsWithDigit pre = false ->
  gen <> "" -> allDigits gen = true -> anyByte isDigit caps = false ->
  FindAllDigits (pre ++ gen ++ caps) = (FindAllDigits pre ++ [gen])%list.
Proof.
  intros Hpre Hne Hd Hc. induction pre as [|c pre' IH].
  - cbn [append FindAllDigits app]. apply FindAllDigits_run; assumption.
  - destruct (string_dec pre' "") as [->|Hp].
    + cbn [endsWithDigit] in Hpre. cbn [append FindAllDigits]. rewrite Hpre.
      cbn [app]. apply FindAllDigits_run; assumption.
    + rewrite endsWithDigit_cons in Hpre by exact Hp.
      specialize (IH Hpre).
      change (String c pre' ++ gen ++ caps) with (String c (pre' ++ gen ++ caps)).
      rewrite !FindAllDigits_cons, startsWithDigit_app, IH by exact Hp.
      destruct (isDigit c); [|reflexivity].
      destruct (startsWithDigit pre') eqn:Hs; [|reflexivity].
      destruct (FindAllDigits pre') as [|run runs] eqn:E.
      * elim (FindAllDigits_starts _ Hs E).
      * reflexivity.
Qed.

Lemma SplitDigits_app (pre gen caps : string) :
  endsWithDigit pre = false ->
  gen <> "" -> allDigits gen = true -> anyByte isDigit caps = false ->
  SplitDigits (pre ++ gen ++ caps) = (SplitDigits pre ++ [caps])%list.
Proof.
  intros Hpre Hne Hd Hc. induction pre as [|c pre' IH].
  - cbn [append SplitDigits app]. apply SplitDigits_run; assumption.
  - destruct (string_dec pre' "") as [->|Hp].
    + cbn [endsWithDigit] in Hpre. cbn [append SplitDigits]. rewrite Hpre.
      rewrite SplitDigits_run by assumption. reflexivity.
    + rewrite endsWithDigit_cons in Hpre by exact Hp.
      specialize (IH Hpre).
      change (String c pre' ++ gen ++ caps) with (String c (pre' ++ gen ++ caps)).
      rewrite !SplitDigits_cons, startsWithDigit_app, IH by exact Hp.
      destruct (isDigit c).
      * destruct (startsWithDigit pre'); reflexivity.
      * destruct (SplitDigits pre') as [|piece pieces] eqn:E.
        -- elim (SplitDigits_nonempty _ E).
        -- reflexivity.
Qed.

(** [gen] does not start before the end of a shorter run of digits. *)
Lemma HasPrefix_short_run (g caps gen : string) :
  allDigits gen = true -> anyByte isDigit caps = false ->
  (String.length g < String.length gen)%nat ->
  strings.HasPrefix (g ++ caps) gen = false.
Proof.
  revert gen. induction g as [|e g IH]; intros gen Hd Hc Hlen.
  - destruct gen as [|c gen']; [cbn in Hlen; lia|].
    rewrite allDigits_cons in Hd. apply andb_true_iff in Hd.
    destruct caps as [|x caps']; [reflexivity|].
    cbn [append strings.HasPrefix].
    cbn [anyByte] in Hc. apply orb_false_iff in Hc.
    destruct (Ascii.eqb c x) eqn:E; [|reflexivity].
    apply Ascii.eqb_eq in E. subst x.
    destruct Hd as (Hd & _). destruct Hc as (Hc & _). congruence.
  - destruct gen as [|c gen']; [cbn in Hlen; lia|].
    rewrite allDigits_cons in Hd. apply andb_true_iff in Hd.
    cbn [append strings.HasPrefix].
    rewrite IH; [apply andb_false_r | apply Hd | exact Hc | cbn in Hlen; lia].
Qed.

Lemma LastIndex_short_run (g caps gen : string) :
  gen <> "" -> allDigits gen = true -> anyByte isDigit caps = false ->
  (String.length g < String.length gen)%nat ->
  LastIndex (g ++ caps) gen = None.
Proof.
  intros Hne Hd Hc. induction g as [|e g IH]; intros Hlen.
  - cbn [append]. clear Hlen.
    induction caps as [|x caps' IHc].
    + destruct gen; [contradiction | reflexivity].
    + cbn [LastIndex]. cbn [anyByte] in Hc. apply orb_false_iff in Hc.
      rewrite (IHc (proj2 Hc)).
      change (String x caps') with ("" ++ String x caps').
      rewrite HasPrefix_short_run; try assumption; try reflexivity.
      * cbn [anyByte]. rewrite (proj1 Hc), (proj2 Hc). reflexivity.
      * destruct gen; [contradiction | cbn; lia].
  - cbn [append LastIndex]. rewrite IH by (cbn in Hlen; lia).
    change (String e (g ++ caps)) with (String e g ++ caps).
    rewrite HasPrefix_short_run by assumption. reflexivity.
Qed.

Lemma HasPrefix_append (s1 s2 : string) : strings.HasPrefix (s1 ++ s2) s1 = true.
Proof.
  induction s1 as [|c s1 IH]; [destruct s2; reflexivity|].
  cbn [append strings.HasPrefix]. rewrite Ascii.eqb_refl. exact IH.
Qed.

(** The last occurrence of the last run of digits is where the run is. *)
Lemma LastIndex_app (pre gen caps : string) :
  gen <> "" -> allDigits gen = true -> anyByte isDigit caps = false ->
  LastIndex (pre ++ gen ++ caps) gen = Some (String.length pre).
Proof.
  intros Hne Hd Hc. induction pre as [|c pre IH].
  - cbn [append String.length].
    destruct gen as [|c g]; [contradiction|].
    cbn [append LastIndex].
    rewrite LastIndex_short_run; try assumption; [|cbn; lia].
    change (String c (g ++ caps)) with (String c g ++ caps).
    rewrite HasPrefix_append. reflexivity.
  - cbn [append LastIndex String.length]. rewrite IH. reflexivity.
Qed.

Lemma substring_prefix (s1 s2 : string) :
  substring 0 (String.length s1) (s1 ++ s2) = s1.
Proof.
  induction s1 as [|c s1 IH]; [destruct s2; reflexivity|].
  cbn [append String.length substring]. rewrite IH. reflexivity.
Qed.

(** A string with a digit ends with a run of digits and bytes that are not
    digits. *)
Lemma last_run_exists (s : string) :
  anyByte isDigit s = true ->
  exists pre gen caps,
    s = pre ++ gen ++ caps
    /\ endsWithDigit pre = false
    /\ gen <> "" /\ allDigits gen = true /\ anyByte isDigit caps = false.
Proof.
  induction s as [|c t IH]; [discriminate|]. intros H.
  destruct (anyByte isDigit t) eqn:Ht.
  - destruct (IH eq_refl) as (pre & gen & caps & -> & Hp & Hne & Hd & Hc).
    destruct pre as [|p pre'].
    + destruct (isDigit c) eqn:Hcd.
      * exists "", (String c gen), caps. repeat split; try assumption.
        -- discriminate.
        -- rewrite allDigits_cons, Hcd, Hd. reflexivity.
      * exists (String c ""), gen, caps. repeat split; assumption.
    + exists (String c (String p pre')), gen, caps.
      repeat split; try assumption.
  - cbn [anyByte] in H. rewrite Ht, orb_false_r in H.
    exists "", (String c ""), t. repeat split; try assumption.
    + discriminate.
    + rewrite allDigits_cons, H. reflexivity.
Qed.
End StringFacts.

Section ParseFacts.
Context (a : InstanceDeps).
Local Open Scope string_scope.

Lemma allDigits_no_dot (s : string) :
  allDigits s = true -> anyByte isDot s = false.
Proof.
  induction s as [|c t IH]; [reflexivity|].
  rewrite allDigits_cons. intros H. apply andb_true_iff in H.
  destruct H as (Hc & Ht). cbn [anyByte]. rewrite (IH Ht), orb_false_r.
  unfold isDot. destruct (Ascii.eqb c ".") eqn:E; [|reflexivity].
  apply Ascii.eqb_eq in E. subst c. discriminate Hc.
Qed.

Lemma anyByte_app (P : ascii -> bool) (s1 s2 : string) :
  anyByte P (s1 ++ s2) = anyByte P s1 || anyByte P s2.
Proof.
  induction s1 as [|c t IH]; [reflexivity|].
  cbn [append anyByte]. rewrite IH, orb_assoc. reflexivity.
Qed.

(** What [ParseInstanceType] returns for a valid instance type with one dot
    whose part before the dot is [pre ++ gen ++ caps], [gen] being its last
    run of digits. *)
Lemma ParseInstanceType_shape (pre gen caps size : string) :
  Has (AllInstanceTypes a) ((pre ++ gen ++ caps) ++ "." ++ size) = true ->
  anyByte isDot (pre ++ gen ++ caps) = false ->
  anyByte isDot size = false ->
  endsWithDigit pre = false ->
  gen <> "" -> allDigits gen = true -> anyByte isDigit caps = false ->
  ParseInstanceType a ((pre ++ gen ++ caps) ++ "." ++ size)
  = match ParseInt a gen with
    | Some generation =>
        Ok (inl {| Family := pre; Generation := generation;
                   Capabilities := Split_empty a caps; Size := size |})
    | None =>
        Ok (inr (ErrorUnexpected a
                   ("unexpected invalid instance type: "
                    ++ (pre ++ gen ++ caps) ++ "." ++ size)))
    end.
Proof.
  intros Hv Hdp Hds Hpre Hne Hd Hc.
  unfold ParseInstanceType, CheckValidInstanceType, IsValidInstanceType.
  rewrite Hv. cbn [negb].
  change ((pre ++ gen ++ caps) ++ "." ++ size)
    with ((pre ++ gen ++ caps) ++ String "." size).
  rewrite Split_byte_app by exact Hdp.
  rewrite Split_byte_none by exact Hds.
  rewrite FindAllDigits_app by assumption.
  rewrite SplitDigits_app by assumption.
  rewrite !lastOf_app_one.
  rewrite LastIndex_app by assumption.
  rewrite substring_prefix.
  destruct (FindAllDigits pre ++ [gen])%list eqn:E.
  - apply app_eq_nil in E. destruct E as (_ & E). discriminate.
  - reflexivity.
Qed.
End ParseFacts.

(** X11.  [ParseInstanceType] takes a valid instance type apart as the
    comment above it says: for [family ++ generation ++ capabilities ++ "."
    ++ size], where the generation is the last run of digits before the only
    dot, it returns the family, the number that [s.ParseInt] reads in the
    generation, the capabilities one by one, and the size. *)
Theorem ParseInstanceType_parses (a : InstanceDeps)
    (family gen caps size : string) (generation : Z) :
  Has (AllInstanceTypes a) ((family ++ gen ++ caps) ++ "." ++ size)%string = true ->
  anyByte isDot family = false ->
  anyByte isDot caps = false ->
  anyByte isDot size = false ->
  endsWithDigit family = false ->
  gen <> EmptyString -> allDigits gen = true ->
  anyByte isDigit caps = false ->
  ParseInt a gen = Some generation ->
  ParseInstanceType a ((family ++ gen ++ caps) ++ "." ++ size)%string
  = Ok (inl {| Family := family; Generation := generation;
               Capabilities := Split_empty a caps; Size := size |}).
Proof.
  intros Hv Hf Hcd Hs Hpre Hne Hd Hc Hn.
  rewrite ParseInstanceType_shape; try assumption.
  - rewrite Hn. reflexivity.
  - rewrite !anyByte_app, Hf, Hcd, (allDigits_no_dot _ Hd). reflexivity.
Qed.

Lemma ParseInstanceType_parses_witness :
  ParseInstanceType instancesOfExample "g4ad.xlarge"
  = Ok (inl {| Family := "g"; Generation := 4;
               Capabilities := Split_empty instancesOfExample "ad";
               Size := "xlarge" |}).
Proof.
  apply (@ParseInstanceType_parses instancesOfExample
           "g"%string "4"%string "ad"%string "xlarge"%string 4%Z);
    try reflexivity.
  discriminate.
Defined.

(** X12.  Whatever [ParseInstanceType] returns without an error can be put
    together again: the instance type is the family, a run of digits that
    [s.ParseInt] reads as the generation, the bytes of the capabilities,
    none of them a digit, a dot and the size; the family does not end with a
    digit, and there is no other dot. *)
Theorem ParseInstanceType_decomposes (a : InstanceDeps) (instanceType : string)
    (parsed : ParsedInstanceType) :
  ParseInstanceType a instanceType = Ok (inl parsed) ->
  exists gen caps,
    instanceType = ((Family parsed ++ gen ++ caps) ++ "." ++ Size parsed)%string
    /\ Has (AllInstanceTypes a) instanceType = true
    /\ gen <> EmptyString /\ allDigits gen = true
    /\ ParseInt a gen = Some (Generation parsed)
    /\ anyByte isDigit caps = false
    /\ Capabilities parsed = Split_empty a caps
    /\ endsWithDigit (Family parsed) = false
    /\ anyByte isDot (Family parsed ++ gen ++ caps) = false
    /\ anyByte isDot (Size parsed) = false.
Proof.
  intros H.
  assert (Hv : Has (AllInstanceTypes a) instanceType = true).
  { unfold ParseInstanceType, CheckValidInstanceType, IsValidInstanceType in H.
    destruct (Has (AllInstanceTypes a) instanceType); [reflexivity|].
    discriminate. }
  assert (Hsplit : exists prefix size,
             Split_byte "." instanceType = [prefix; size]
             /\ FindAllDigits prefix <> []).
  { unfold ParseInstanceType, CheckValidInstanceType, IsValidInstanceType in H.
    rewrite Hv in H. cbn [negb] in H.
    destruct (Split_byte "." instanceType) as [|prefix [|size [|x xs]]];
      try discriminate.
    exists prefix, size. split; [reflexivity|].
    destruct (FindAllDigits prefix); [discriminate | discriminate]. }
  destruct Hsplit as (prefix & size & Hsp & Hruns).
  destruct (Split_byte_two _ _ Hsp) as (-> & Hdp & Hds).
  destruct (last_run_exists _ (FindAllDigits_some _ Hruns))
    as (pre & gen & caps & -> & Hpre & Hne & Hd & Hc).
  change ((pre ++ gen ++ caps) ++ String "." size)%string
    with ((pre ++ gen ++ caps) ++ "." ++ size)%string in *.
  rewrite ParseInstanceType_shape in H by assumption.
  destruct (ParseInt a gen) as [n|] eqn:Hn; [|discriminate].
  injection H as <-. cbn [Family Generation Capabilities Size].
  exists gen, caps. repeat split; assumption.
Qed.

Lemma ParseInstanceType_decomposes_witness :
  exists gen caps,
    "u-6tb1.metal"%string = (("u-6tb" ++ gen ++ caps) ++ "." ++ "metal")%string
    /\ Has (AllInstanceTypes instancesOfExample) "u-6tb1.metal" = true
    /\ gen <> EmptyString /\ allDigits gen = true
    /\ ParseInt instancesOfExample gen = Some 1%Z
    /\ anyByte isDigit caps = false
    /\ [] = Split_empty instancesOfExample caps
    /\ endsWithDigit "u-6tb" = false
    /\ anyByte isDot ("u-6tb" ++ gen ++ caps) = false
    /\ anyByte isDot "metal" = false.
Proof.
  apply (@ParseInstanceType_decomposes instancesOfExample "u-6tb1.metal"%string
           {| Family := "u-6tb"; Generation := 1; Capabilities := [];
              Size := "metal" |}).
  reflexivity.
Defined.

(** [ParseInstanceType] returns: the two index expressions are in range. *)
Lemma ParseInstanceType_returns (a : InstanceDeps) (instanceType : string) :
  exists r, ParseInstanceType a instanceType = Ok r.
Proof.
  unfold ParseInstanceType.
  destruct (CheckValidInstanceType a instanceType); [eexists; reflexivity|].
  destruct (Split_byte "." instanceType) as [|prefix [|size [|x xs]]];
    try (eexists; reflexivity).
  destruct (FindAllDigits prefix) as [|run runs] eqn:E; [eexists; reflexivity|].
  destruct (lastOf (SplitDigits prefix)) eqn:E1.
  2:{ elim (lastOf_nonempty (SplitDigits_nonempty prefix) E1). }
  destruct (lastOf (run :: runs)) eqn:E2.
  2:{ assert (Hne : run :: runs <> []) by discriminate.
      elim (lastOf_nonempty Hne E2). }
  destruct (ParseInt a s0); [|eexists; reflexivity].
  destruct (LastIndex prefix s0); eexists; reflexivity.
Qed.

(** X13.  [ParseInstanceType] and the functions that classify an instance
    type never panic, whatever the string and the table of instance types:
    the last element of the digit runs and of the pieces between them is
    always there. *)
Theorem instance_type_functions_never_panic (a : InstanceDeps)
    (instanceType : string) :
  (exists r, ParseInstanceType a instanceType = Ok r)
  /\ (exists r, IsARMInstance a instanceType = Ok r)
  /\ (exists r, IsAMDGPUInstance a instanceType = Ok r)
  /\ (exists r, IsNvidiaGPUInstance a instanceType = Ok r)
  /\ (exists r, IsGPUInstance a instanceType = Ok r)
  /\ (exists r, IsInferentiaInstance a instanceType = Ok r)
  /\ (exists r, IsTrainiumInstance a instanceType = Ok r)
  /\ (exists r, IsMacInstance a instanceType = Ok r)
  /\ (exists r, IsFPGAInstance a instanceType = Ok r)
  /\ (exists r, IsAlevoInstance a instanceType = Ok r)
  /\ (exists r, IsGaudiInstance a instanceType = Ok r).
Proof.
  destruct (ParseInstanceType_returns a instanceType) as ([p|err] & H).
  - unfold IsGPUInstance, IsARMInstance, IsAMDGPUInstance, IsNvidiaGPUInstance,
      IsInferentiaInstance, IsTrainiumInstance, IsMacInstance, IsFPGAInstance,
      IsAlevoInstance, IsGaudiInstance.
    rewrite H.
    destruct (String.eqb (Family p) "a"), (Has (Capabilities p) "g"),
      (Has (Capabilities p) "a"), (Has _gpuInstanceFamilies (Family p)),
      (String.eqb (Family p) "mac"), (String.eqb (Family p) "f"),
      (String.eqb (Family p) "vt"), (String.eqb (Family p) "dl");
      cbn [negb]; repeat split; eexists; reflexivity.
  - unfold IsGPUInstance, IsARMInstance, IsAMDGPUInstance, IsNvidiaGPUInstance,
      IsInferentiaInstance, IsTrainiumInstance, IsMacInstance, IsFPGAInstance,
      IsAlevoInstance, IsGaudiInstance.
    rewrite H. repeat split; eexists; reflexivity.
Qed.

(** [IsGPUInstance] on an instance type that parses. *)
Lemma IsGPUInstance_of_parsed (a : InstanceDeps) (instanceType : string)
    (parsed : ParsedInstanceType) :
  ParseInstanceType a instanceType = Ok (inl parsed) ->
  exists gpu,
    IsGPUInstance a instanceType = Ok (inl gpu)
    /\ gpu = (String.eqb (Family parsed) "g" || String.eqb (Family parsed) "p").
Proof.
  intros H.
  unfold IsGPUInstance, IsAMDGPUInstance, IsNvidiaGPUInstance. rewrite H.
  unfold _gpuInstanceFamilies, Has. cbn [existsb]. rewrite orb_false_r.
  destruct (String.eqb (Family parsed) "g" || String.eqb (Family parsed) "p");
    cbn [negb].
  - destruct (existsb (String.eqb "a") (Capabilities parsed)); cbn [negb];
      eexists; split; reflexivity.
  - eexists. split; reflexivity.
Qed.



(** X15.  The classes that go by the family exclude one another: for an
    instance type that parses, at most one of [IsGPUInstance],
    [IsInferentiaInstance], [IsTrainiumInstance], [IsMacInstance],
    [IsFPGAInstance], [IsAlevoInstance] and [IsGaudiInstance] answers
    true. *)
Theorem family_classes_exclude_one_another (a : InstanceDeps)
    (instanceType : string) (parsed : ParsedInstanceType) :
  ParseInstanceType a instanceType = Ok (inl parsed) ->
  exists gpu inf trn mac fpga alevo gaudi,
    IsGPUInstance a instanceType = Ok (inl gpu)
    /\ IsInferentiaInstance a instanceType = Ok (inl inf)
    /\ IsTrainiumInstance a instanceType = Ok (inl trn)
    /\ IsMacInstance a instanceType = Ok (inl mac)
    /\ IsFPGAInstance a instanceType = Ok (inl fpga)
    /\ IsAlevoInstance a instanceType = Ok (inl alevo)
    /\ IsGaudiInstance a instanceType = Ok (inl gaudi)
    /\ (length (filter (fun b : bool => b) [gpu; inf; trn; mac; fpga; alevo; gaudi])
        <= 1)%nat.
Proof.
  intros H.
  destruct (IsGPUInstance_of_parsed a instanceType H) as (gpu & Hgpu & Hg).
  unfold IsInferentiaInstance, IsTrainiumInstance, IsMacInstance,
    IsFPGAInstance, IsAlevoInstance, IsGaudiInstance.
  rewrite H, Hgpu.
  exists gpu. subst gpu.
  destruct (String.eqb (Family parsed) "g") eqn:E1.
  { apply String.eqb_eq in E1. rewrite E1. cbn.
    eexists _, _, _, _, _, _. repeat split. cbn. lia. }
  destruct (String.eqb (Family parsed) "p") eqn:E2.
  { apply String.eqb_eq in E2. rewrite E2. cbn.
    eexists _, _, _, _, _, _. repeat split. cbn. lia. }
  destruct (String.eqb (Family parsed) "inf") eqn:E3.
  { apply String.eqb_eq in E3. rewrite E3. cbn.
    eexists _, _, _, _, _, _. repeat split. cbn. lia. }
  destruct (String.eqb (Family parsed) "trn") eqn:E4.
  { apply String.eqb_eq in E4. rewrite E4. cbn.
    eexists _, _, _, _, _, _. repeat split. cbn. lia. }
  destruct (String.eqb (Family parsed) "mac") eqn:E5.
  { apply String.eqb_eq in E5. rewrite E5. cbn.
    eexists _, _, _, _, _, _. repeat split. cbn. lia. }
  destruct (String.eqb (Family parsed) "f") eqn:E6.
  { apply String.eqb_eq in E6. rewrite E6. cbn.
    eexists _, _, _, _, _, _. repeat split. cbn. lia. }
  destruct (String.eqb (Family parsed) "vt") eqn:E7.
  { apply String.eqb_eq in E7. rewrite E7. cbn.
    eexists _, _, _, _, _, _. repeat split. cbn. lia. }
  destruct (String.eqb (Family parsed) "dl") eqn:E8;
    cbn; eexists _, _, _, _, _, _; repeat split; cbn; lia.
Qed.

Lemma family_classes_exclude_one_another_witness :
  exists gpu inf trn mac fpga alevo gaudi,
    IsGPUInstance instancesOfExample "inf1.xlarge" = Ok (inl gpu)
    /\ IsInferentiaInstance instancesOfExample "inf1.xlarge" = Ok (inl inf)
    /\ IsTrainiumInstance instancesOfExample "inf1.xlarge" = Ok (inl trn)
    /\ IsMacInstance instancesOfExample "inf1.xlarge" = Ok (inl mac)
    /\ IsFPGAInstance instancesOfExample "inf1.xlarge" = Ok (inl fpga)
    /\ IsAlevoInstance instancesOfExample "inf1.xlarge" = Ok (inl alevo)
    /\ IsGaudiInstance instancesOfExample "inf1.xlarge" = Ok (inl gaudi)
    /\ (length (filter (fun b : bool => b) [gpu; inf; trn; mac; fpga; alevo; gaudi])
        <= 1)%nat.
Proof.
  apply (@family_classes_exclude_one_another instancesOfExample
           "inf1.xlarge"%string
           {| Family := "inf"; Generation := 1; Capabilities := [];
              Size := "xlarge" |}).
  reflexivity.
Defined.

(** * The tables of batch and task APIs *)

Section TablesFacts.
Import table.
Context {W : Type} (t : TableDeps W).
Local Open Scope string_scope.

(** The loop over the jobs returns, leaves the trace and the configuration
    alone, counts the jobs in progress and keeps the first job of the latest
    start time. *)
Lemma jobsLoop_spec (jobs : list status.JobStatus) :
  forall (t0 : Z) (id0 : string) (n0 : Z) (s : St W),
  exists latest id running s',
    jobsLoop t jobs t0 id0 n0 s = (Ok (latest, id, running), s')
    /\ trace s' = trace s /\ config s' = config s
    /\ running
       = (n0 + Z.of_nat (length (filter (fun job => IsInProgress t (status.Status job))
                                   jobs)))%Z
    /\ (forall job, In job jobs -> (status.StartTime job <= latest)%Z)
    /\ (t0 <= latest)%Z
    /\ ((latest = t0 /\ id = id0)
        \/ exists before job after since,
             jobs = (before ++ job :: after)%list
             /\ status.StartTime job = latest /\ (t0 < latest)%Z
             /\ (forall job', In job' before ->
                   (status.StartTime job' < latest)%Z)
             /\ id = status.ID job ++ " (submitted " ++ since ++ " ago)").
Proof.
  induction jobs as [|job rest IH]; intros t0 id0 n0 s.
  - exists t0, id0, n0, s.
    split; [reflexivity|]. split; [reflexivity|]. split; [reflexivity|].
    split; [cbn; lia|]. split; [intros job []|]. split; [lia|].
    left. split; reflexivity.
  - cbn [jobsLoop]. unfold bind at 1.
    destruct (After (status.StartTime job) t0) eqn:Ha.
    + unfold After in Ha. apply Z.ltb_lt in Ha.
      unfold bind at 1, hostCall.
      destruct (SinceStr t (status.StartTime job) (world s)) as [since w1] eqn:Hs.
      cbn [ret].
      match goal with
      | |- context [jobsLoop t rest ?t1 ?id1 ?n1 ?s1] =>
          destruct (IH t1 id1 n1 s1)
            as (latest & id & running & s' & E & Htr & Hcfg & Hrun & Hmax & Hle & Hsel)
      end.
      exists latest, id, running, s'. rewrite E.
      cbn [trace config] in Htr, Hcfg.
      split; [reflexivity|]. split; [exact Htr|]. split; [exact Hcfg|].
      split.
      { rewrite Hrun. cbn [filter].
        destruct (IsInProgress t (status.Status job)); cbn [length]; lia. }
      split.
      { intros j [<-|Hin]; [exact Hle | exact (Hmax j Hin)]. }
      split; [lia|].
      right. destruct Hsel as [(-> & ->)|(before & j & after & since' & -> & Hj & Hlt & Hb & ->)].
      * exists [], job, rest, since. repeat split; try assumption.
        intros j [].
      * exists (job :: before), j, after, since'. repeat split; try assumption.
        -- lia.
        -- intros j' [<-|Hin]; [lia | exact (Hb j' Hin)].
    + unfold After in Ha. apply Z.ltb_ge in Ha. cbn [ret].
      match goal with
      | |- context [jobsLoop t rest ?t1 ?id1 ?n1 ?s1] =>
          destruct (IH t1 id1 n1 s1)
            as (latest & id & running & s' & E & Htr & Hcfg & Hrun & Hmax & Hle & Hsel)
      end.
      exists latest, id, running, s'. rewrite E.
      split; [reflexivity|]. split; [exact Htr|]. split; [exact Hcfg|].
      split.
      { rewrite Hrun. cbn [filter].
        destruct (IsInProgress t (status.Status job)); cbn [length]; lia. }
      split.
      { intros j [<-|Hin]; [lia | exact (Hmax j Hin)]. }
      split; [lia|].
      destruct Hsel as [(-> & ->)|(before & j & after & since' & -> & Hj & Hlt & Hb & ->)].
      * left. split; reflexivity.
      * right. exists (job :: before), j, after, since'.
        repeat split; try assumption.
        intros j' [<-|Hin]; [lia | exact (Hb j' Hin)].
Qed.

Lemma nth_error_skipn {A : Type} (l : list A) (i : nat) :
  (i < length l)%nat ->
  exists x, nth_error l i = Some x /\ skipn i l = x :: skipn (S i) l.
Proof.
  revert i. induction l as [|y l IH]; intros i H; [cbn in H; lia|].
  destruct i as [|i].
  - exists y. split; reflexivity.
  - cbn in H. destruct (IH i ltac:(lia)) as (x & H1 & H2).
    exists x. split; [exact H1 | exact H2].
Qed.

(** With a name for every API, the loop over the APIs returns, with one
    row for each API that has metadata. *)
Lemma batchRows_spec (batchAPIs : list schema.APIResponse)
    (envNames : list string) :
  forall (i : nat) (rows : list (list Cell)) (s : St W),
    (i + length batchAPIs <= length envNames)%nat ->
    exists rows' s',
      batchRows t i batchAPIs envNames rows s = (Ok rows', s')
      /\ map (firstn 2) rows'
         = (map (firstn 2) rows
            ++ flat_map namesOfRow (combine batchAPIs (skipn i envNames)))%list.
Proof.
  induction batchAPIs as [|api rest IH]; intros i rows s Hlen.
  - exists rows, s. split; [reflexivity|]. cbn. rewrite app_nil_r. reflexivity.
  - cbn [length] in Hlen.
    destruct (@nth_error_skipn _ envNames i ltac:(lia)) as (envName & Hnth & Hskip).
    cbn [batchRows]. rewrite Hskip. cbn [combine flat_map].
    unfold namesOfRow at 1. cbn [fst snd].
    destruct (schema.Metadata api) as [metadata|].
    + unfold bind at 1.
      destruct (jobsLoop_spec (schema.BatchJobStatuses api) zeroTime "-" 0%Z s)
        as (latest & id & running & s1 & E & _).
      rewrite E, Hnth. unfold bind at 1, hostCall.
      destruct (SinceStr t (Unix (spec.LastUpdated metadata)) (world s1))
        as [since w2].
      match goal with
      | |- context [batchRows t (S i) rest envNames ?rows1 ?s2] =>
          destruct (IH (S i) rows1 s2 ltac:(lia)) as (rows' & s' & E' & Hrows)
      end.
      exists rows', s'. split; [exact E'|].
      rewrite Hrows, map_app, <- app_assoc. reflexivity.
    + destruct (IH (S i) rows s ltac:(lia)) as (rows' & s' & E' & Hrows).
      exists rows', s'. split; [exact E' | exact Hrows].
Qed.

(** An API with metadata beyond the names makes the loop panic. *)
Lemma batchRows_panics (batchAPIs : list schema.APIResponse)
    (envNames : list string) :
  forall (k i : nat) (api : schema.APIResponse) (rows : list (list Cell))
         (s : St W),
    nth_error batchAPIs i = Some api ->
    schema.Metadata api <> None ->
    (length envNames <= k + i)%nat ->
    exists msg s', batchRows t k batchAPIs envNames rows s = (Panic msg, s').
Proof.
  induction batchAPIs as [|head rest IH]; intros k i api rows s Hnth Hm Hlen.
  - destruct i; discriminate.
  - cbn [batchRows].
    destruct (schema.Metadata head) as [metadata|] eqn:Hhead.
    + unfold bind at 1.
      destruct (jobsLoop_spec (schema.BatchJobStatuses head) zeroTime "-" 0%Z s)
        as (latest & id & running & s1 & E & _).
      rewrite E.
      destruct (nth_error envNames k) as [envName|] eqn:Hk.
      * destruct i as [|i].
        -- assert (k < length envNames)%nat
             by (apply nth_error_Some; rewrite Hk; discriminate).
           lia.
        -- unfold bind at 1, hostCall.
           destruct (SinceStr t (Unix (spec.LastUpdated metadata)) (world s1))
             as [since w2].
           apply (IH (S k) i api); [exact Hnth | exact Hm | lia].
      * eexists _, _. reflexivity.
    + destruct i as [|i].
      * injection Hnth as <-. contradiction.
      * apply (IH (S k) i api); [exact Hnth | exact Hm | lia].
Qed.

(** The loop of [taskAPIsTable] is the loop of [batchAPIsTable] on the task
    jobs. *)
Lemma taskRows_batchRows (taskAPIs : list schema.APIResponse)
    (envNames : list string) :
  forall (i : nat) (rows : list (list Cell)) (s : St W),
    taskRows t i taskAPIs envNames rows s
    = batchRows t i (map asBatchAPI taskAPIs) envNames rows s.
Proof.
  induction taskAPIs as [|api rest IH]; intros i rows s; [reflexivity|].
  cbn [map taskRows batchRows asBatchAPI schema.Metadata schema.BatchJobStatuses].
  destruct (schema.Metadata api) as [metadata|]; [|apply IH].
  unfold bind at 1 3.
  destruct (jobsLoop t (schema.TaskJobStatuses api) zeroTime "-" 0%Z s)
    as [[[[latest id] running]|msg] s1]; [|reflexivity].
  destruct (nth_error envNames i); [|reflexivity].
  unfold bind. destruct (hostCall _ s1) as [[since|msg] s2]; [apply IH|reflexivity].
Qed.
End TablesFacts.

(** X16.  The loop over the jobs of an API counts the jobs in progress:
    the number of running jobs that it leaves is the number of jobs of the
    list whose status is in progress. *)
Theorem jobsLoop_counts_running_jobs {W : Type} (t : TableDeps W)
    (jobs : list status.JobStatus) (s : St W) :
  exists latest id running s',
    jobsLoop t jobs zeroTime "-" 0%Z s = (Ok (latest, id, running), s')
    /\ running
       = Z.of_nat
           (length (filter (fun job => IsInProgress t (status.Status job)) jobs)).
Proof.
  destruct (jobsLoop_spec t jobs zeroTime "-" 0%Z s)
    as (latest & id & running & s' & E & _ & _ & Hrun & _).
  exists latest, id, running, s'. split; [exact E|].
  rewrite Hrun. apply Z.add_0_l.
Qed.

(** X17.  The loop over the jobs of an API shows the latest job: the job
    id that it leaves is [-] when no job started after the zero time, and
    otherwise the id of the first job of the list among those with the
    latest start time, followed by the time since it was submitted. *)
Theorem jobsLoop_finds_latest_job {W : Type} (t : TableDeps W)
    (jobs : list status.JobStatus) (s : St W) :
  exists latest id running s',
    jobsLoop t jobs zeroTime "-" 0%Z s = (Ok (latest, id, running), s')
    /\ (forall job, In job jobs -> (status.StartTime job <= latest)%Z)
    /\ ((latest = zeroTime /\ id = "-"%string)
        \/ exists before job after since,
             jobs = before ++ job :: after
             /\ status.StartTime job = latest
             /\ (zeroTime < latest)%Z
             /\ (forall job', In job' before ->
                   (status.StartTime job' < latest)%Z)
             /\ id = (status.ID job ++ " (submitted " ++ since ++ " ago)")%string).
Proof.
  destruct (jobsLoop_spec t jobs zeroTime "-" 0%Z s)
    as (latest & id & running & s' & E & _ & _ & _ & Hmax & _ & Hsel).
  exists latest, id, running, s'. split; [exact E|]. split; [exact Hmax|].
  exact Hsel.
Qed.

Lemma namesOfRow_asBatchAPI (taskAPIs : list schema.APIResponse)
    (envNames : list string) :
  flat_map namesOfRow (combine (map asBatchAPI taskAPIs) envNames)
  = flat_map namesOfRow (combine taskAPIs envNames).
Proof.
  revert envNames. induction taskAPIs as [|api rest IH]; intros envNames;
    [reflexivity|].
  destruct envNames as [|envName envNames]; [reflexivity|].
  cbn [map combine flat_map]. rewrite IH. reflexivity.
Qed.

(** X18.  With at least as many environment names as APIs, [batchAPIsTable]
    and [taskAPIsTable] return a table with one row for each API that has
    metadata, in the order of the APIs, that starts with the environment
    name at the index of the API and the name of the API; an API without
    metadata gets no row and its environment name is skipped. *)
Theorem apis_tables_have_a_row_per_API_with_metadata {W : Type}
    (t : TableDeps W) (apis : list schema.APIResponse)
    (envNames : list string) (s : St W) :
  (length apis <= length envNames)%nat ->
  (exists tbl s',
     batchAPIsTable t apis envNames s = (Ok tbl, s')
     /\ map (firstn 2) (table.Rows tbl)
        = flat_map namesOfRow (combine apis envNames))
  /\ (exists tbl s',
        taskAPIsTable t apis envNames s = (Ok tbl, s')
        /\ map (firstn 2) (table.Rows tbl)
           = flat_map namesOfRow (combine apis envNames)).
Proof.
  intros Hlen. split.
  - destruct (batchRows_spec t apis envNames 0 [] s Hlen)
      as (rows & s' & E & Hrows).
    unfold batchAPIsTable, bind. rewrite E.
    eexists _, s'. split; [reflexivity|]. exact Hrows.
  - assert (Hlen' : (0 + length (map asBatchAPI apis) <= length envNames)%nat)
      by (rewrite length_map; exact Hlen).
    destruct (batchRows_spec t (map asBatchAPI apis) envNames 0 [] s Hlen')
      as (rows & s' & E & Hrows).
    unfold taskAPIsTable, bind. rewrite taskRows_batchRows, E.
    eexists _, s'. split; [reflexivity|].
    cbn [table.Rows]. rewrite Hrows. apply namesOfRow_asBatchAPI.
Qed.

Lemma apis_tables_have_a_row_per_API_with_metadata_witness :
  (exists tbl s',
     batchAPIsTable tablesOfExample apisOfExample ["dev"; "prod"]%string
       (atWorld 0%nat) = (Ok tbl, s')
     /\ map (firstn 2) (table.Rows tbl)
        = flat_map namesOfRow (combine apisOfExample ["dev"; "prod"]%string))
  /\ (exists tbl s',
        taskAPIsTable tablesOfExample apisOfExample ["dev"; "prod"]%string
          (atWorld 0%nat) = (Ok tbl, s')
        /\ map (firstn 2) (table.Rows tbl)
           = flat_map namesOfRow (combine apisOfExample ["dev"; "prod"]%string)).
Proof.
  apply (@apis_tables_have_a_row_per_API_with_metadata nat tablesOfExample
           apisOfExample ["dev"; "prod"]%string (atWorld 0%nat)).
  cbn. lia.
Defined.

(** X19.  With an API that has metadata at an index for which there is no
    environment name, [batchAPIsTable] and [taskAPIsTable] panic on the index
    expression [envNames[i]] and return no table. *)
Theorem apis_tables_panic_without_env_name {W : Type} (t : TableDeps W)
    (apis : list schema.APIResponse) (envNames : list string) (s : St W)
    (i : nat) (api : schema.APIResponse) :
  nth_error apis i = Some api ->
  schema.Metadata api <> None ->
  (length envNames <= i)%nat ->
  (exists msg s', batchAPIsTable t apis envNames s = (Panic msg, s'))
  /\ (exists msg s', taskAPIsTable t apis envNames s = (Panic msg, s')).
Proof.
  intros Hnth Hm Hlen. split.
  - destruct (@batchRows_panics W t apis envNames 0%nat i api [] s Hnth Hm Hlen)
      as (msg & s' & E).
    unfold batchAPIsTable, bind. rewrite E. eexists _, _. reflexivity.
  - assert (Hnth' : nth_error (map asBatchAPI apis) i = Some (asBatchAPI api))
      by (rewrite nth_error_map, Hnth; reflexivity).
    destruct (@batchRows_panics W t (map asBatchAPI apis) envNames 0%nat i
                (asBatchAPI api) [] s Hnth' Hm Hlen) as (msg & s' & E).
    unfold taskAPIsTable, bind. rewrite taskRows_batchRows, E.
    eexists _, _. reflexivity.
Qed.

Lemma apis_tables_panic_without_env_name_witness :
  (exists msg s',
     batchAPIsTable tablesOfExample apisOfExample ["dev"]%string (atWorld 0%nat)
     = (Panic msg, s'))
  /\ (exists msg s',
        taskAPIsTable tablesOfExample apisOfExample ["dev"]%string (atWorld 0%nat)
        = (Panic msg, s')).
Proof.
  apply (@apis_tables_panic_without_env_name nat tablesOfExample apisOfExample
           ["dev"]%string (atWorld 0%nat) 1%nat
           {| schema.Metadata :=
                Some {| spec.Name := "api1"%string; spec.LastUpdated := 3 |};
              schema.BatchJobStatuses := jobsOfExample;
              schema.TaskJobStatuses := jobsOfExample |}).
  - reflexivity.
  - discriminate.
  - cbn. lia.
Defined.
